(** * Prepare_RTC_Stack_HyP3_v2: a shallow embedding of the notebook

    The notebook picks a working directory (cells 6-8), downloads RTC
    products, brings every raster to one coordinate system (cells 47-51),
    merges the rasters that share an acquisition date (cells 55-63),
    checks the result (cell 65) and moves the rasters to their final
    folder (cell 69).  Each code cell is embedded as a
    function over an explicit world (the files on disk and the log of what
    was run); Python exceptions are values of [exn].

    Strings are lists of ASCII characters.  The external tools (gdalwarp,
    gdal_merge.py, the HyP3 client, asf_notebook's helpers) are parameters
    of the section that uses them. *)

From Stdlib Require Import String.
From Stdlib Require Import List Ascii Bool Arith PeanoNat Lia Sorted.
Import ListNotations.
Local Open Scope list_scope.

(** ** Python strings *)

Definition pystr : Type := list ascii.

(** A string literal of the notebook. *)
Definition py (s : string) : pystr := list_ascii_of_string s.

Module Py.

Fixpoint eqb (a b : pystr) : bool :=
  match a, b with
  | [], [] => true
  | x :: a', y :: b' => Ascii.eqb x y && eqb a' b'
  | _, _ => false
  end.

(** [a < b] on strings, by code point, as Python and NumPy compare. *)
Fixpoint ltb (a b : pystr) : bool :=
  match a, b with
  | _, [] => false
  | [], _ :: _ => true
  | x :: a', y :: b' =>
      if Nat.ltb (nat_of_ascii x) (nat_of_ascii y) then true
      else if Nat.ltb (nat_of_ascii y) (nat_of_ascii x) then false
      else ltb a' b'
  end.

(** [p] is a prefix of [s]: [s.startswith(p)]. *)
Fixpoint startswith (s p : pystr) : bool :=
  match p, s with
  | [], _ => true
  | x :: p', y :: s' => Ascii.eqb x y && startswith s' p'
  | _ :: _, [] => false
  end.

(** Cutting a string at every character that satisfies [f]: empty pieces
    are kept, the result is never empty. *)
Fixpoint split_by (f : ascii -> bool) (s : pystr) : list pystr :=
  match s with
  | [] => [[]]
  | c :: s' =>
      if f c then [] :: split_by f s'
      else match split_by f s' with
           | w :: ws => (c :: w) :: ws
           | [] => [[c]]
           end
  end.

(** [s.split(sep)] for a one-character separator *)
Definition split (sep : ascii) (s : pystr) : list pystr :=
  split_by (Ascii.eqb sep) s.

(** [s.split(sep)] for a separator of any positive length: leftmost
    occurrences, not overlapping.  [skip] counts the characters of an
    occurrence that are still to be dropped. *)
Fixpoint split_at (sep : pystr) (skip : nat) (s : pystr) : list pystr :=
  match s with
  | [] => [[]]
  | c :: s' =>
      match skip with
      | S k => split_at sep k s'
      | O =>
          if startswith s sep then [] :: split_at sep (length sep - 1) s'
          else match split_at sep 0 s' with
               | w :: ws => (c :: w) :: ws
               | [] => [[c]]
               end
      end
  end.

Definition split_str (sep s : pystr) : list pystr := split_at sep 0 s.

(** [str.isspace] on one ASCII character. *)
Definition isspace (c : ascii) : bool :=
  let n := nat_of_ascii c in
  (n =? 32) || ((9 <=? n) && (n <=? 13)) || ((28 <=? n) && (n <=? 31)).

Fixpoint lstrip (s : pystr) : pystr :=
  match s with
  | c :: s' => if isspace c then lstrip s' else s
  | [] => []
  end.

(** [s.strip()] *)
Definition strip (s : pystr) : pystr := rev (lstrip (rev (lstrip s))).

(** [s.replace(old, new)] for a non-empty [old]. *)
Fixpoint replace_at (old new : pystr) (skip : nat) (s : pystr) : pystr :=
  match s with
  | [] => []
  | c :: s' =>
      match skip with
      | S k => replace_at old new k s'
      | O =>
          if startswith s old then new ++ replace_at old new (length old - 1) s'
          else c :: replace_at old new 0 s'
      end
  end.

Definition replace (old new s : pystr) : pystr := replace_at old new 0 s.

(** [s[0:-2]] *)
Definition drop_last2 (s : pystr) : pystr := firstn (length s - 2) s.

(** [x in xs] for a list of strings. *)
Definition mem (x : pystr) (xs : list pystr) : bool := existsb (eqb x) xs.

(** [xs.count(x)], written in the notebook as a loop with a counter. *)
Fixpoint count (x : pystr) (xs : list pystr) : nat :=
  match xs with
  | [] => 0
  | y :: ys => (if eqb x y then 1 else 0) + count x ys
  end.

(** A dict with string keys, in insertion order. *)
Definition dict (V : Type) : Type := list (pystr * V).

Fixpoint get {V} (d : dict V) (k : pystr) : option V :=
  match d with
  | [] => None
  | (k', v) :: d' => if eqb k k' then Some v else get d' k
  end.

(** [d[k] = v] and [d.update({k : v})]: an existing key keeps its place. *)
Fixpoint set {V} (d : dict V) (k : pystr) (v : V) : dict V :=
  match d with
  | [] => [(k, v)]
  | (k', v') :: d' => if eqb k k' then (k', v) :: d' else (k', v') :: set d' k v
  end.

(** [del d[k]] *)
Definition del {V} (d : dict V) (k : pystr) : dict V :=
  filter (fun kv => negb (eqb k (fst kv))) d.

Definition keys {V} (d : dict V) : list pystr := map fst d.

(** [k in d] *)
Definition has {V} (d : dict V) (k : pystr) : bool :=
  match get d k with Some _ => true | None => false end.

End Py.

(** ** Exceptions *)

Inductive exn : Type :=
| ValueError (msg : pystr)
| IndexError
| KeyError
| AttributeError
| OSError.

Inductive result (A : Type) : Type :=
| Ok (a : A)
| Raise (e : exn).
Arguments Ok {A} a.
Arguments Raise {A} e.

Definition rbind {A B} (r : result A) (k : A -> result B) : result B :=
  match r with
  | Ok a => k a
  | Raise e => Raise e
  end.

(** [xs[i]] *)
Definition index {A} (xs : list A) (i : nat) : result A :=
  match nth_error xs i with
  | Some x => Ok x
  | None => Raise IndexError
  end.

(** [xs[-1]] *)
Definition index_last {A} (xs : list A) : result A :=
  match rev xs with
  | x :: _ => Ok x
  | [] => Raise IndexError
  end.

Fixpoint rmap {A B} (f : A -> result B) (xs : list A) : result (list B) :=
  match xs with
  | [] => Ok []
  | x :: xs' =>
      rbind (f x) (fun y => rbind (rmap f xs') (fun ys => Ok (y :: ys)))
  end.

(** ** Regular expressions

    Every pattern of the notebook ends in [$], so a pattern is run from the
    end of the text towards its start: a matcher takes the reversed text
    that ends where its match must end, and returns the reversed texts that
    end where its match may begin (one per way of matching).  [re.search]
    accepts any start, so the search succeeds when a residue is left. *)

Module Re.

Definition rx : Type := pystr -> list pystr.

(** [\w], on ASCII text *)
Definition word (c : ascii) : bool :=
  let n := nat_of_ascii c in
  ((48 <=? n) && (n <=? 57)) || ((65 <=? n) && (n <=? 90))
  || ((97 <=? n) && (n <=? 122)) || (n =? 95).

(** [[\--~]]: the range from [-] to [~] *)
Definition dash_tilde (c : ascii) : bool :=
  let n := nat_of_ascii c in (45 <=? n) && (n <=? 126).

Definition newline (c : ascii) : bool := nat_of_ascii c =? 10.

(** [.]: any character but a newline *)
Definition dot (c : ascii) : bool := negb (newline c).

Definition chr (f : ascii -> bool) : rx :=
  fun r => match r with
           | c :: r' => if f c then [r'] else []
           | [] => []
           end.

Fixpoint eat (p r : pystr) : option pystr :=
  match p with
  | [] => Some r
  | x :: p' =>
      match r with
      | y :: r' => if Ascii.eqb x y then eat p' r' else None
      | [] => None
      end
  end.

(** literal text *)
Definition lit (p : pystr) : rx :=
  fun r => match eat (rev p) r with
           | Some r' => [r']
           | None => []
           end.

(** [a|b] *)
Definition alt (a b : rx) : rx := fun r => a r ++ b r.

(** [a] followed by [b]: read backwards, [b] is matched first. *)
Definition cat (a b : rx) : rx := fun r => flat_map a (b r).

(** [[f]{lo,hi}] *)
Fixpoint rep (f : ascii -> bool) (lo hi : nat) (r : pystr) : list pystr :=
  (if lo =? 0 then [r] else [])
  ++ match hi, r with
     | S hi', c :: r' => if f c then rep f (pred lo) hi' r' else []
     | _, _ => []
     end.

(** [[f]*] *)
Fixpoint star (f : ascii -> bool) (r : pystr) : list pystr :=
  r :: match r with
       | c :: r' => if f c then star f r' else []
       | [] => []
       end.

(** [$]: the end of the text, or just before a newline that ends it. *)
Definition dollar : rx :=
  fun r => r :: match r with
                | c :: r' => if newline c then [r'] else []
                | [] => []
                end.

(** [re.search(p, s)] as a truth value *)
Definition search (p : rx) (s : pystr) : bool :=
  match p (rev s) with
  | [] => false
  | _ :: _ => true
  end.

Definition tif_tiff : rx := alt (lit (py "tif")) (lit (py "tiff")).
Definition sep : rx := alt (lit (py "_")) (lit (py "-")).

(** ["\w[\--~]{{5,300}}(_|-){}.(tif|tiff)$".format(polarization)] *)
Definition single (polarization : pystr) : rx :=
  cat (chr word) (cat (rep dash_tilde 5 300) (cat sep
    (cat (lit polarization) (cat (chr dot) (cat tif_tiff dollar))))).

(** ["\w[\--~]{{5,300}}(_|-){}(v|V|h|H).(tif|tiff)$".format(polarization[0])] *)
Definition double (p0 : ascii) : rx :=
  cat (chr word) (cat (rep dash_tilde 5 300) (cat sep
    (cat (lit [p0])
      (cat (alt (lit (py "v")) (alt (lit (py "V")) (alt (lit (py "h")) (lit (py "H")))))
        (cat (chr dot) (cat tif_tiff dollar)))))).

(** [f"(\w|/)*_{polar}.(tif|tiff)$"] *)
Definition polar_regex (polar : pystr) : rx :=
  cat (star (fun c => word c || Ascii.eqb c "/"%char)) (cat (lit (py "_"))
    (cat (lit polar) (cat (chr dot) (cat tif_tiff dollar)))).

End Re.

(** ** glob

    [glob.glob(pattern)] over the files of the working directory: the
    pattern and the path are cut at [/] and matched piece by piece; [*]
    stands for any run of characters inside one piece, and a piece that
    starts with a dot is only found by a pattern piece that starts with
    one. *)

Module Glob.

Fixpoint fnmatch (pat name : pystr) : bool :=
  match pat with
  | [] => match name with [] => true | _ :: _ => false end
  | p :: pat' =>
      if Ascii.eqb p "*"%char then
        (fix any (n : pystr) : bool :=
           fnmatch pat' n
           || match n with
              | [] => false
              | _ :: n' => any n'
              end) name
      else match name with
           | c :: name' => Ascii.eqb p c && fnmatch pat' name'
           | [] => false
           end
  end.

Definition hidden (name : pystr) : bool := Py.startswith name (py ".").

Definition piece (pat name : pystr) : bool :=
  match name with
  | [] => false
  | _ :: _ => fnmatch pat name && (negb (hidden name) || hidden pat)
  end.

Fixpoint pieces (pats names : list pystr) : bool :=
  match pats, names with
  | [], [] => true
  | p :: pats', n :: names' => piece p n && pieces pats' names'
  | _, _ => false
  end.

Definition matches (pattern path : pystr) : bool :=
  pieces (Py.split "/"%char pattern) (Py.split "/"%char path).

End Glob.

(** ** The world: files and the log of what was run *)

(** A raster file: the well-known text of its coordinate system, as
    [gdal.Info] reports it, and its pixels. *)
Record raster : Type := { wkt : pystr; pixels : list nat }.

Inductive action : Type :=
| Shell (cmd : pystr)          (* !$cmd *)
| OsRemove (pth : pystr)
| OsRename (src dst : pystr)
| Rmtree (dir : pystr).

(** [disk] maps the paths of the files, relative to the analysis directory,
    to their contents, in the order in which the directories list them. *)
Record world : Type := { disk : Py.dict raster; log : list action }.

Definition did (a : action) (d : Py.dict raster) (w : world) : world :=
  {| disk := d; log := log w ++ [a] |}.

(** A cell reads and changes the world and may raise. *)
Definition cell (A : Type) : Type := world -> result A * world.

Definition ret {A} (a : A) : cell A := fun w => (Ok a, w).

Definition bind {A B} (m : cell A) (k : A -> cell B) : cell B :=
  fun w => match m w with
           | (Ok a, w') => k a w'
           | (Raise e, w') => (Raise e, w')
           end.

Definition lift {A} (r : result A) : cell A := fun w => (r, w).

Definition reading {A} (f : world -> A) : cell A := fun w => (Ok (f w), w).

Definition doing (f : world -> world) : cell unit := fun w => (Ok tt, f w).

Declare Scope cell_scope.
Delimit Scope cell_scope with cell.
Notation "x <- m ;; k" := (bind m (fun x => k))
  (at level 61, m at next level, right associativity) : cell_scope.
Notation "m ;;; k" := (bind m (fun _ => k))
  (at level 61, right associativity) : cell_scope.

(** [for x in xs: body] *)
Fixpoint for_each {A} (xs : list A) (body : A -> cell unit) : cell unit :=
  match xs with
  | [] => ret tt
  | x :: xs' => bind (body x) (fun _ => for_each xs' body)
  end.

(** [enumerate(xs)] *)
Fixpoint enumerate_from {A} (i : nat) (xs : list A) : list (nat * A) :=
  match xs with
  | [] => []
  | x :: xs' => (i, x) :: enumerate_from (S i) xs'
  end.

Definition enumerate {A} (xs : list A) : list (nat * A) := enumerate_from 0 xs.

Definition is_empty (s : pystr) : bool :=
  match s with [] => true | _ :: _ => false end.

(** ** The shell

    [!$cmd] hands the command line to the shell, which cuts it into words at
    blanks.  Only the three programs the notebook calls are interpreted;
    quoting and the other shell metacharacters are not modelled. *)

Definition blank (c : ascii) : bool :=
  let n := nat_of_ascii c in (n =? 32) || (n =? 9) || (n =? 10).

Definition words (cmd : pystr) : list pystr :=
  filter (fun w => negb (is_empty w)) (Py.split_by blank cmd).

(** What lies at each of the paths [ps]: a raster, or nothing. *)
Definition opened (d : Py.dict raster) (ps : list pystr) : list (option raster) :=
  map (Py.get d) ps.

(** A HyP3 job, as far as cell 16 looks at it. *)
Record job : Type := { job_name : pystr; job_type : pystr }.

(** ** Stand-ins for the external tools, for running the cells *)

Module Demo.

(** A warp that always writes its output, and one that always fails. *)
Definition warp_ok (s_srs t_srs : pystr) (r : raster) : option raster :=
  Some {| wkt := t_srs; pixels := pixels r |}.


(** A mosaic that always writes its output, and one that always fails. *)
Definition merge_ok (rs : list (option raster)) : option raster :=
  let found := flat_map (fun o => match o with Some r => [r] | None => [] end) rs in
  Some {| wkt := match found with r :: _ => wkt r | [] => [] end;
          pixels := flat_map pixels found |}.

Definition merge_fails (rs : list (option raster)) : option raster := None.

(** [set(xs)] walked in the order of first occurrence. *)
Fixpoint first_seen (xs : list pystr) : list pystr :=
  match xs with
  | [] => []
  | x :: xs' => x :: filter (fun y => negb (Py.eqb x y)) (first_seen xs')
  end.

Definition digit (c : ascii) : bool :=
  let n := nat_of_ascii c in (48 <=? n) && (n <=? 57).

Definition stamp_here (s : pystr) : option pystr :=
  let token := firstn 15 s in
  match token with
  | w :: rest =>
      if (length token =? 15) && Re.word w
         && forallb digit (firstn 7 rest)
         && Py.eqb (firstn 1 (skipn 7 rest)) (py "T")
         && forallb digit (skipn 8 rest)
      then Some token else None
  | [] => None
  end.

(** Modelled from the spec: [asf_notebook.date_from_product_name] is not
    part of the notebook.  The spec has the acquisition date as the date
    token that precedes the time separator; here the time stamp is the
    leftmost run of a word character and seven digits, a [T] and six
    digits, and there is none when the path holds no such run. *)
Fixpoint date_from_product_name (pth : pystr) : option pystr :=
  match stamp_here pth with
  | Some token => Some token
  | None =>
      match pth with
      | [] => None
      | _ :: rest => date_from_product_name rest
      end
  end.

(** A raster file whose coordinate system ends in
    [ID[<double quote>authority<double quote>,zone]]], as GDAL writes it. *)
Definition file (pth authority zone : string) (px : nat) : pystr * raster :=
  (py pth,
   {| wkt := py "PROJCRS[...,ID[" ++ [ascii_of_nat 34] ++ py authority
             ++ [ascii_of_nat 34] ++ py "," ++ py zone ++ py "]]";
      pixels := [px] |}).

Definition on_disk (files : list (pystr * raster)) : world :=
  {| disk := files; log := [] |}.

(** The stacks the cells are run on below. *)

(** One frame in each channel on one date. *)
Definition one_frame_two_channels : world :=
  on_disk [file "rtc_products/P1/S1A_20210101T000000_VV.tif" "EPSG" "32610" 1;
           file "rtc_products/P1/S1A_20210101T000000_VH.tif" "EPSG" "32610" 2].

(** One frame in each channel of the selection HH and VV, on one date. *)
Definition one_frame_hh_vv : world :=
  on_disk [file "rtc_products/P1/S1A_20210101T000000_HH.tif" "EPSG" "32610" 1;
           file "rtc_products/P1/S1A_20210101T000000_VV.tif" "EPSG" "32610" 2].

(** Two frames on one date, the name of the second with a hyphen before
    the channel. *)
Definition underscore_and_hyphen : world :=
  on_disk [file "rtc_products/P1/S1A_20210101T000000_VV.tif" "EPSG" "32610" 1;
           file "rtc_products/P2/S1A_20210101T000025-VV.tif" "EPSG" "32610" 2].

(** Two frames in each channel on one date. *)
Definition two_frames_two_channels : world :=
  on_disk [file "rtc_products/P1/S1A_20210101T000000_VV.tif" "EPSG" "32610" 1;
           file "rtc_products/P1/S1A_20210101T000000_VH.tif" "EPSG" "32610" 2;
           file "rtc_products/P2/S1A_20210101T000025_VV.tif" "EPSG" "32610" 3;
           file "rtc_products/P2/S1A_20210101T000025_VH.tif" "EPSG" "32610" 4].

(** Two dates with two frames each, one channel. *)
Definition two_dates_two_frames : world :=
  on_disk [file "rtc_products/P1/S1A_20210101T000000_VV.tif" "EPSG" "32610" 1;
           file "rtc_products/P2/S1A_20210101T000025_VV.tif" "EPSG" "32610" 2;
           file "rtc_products/P3/S1A_20210113T000000_VV.tif" "EPSG" "32610" 3;
           file "rtc_products/P4/S1A_20210113T000025_VV.tif" "EPSG" "32610" 4].


(** Three rasters in zone 32610 and one in zone 32611. *)
Definition one_off_zone : world :=
  on_disk [file "rtc_products/P1/S1A_20210101T000000_VV.tif" "EPSG" "32610" 1;
           file "rtc_products/P2/S1A_20210113T000000_VV.tif" "EPSG" "32611" 2;
           file "rtc_products/P3/S1A_20210125T000000_VV.tif" "EPSG" "32610" 3;
           file "rtc_products/P4/S1A_20210206T000000_VV.tif" "EPSG" "32610" 4].

(** Two rasters, both in zone 32610. *)
Definition one_zone : world :=
  on_disk [file "rtc_products/P1/S1A_20210101T000000_VV.tif" "EPSG" "32610" 1;
           file "rtc_products/P2/S1A_20210113T000000_VV.tif" "EPSG" "32610" 2].

(** Code 32610 under two authorities, twice each, and code 32611 under
    one, three times. *)
Definition two_authorities : world :=
  on_disk [file "rtc_products/P1/S1A_20210101T000000_VV.tif" "EPSG" "32610" 1;
           file "rtc_products/P2/S1A_20210113T000000_VV.tif" "EPSG" "32610" 2;
           file "rtc_products/P3/S1A_20210125T000000_VV.tif" "ESRI" "32610" 3;
           file "rtc_products/P4/S1A_20210206T000000_VV.tif" "ESRI" "32610" 4;
           file "rtc_products/P5/S1A_20210218T000000_VV.tif" "EPSG" "32611" 5;
           file "rtc_products/P6/S1A_20210302T000000_VV.tif" "EPSG" "32611" 6;
           file "rtc_products/P7/S1A_20210314T000000_VV.tif" "EPSG" "32611" 7].

(** Jobs of a project without any RTC job. *)
Definition insar_jobs (project : pystr) : list job :=
  [{| job_name := project; job_type := py "INSAR_GAMMA" |};
   {| job_name := project; job_type := py "AUTORIFT" |}].

End Demo.

Definition newline_char : ascii := ascii_of_nat 10.

Definition no_products_message : pystr :=
  py "There are no unexpired RTC products for this project."
  ++ [newline_char]
  ++ py "Select a different project or rerun your jobs in Vertex.".

Section Notebook.

Set Default Proof Using "Type".

(** The raster toolkit, as black boxes that succeed with a raster or
    fail: [gdalwarp s_srs t_srs r] on the raster it reads, and
    [gdal_merge rs] on what it finds at each of its input paths. *)
Variable gdalwarp : pystr -> pystr -> raster -> option raster.
Variable gdal_merge : list (option raster) -> option raster.

(** The HyP3 client: [hyp3.find_jobs(name=project)] and
    [jobs.filter_jobs(running=False, include_expired=False)]. *)
Variable find_jobs : pystr -> list job.
Variable filter_jobs : list job -> list job.

(** [asfn.date_from_product_name(pth)]: the time stamp found in a path,
    or [None]. *)
Variable date_from_product_name : pystr -> option pystr.

(** The order in which Python walks through [set(xs)]. *)
Variable set_of : list pystr -> list pystr.

(** The absolute path of the analysis directory (cell 8). *)
Variable analysis_directory : pystr.

(** [gdalwarp -overwrite src dst -s_srs s -t_srs t] *)
Definition run_gdalwarp (args : list pystr) (d : Py.dict raster) : Py.dict raster :=
  match args with
  | [o; src; dst; f1; s_srs; f2; t_srs] =>
      if Py.eqb o (py "-overwrite") && Py.eqb f1 (py "-s_srs")
         && Py.eqb f2 (py "-t_srs")
      then match Py.get d src with
           | Some r =>
               match gdalwarp s_srs t_srs r with
               | Some r' => Py.set d dst r'
               | None => d
               end
           | None => d
           end
      else d
  | _ => d
  end.

(** [gdal_merge.py -o out in1 in2 ...] *)
Definition run_gdal_merge (args : list pystr) (d : Py.dict raster) : Py.dict raster :=
  match args with
  | o :: out :: ins =>
      if Py.eqb o (py "-o")
      then match gdal_merge (opened d ins) with
           | Some r => Py.set d out r
           | None => d
           end
      else d
  | _ => d
  end.

(** [rm p1 p2 ...] *)
Definition run_rm (args : list pystr) (d : Py.dict raster) : Py.dict raster :=
  fold_left (fun d' p => Py.del d' p) args d.

Definition run (cmd : pystr) (d : Py.dict raster) : Py.dict raster :=
  match words cmd with
  | prog :: args =>
      if Py.eqb prog (py "gdalwarp") then run_gdalwarp args d
      else if Py.eqb prog (py "gdal_merge.py") then run_gdal_merge args d
      else if Py.eqb prog (py "rm") then run_rm args d
      else d
  | [] => d
  end.

(** [!$cmd] *)
Definition shell (cmd : pystr) : cell unit :=
  doing (fun w => did (Shell cmd) (run cmd (disk w)) w).

(** [os.remove(pth)] of a file that exists *)
Definition os_remove (pth : pystr) : cell unit :=
doing (fun w => did (OsRemove pth) (Py.del (disk w) pth) w).

(** [asfn.path_exists(pth)]: whether the file is there *)
Definition path_exists (pth : pystr) : cell bool :=
reading (fun w => Py.has (disk w) pth).

(** [glob.glob(pths)] *)
Definition glob (pths : pystr) : cell (list pystr) :=
reading (fun w => filter (Glob.matches pths) (Py.keys (disk w))).

(** ** Cell 16: the jobs of the selected project *)

Definition cell_16 (project : pystr) : result (list job) :=
  let jobs := find_jobs project in
  let jobs := filter_jobs jobs in
  let jobs := filter (fun job => Py.startswith (job_type job) (py "RTC")) jobs in
  if length jobs <? 1 then Raise (ValueError no_products_message)
  else Ok jobs.

(** ** Cells 10, 38 and 44: the paths variable *)

Definition rtc_path : pystr := py "rtc_products".

Definition cell_38 (polarization : pystr) : result (Re.rx * bool) :=
if length polarization =? 2 then Ok (Re.single polarization, false)
else rbind (index polarization 0) (fun p0 => Ok (Re.double p0, true)).

(** [f"{rtc_path}/*/*{polarization[0]}*.tif*"] *)
Definition cell_44 (polarization : pystr) : result pystr :=
rbind (index polarization 0)
  (fun p0 => Ok (rtc_path ++ py "/*/*" ++ [p0] ++ py "*.tif*")).

(** Cell 40: [get_tiff_paths(regex, polarization, pths)] *)
Definition get_tiff_paths (regex : Re.rx) (pths : pystr) : cell (list pystr) :=
(found <- glob pths ;;
 ret (filter (Re.search regex) found))%cell.

(** ** Cells 47-51: one coordinate system for all rasters *)

Definition double_quote : ascii := ascii_of_nat 34.

(** [info.split('ID')[-1].split(',')[1][0:-2]] *)
Definition zone_of_wkt (info : pystr) : result pystr :=
rbind (index_last (Py.split_str (py "ID") info)) (fun last_id =>
rbind (index (Py.split ","%char last_id) 1) (fun code =>
Ok (Py.drop_last2 code))).

(** [info.split('ID')[-1]], cut at the double quotes, piece 1 *)
Definition type_of_wkt (info : pystr) : result pystr :=
rbind (index_last (Py.split_str (py "ID") info)) (fun last_id =>
index (Py.split double_quote last_id) 1).

(** [gdal.Info(path, options=['-json'])['coordinateSystem']['wkt']] *)
Definition gdal_info_wkt (pth : pystr) : cell pystr :=
fun w => match Py.get (disk w) pth with
         | Some r => (Ok (wkt r), w)
         | None => (Raise KeyError, w)
         end.

(** Cell 47: the lists [utm_zones] and [utm_types] *)
Fixpoint cell_47 (tiff_paths : list pystr) : cell (list pystr * list pystr) :=
match tiff_paths with
| [] => ret ([], [])
| pth :: rest =>
    (info <- gdal_info_wkt pth ;;
     zone <- lift (zone_of_wkt info) ;;
     typ <- lift (type_of_wkt info) ;;
     more <- cell_47 rest ;;
     ret (zone :: fst more, typ :: snd more))%cell
end.

(** [np.unique(xs, return_counts=True)]: the distinct values in ascending
  order, each with the number of its occurrences. *)
Fixpoint insert_unique (x : pystr) (sorted : list pystr) : list pystr :=
match sorted with
| [] => [x]
| y :: rest =>
    if Py.ltb x y then x :: sorted
    else if Py.eqb x y then sorted
    else y :: insert_unique x rest
end.

Definition np_unique (xs : list pystr) : list pystr * list nat :=
let utm_unique := fold_right insert_unique [] xs in
(utm_unique, map (fun u => Py.count u xs) utm_unique).

(** [np.max(counts)] *)
Definition np_max (counts : list nat) : result nat :=
match counts with
| [] => Raise (ValueError (py "zero-size array to reduction operation maximum which has no identity"))
| c :: cs => Ok (fold_left Nat.max cs c)
end.

(** [np.where(counts == m)]: the positions that hold [m] *)
Definition np_where_eq (counts : list nat) (m : nat) : list nat :=
map fst (filter (fun ic => snd ic =? m) (enumerate counts)).

(** [values[a]] for an array of positions [a] *)
Definition take_positions (values : list pystr) (a : list nat) : list pystr :=
flat_map (fun i => match nth_error values i with
                   | Some v => [v]
                   | None => []
                   end) a.

Inductive coord_choice : Type := UTM | LatLong.

Definition cell_49 (choice : coord_choice) (utm_zones : list pystr) : result pystr :=
match choice with
| UTM =>
    let '(utm_unique, counts) := np_unique utm_zones in
    rbind (np_max counts) (fun m =>
    let a := np_where_eq counts m in
    index (take_positions utm_unique a) 0)
| LatLong => Ok (py "4326")
end.

(** [[i for i, j in enumerate(utm_zones) if j != predominant_utm]] *)
Definition reproject_indicies (utm_zones : list pystr) (predominant_utm : pystr)
: list nat :=
map fst (filter (fun ij => negb (Py.eqb (snd ij) predominant_utm))
           (enumerate utm_zones)).

(** [_, product_name, tiff_name = temppath.split('/')] *)
Definition unpack3 (parts : list pystr) : result (pystr * pystr) :=
match parts with
| [_; product_name; tiff_name] => Ok (product_name, tiff_name)
| _ :: _ :: _ :: _ :: _ =>
    Raise (ValueError (py "too many values to unpack (expected 3)"))
| _ => Raise (ValueError (py "not enough values to unpack"))
end.

(** The command line [cmd] of cell 51 *)
Definition warp_cmd (product_name tiff_name typ zone predominant_utm : pystr) : pystr :=
  py "gdalwarp -overwrite rtc_products/" ++ product_name ++ py "/" ++ tiff_name
  ++ py " rtc_products/" ++ product_name ++ py "/r" ++ tiff_name
  ++ py " -s_srs " ++ typ ++ py ":" ++ zone
  ++ py " -t_srs EPSG:" ++ predominant_utm.

(** The command line [rm_cmd] of cell 51 *)
Definition rm_cmd (pth : pystr) : pystr := py "rm " ++ Py.strip pth.

(** The body of the loop of cell 51 *)
Definition reproject (tiff_paths utm_zones utm_types : list pystr)
  (predominant_utm : pystr) (k : nat) : cell unit :=
  (pth <- lift (index tiff_paths k) ;;
   let temppath := Py.strip pth in
   names <- lift (unpack3 (Py.split "/"%char temppath)) ;;
   let '(product_name, tiff_name) := names in
   typ <- lift (index utm_types k) ;;
   zone <- lift (index utm_zones k) ;;
   shell (warp_cmd product_name tiff_name typ zone predominant_utm) ;;;
   shell (rm_cmd pth))%cell.

Definition cell_51 (tiff_paths utm_zones utm_types : list pystr)
  (predominant_utm : pystr) : cell unit :=
  for_each (reproject_indicies utm_zones predominant_utm)
    (reproject tiff_paths utm_zones utm_types predominant_utm).

(** Cells 47 to 51 in a row, on the paths cell 44 collected. *)
Definition normalizer (choice : coord_choice) (tiff_paths : list pystr) : cell unit :=
  (zt <- cell_47 tiff_paths ;;
   let '(utm_zones, utm_types) := zt in
   predominant_utm <- lift (cell_49 choice utm_zones) ;;
   cell_51 tiff_paths utm_zones utm_types predominant_utm)%cell.

(** ** Cells 53-63: one raster per date *)

(** [asfn.date_from_product_name(pth).split('T')[0]] *)
Definition date_of (pth : pystr) : result pystr :=
  match date_from_product_name pth with
  | Some stamp => index (Py.split "T"%char stamp) 0
  | None => Raise AttributeError
  end.

(** Cell 42: [get_dates(tiff_paths)] *)
Definition get_dates (tiff_paths : list pystr) : result (list pystr) :=
  rmap date_of tiff_paths.

(** The counting loop of cell 59: [for d in dates: if date == d: count += 1] *)
Definition count_dates (date : pystr) (dates : list pystr) : nat :=
  fold_left (fun count d => if Py.eqb date d then count + 1 else count) dates 0.

(** Cell 59: the dates with more than one file, each with an empty string;
    in dual-channel mode the dictionary is copied for the second channel. *)
Definition cell_59 (unique_dates dates : list pystr) (dbl_polar : bool)
  : list (Py.dict pystr) :=
  let batch :=
    fold_left (fun batch date =>
                 if 1 <? count_dates date dates then Py.set batch date [] else batch)
      unique_dates [] in
  if dbl_polar then [batch; batch] else [batch].

(** [[polarization.split(' ')[0], polarization.split(' ')[2]]], or
    [[polarization]] *)
Definition polar_list_of (polarization : pystr) (dbl_polar : bool)
  : result (list pystr) :=
  if dbl_polar then
    rbind (index (Py.split " "%char polarization) 0) (fun first =>
    rbind (index (Py.split " "%char polarization) 2) (fun second =>
    Ok [first; second]))
  else Ok [polarization].

(** [xs[i] = x] *)
Fixpoint set_nth {A} (xs : list A) (i : nat) (x : A) : list A :=
  match xs, i with
  | [], _ => []
  | _ :: xs', O => x :: xs'
  | y :: xs', S i' => y :: set_nth xs' i' x
  end.

(** The body of the inner loop of cell 61:
    [if date in dup_date_batches[i]:
       dup_date_batches[i][date] = f"{dup_date_batches[i][date]} {pth}"] *)
Definition add_path (i : nat) (dup_date_batches : list (Py.dict pystr))
  (pth : pystr) : result (list (Py.dict pystr)) :=
  rbind (date_of pth) (fun date =>
  rbind (index dup_date_batches i) (fun batch =>
  match Py.get batch date with
  | Some paths =>
      Ok (set_nth dup_date_batches i (Py.set batch date (paths ++ py " " ++ pth)))
  | None => Ok dup_date_batches
  end)).

Fixpoint rfold {A S} (f : S -> A -> result S) (xs : list A) (s : S) : result S :=
  match xs with
  | [] => Ok s
  | x :: xs' => rbind (f s x) (rfold f xs')
  end.

Fixpoint cfold {A S} (f : S -> A -> cell S) (xs : list A) (s : S) : cell S :=
  match xs with
  | [] => ret s
  | x :: xs' => bind (f s x) (cfold f xs')
  end.

Definition cell_61 (polarization : pystr) (dbl_polar : bool) (tiff_pth : pystr)
  (dup_date_batches : list (Py.dict pystr))
  : cell (list pystr * list (Py.dict pystr)) :=
  (polar_list <- lift (polar_list_of polarization dbl_polar) ;;
   filled <- cfold (fun batches ip =>
               polar_paths <- get_tiff_paths (Re.polar_regex (snd ip)) tiff_pth ;;
               lift (rfold (add_path (fst ip)) polar_paths batches))
             (enumerate polar_list) dup_date_batches ;;
   ret (polar_list, filled))%cell.

(** [dup_dates[dup_date]] *)
Definition lookup (dup_dates : Py.dict pystr) (dup_date : pystr) : result pystr :=
  match Py.get dup_dates dup_date with
  | Some paths => Ok paths
  | None => Raise KeyError
  end.

(** The output path of cell 63, from the string of paths of one date. *)
Definition output_of (paths : pystr) : result pystr :=
  rbind (index (Py.split "/"%char paths) 0) (fun top =>
  rbind (index (Py.split "/"%char paths) 1) (fun product =>
  rbind (index (Py.split "/"%char paths) 2) (fun rest =>
  rbind (index (Py.split " "%char rest) 0) (fun name =>
  Ok (top ++ py "/" ++ product ++ py "/new" ++ name))))).

(** The deletion loop of cell 63:
    [if pth and asfn.path_exists(pth): os.remove(pth)] *)
Definition remove_if_exists (pth : pystr) : cell unit :=
  if is_empty pth then ret tt
  else (there <- path_exists pth ;;
        if there then os_remove pth else ret tt)%cell.

(** [f"gdal_merge.py -o {output} {dup_dates[dup_date]}"] *)
Definition gdal_command (output paths : pystr) : pystr :=
  py "gdal_merge.py -o " ++ output ++ py " " ++ paths.

(** The body of the loops of cell 63, for one date of one channel. *)
Definition merge_date (dup_dates : Py.dict pystr) (dup_date : pystr) : cell unit :=
  (paths <- lift (lookup dup_dates dup_date) ;;
   output <- lift (output_of paths) ;;
   shell (gdal_command output paths) ;;;
   for_each (Py.split " "%char paths) remove_if_exists)%cell.

Definition cell_63 (dup_date_batches : list (Py.dict pystr)) : cell unit :=
  for_each dup_date_batches
    (fun dup_dates => for_each (Py.keys dup_dates) (merge_date dup_dates)).

(** Cells 38, 44 and 53 to 63 in a row: the Duplicate-Date Merger. *)
Definition merger (polarization : pystr) : cell unit :=
  (rd <- lift (cell_38 polarization) ;;
   let '(regex, dbl_polar) := rd in
   tiff_pth <- lift (cell_44 polarization) ;;
   tiff_paths <- get_tiff_paths regex tiff_pth ;;
   dates <- lift (get_dates tiff_paths) ;;
   let unique_dates := set_of dates in
   let dup_date_batches := cell_59 unique_dates dates dbl_polar in
   pb <- cell_61 polarization dbl_polar tiff_pth dup_date_batches ;;
   cell_63 (snd pb))%cell.

(** ** Cell 65: the check for duplicate dates, which prints its verdict *)

Fixpoint cmap {A B} (f : A -> cell B) (xs : list A) : cell (list B) :=
  match xs with
  | [] => ret []
  | x :: xs' => (y <- f x ;; ys <- cmap f xs' ;; ret (y :: ys))%cell
  end.

Definition verdict (regex : Re.rx) (tiff_pth polar : pystr) : cell pystr :=
  (let polar_tiff_pth := Py.replace (py "V*") polar tiff_pth in
   polar_tiff_paths <- get_tiff_paths regex polar_tiff_pth ;;
   dates <- lift (get_dates polar_tiff_paths) ;;
   if negb (length dates =? length (set_of dates))
   then ret (py "Duplicate dates still present!")
   else ret (py "No duplicate dates are associated with " ++ polar
             ++ py " polarization."))%cell.

(** The new [tiff_paths] and the lines printed. *)
Definition cell_65 (regex : Re.rx) (tiff_pth : pystr) (polar_list : list pystr)
  : cell (list pystr * list pystr) :=
  (tiff_paths <- get_tiff_paths regex tiff_pth ;;
   printed <- cmap (verdict regex tiff_pth) polar_list ;;
   ret (tiff_paths, printed))%cell.

(** ** Cell 69: the rasters move to the tiffs folder *)

(** The disk is keyed by the paths of the regular files as they are seen
    from the current directory, which is the analysis directory since
    cell 8: an absolute path that leads into the analysis directory names
    the file of the relative path. *)
Definition resolve (pth : pystr) : pystr :=
  if Py.startswith pth (py "/") && Py.startswith pth (analysis_directory ++ py "/")
  then skipn (length analysis_directory + 1) pth
  else pth.

(** Whether the pieces [a] are those of a folder on the way to the path
    of the pieces [b]. *)
Fixpoint above (a b : list pystr) : bool :=
  match a, b with
  | [], _ :: _ => true
  | x :: a', y :: b' => Py.eqb x y && above a' b'
  | _, [] => false
  end.

(** Whether a regular file can stand at [pth]: no regular file of the
    disk stands where [pth] wants a folder, and [pth] is no folder that
    holds a file of the disk. *)
Definition free_way (d : Py.dict raster) (pth : pystr) : bool :=
  forallb (fun k => negb (above (Py.split "/"%char k) (Py.split "/"%char pth))
                    && negb (above (Py.split "/"%char pth) (Py.split "/"%char k)))
    (Py.keys d).

(** [os.rename(src, dst)] replaces a regular file [dst].  It raises when
    [src] is not there, when a regular file stands where [dst] wants a
    folder and when [dst] is a folder.  The folder [dst] lies in is there:
    cell 69 makes tiffs before it moves a file. *)
Definition os_rename (src dst : pystr) : cell unit :=
  fun w => match Py.get (disk w) (resolve src) with
           | Some r =>
               if free_way (disk w) (resolve dst)
               then (Ok tt,
                     did (OsRename src dst)
                       (Py.set (Py.del (disk w) (resolve src)) (resolve dst) r) w)
               else (Raise OSError, w)
           | None => (Raise OSError, w)
           end.

(** [shutil.rmtree(dir)] *)
Definition rmtree (dir : pystr) : cell unit :=
  doing (fun w =>
    did (Rmtree dir)
        (filter (fun kv => negb (Py.startswith (fst kv) (dir ++ py "/"))) (disk w)) w).

(** Cell 69.  [asfn.new_directory("tiffs")] makes the folder the rasters
    move to; the disk holds the regular files only, so nothing is written
    for it. *)
Definition cell_69 (tiff_paths : list pystr) : cell unit :=
  (for_each tiff_paths (fun tiff =>
     name <- lift (index_last (Py.split "/"%char tiff)) ;;
     os_rename tiff (analysis_directory ++ py "/tiffs/" ++ name)) ;;;
   rmtree rtc_path)%cell.

(** ** Cells 6 and 8: the working directory

    The current directory as far as these cells look at it: its entries
    by name, each a regular file or a directory with the names of what it
    holds. *)

Inductive entry : Type :=
| File
| Dir (names : list pystr).

(** A text names an entry of the current directory, and nothing else,
    when it is plain: not empty, not [.] and not [..], at most 255
    characters long, and free of the slash, of the characters that glob
    reads as a pattern ([*], [?] and the opening bracket) and of the null
    character.  For every other text [os.path.exists], [glob.glob],
    [os.mkdir] and [os.chdir] look beyond the entries of the current
    directory or raise; the cells are modelled on plain names only. *)
Definition plain (text : pystr) : bool :=
  match text with
  | [] => false
  | _ :: _ =>
      negb (Py.eqb text (py ".")) && negb (Py.eqb text (py ".."))
      && (length text <=? 255)
      && forallb (fun c => negb (Ascii.eqb c "/"%char) && negb (Ascii.eqb c "*"%char)
                           && negb (Ascii.eqb c "?"%char) && negb (Ascii.eqb c "["%char)
                           && negb (Ascii.eqb c zero))
           text
  end.

Record entry_name : Type := { text : pystr; text_is_plain : plain text = true }.

(** One round of the dialogue: what [asfn.input_path] returns, a plain
    name, and what [asfn.handle_old_data] returns when it is asked. *)
Record answer : Type := { typed : entry_name; old_data : nat }.

(** [glob.glob(f'{data_dir}/*')]: the names that do not begin with a
    dot; nothing for a regular file. *)
Definition contents_of (e : entry) : list pystr :=
  match e with
  | File => []
  | Dir names => filter (fun name => negb (Glob.hidden name)) names
  end.

(** Cell 6: the loop runs one round per answer; [None] when the answers
    are used up and it is still asking.  On a plain name no call of the
    cell raises: [os.mkdir] is called on a free name of the current
    directory, and [shutil.rmtree] on a directory. *)
Fixpoint cell_6 (answers : list answer) (here : Py.dict entry)
  : option (entry_name * Py.dict entry) :=
  match answers with
  | [] => None
  | a :: rest =>
      let data_dir := typed a in
      match Py.get here (text data_dir) with
      | Some e =>
          if 0 <? length (contents_of e) then
            let choice := old_data a in
            if choice =? 1
            then Some (data_dir,
                       Py.set (Py.del here (text data_dir)) (text data_dir) (Dir []))
            else if choice =? 2 then Some (data_dir, here)
            else cell_6 rest here
          else Some (data_dir, here)
      | None => Some (data_dir, Py.set here (text data_dir) (Dir []))
      end
  end.

(** Cell 8: [analysis_directory = f"{os.getcwd()}/{data_dir}"] and
    [os.chdir(analysis_directory)], which needs a directory; [getcwd] is
    the path of the current directory, and [data_dir] a plain name, so
    the path is that of the entry [data_dir]. *)
Definition cell_8 (getcwd : pystr) (data_dir : entry_name) (here : Py.dict entry)
  : result pystr :=
  match Py.get here (text data_dir) with
  | Some (Dir _) => Ok (getcwd ++ py "/" ++ text data_dir)
  | Some File => Raise OSError
  | None => Raise OSError
  end.

(** ** Vocabulary of the statements *)

Definition ascending : list pystr -> Prop :=
  StronglySorted (fun a b => Py.ltb a b = true).

(** A string without blanks, and a non-empty one: one word for the shell. *)
Definition noblank (s : pystr) : bool := forallb (fun c => negb (blank c)) s.

Definition token (s : pystr) : bool := negb (is_empty s) && noblank s.

(** A string without the character [c]. *)
Definition without (c : ascii) (s : pystr) : bool :=
  forallb (fun x => negb (Ascii.eqb c x)) s.

(** [rtc_products/<product>/<name>], as cell 44's glob returns paths. *)
Definition product_path (product name : pystr) : pystr :=
  rtc_path ++ py "/" ++ product ++ py "/" ++ name.

(** The actions the log gained between two worlds. *)
Definition gained (before after : world) (actions : list action) : Prop :=
  log after = log before ++ actions.

(** [parts] glued again with [c] between them *)
Fixpoint join (c : ascii) (parts : list pystr) : pystr :=
  match parts with
  | [] => []
  | [a] => a
  | a :: rest => a ++ c :: join c rest
  end.

(** A path of three pieces under [rtc_products]. *)
Definition is_product_path (pth : pystr) : bool :=
  match Py.split "/"%char pth with
  | [top; _; _] => Py.eqb top rtc_path
  | _ => false
  end.

(** [rtc_products/<product>/r<name>]: where cell 51 has gdalwarp write. *)
Definition reprojected_path (product name : pystr) : pystr :=
  py "rtc_products/" ++ product ++ py "/r" ++ name.



(** Whether [pth] bears the date [d]. *)
Definition has_date (d pth : pystr) : bool :=
  match date_of pth with
  | Ok d' => Py.eqb d d'
  | Raise _ => false
  end.

(** The paths cell 44 and cell 53 collect: what the glob finds and the
    regular expression accepts. *)
Definition collected (regex : Re.rx) (pths : pystr) (w : world) : list pystr :=
  filter (Re.search regex) (filter (Glob.matches pths) (Py.keys (disk w))).

(** [f"{rtc_path}/*/*{p0}*.tif*"] *)
Definition tiff_pth_of (p0 : ascii) : pystr :=
  rtc_path ++ py "/*/*" ++ [p0] ++ py "*.tif*".

(** The string cell 61 builds for the paths [ps] of one date: every path
    with a blank before it. *)
Definition paths_string (ps : list pystr) : pystr :=
  fold_left (fun paths pth => paths ++ py " " ++ pth) ps [].

(** [rtc_products/<product>/new<name>]: where cell 63 has gdal_merge.py
    write. *)
Definition merged_path (product name : pystr) : pystr :=
  product_path product (py "new" ++ name).

(** The disk after [os.remove] of each of [ps]. *)
Definition without_files (ps : list pystr) (d : Py.dict raster) : Py.dict raster :=
  fold_left (fun d' p => Py.del d' p) ps d.


(** How many rasters bear the pair of authority [typ] and code [zone]. *)
Definition pair_count (typ zone : pystr) (utm_types utm_zones : list pystr) : nat :=
  length (filter (fun tz => Py.eqb typ (fst tz) && Py.eqb zone (snd tz))
            (combine utm_types utm_zones)).

(** Whether the log holds a gdal_merge.py command. *)
Definition is_mosaic (a : action) : bool :=
  match a with
  | Shell cmd => match words cmd with
                 | prog :: _ => Py.eqb prog (py "gdal_merge.py")
                 | [] => false
                 end
  | _ => false
  end.

(** The paths cell 44 collects for the VV channel. *)
Definition vv_paths (w : world) : list pystr :=
  collected (Re.single (py "VV")) (tiff_pth_of "V"%char) w.


(** The path of the merged raster for a first contributing path. *)
Definition merged_of (pth : pystr) : pystr :=
  match Py.split "/"%char pth with
  | [_; product; name] => merged_path product name
  | _ => pth
  end.

(** Whether two paths bear the same date. *)
Definition same_date (p q : pystr) : bool :=
  match date_of p, date_of q with
  | Ok a, Ok b => Py.eqb a b
  | _, _ => false
  end.

(** The rasters of channel [polar] that bear the date [d]. *)
Definition rasters_of (tiff_pth polar d : pystr) (w : world) : list pystr :=
  filter (has_date d) (collected (Re.polar_regex polar) tiff_pth w).

(** Whether [d] is a merge candidate: more than one collected path bears
    it. *)
Definition candidate (regex : Re.rx) (tiff_pth d : pystr) (w : world) : bool :=
  1 <? length (filter (has_date d) (collected regex tiff_pth w)).

Fixpoint distinct (xs : list pystr) : bool :=
  match xs with
  | [] => true
  | x :: xs' => negb (Py.mem x xs') && distinct xs'
  end.

(** The names of the stack are as HyP3 writes them: every path the glob
    finds has three pieces and no blank; the name with new before it is
    not taken, is found by the glob, bears the same date, belongs to the
    same channels and is accepted by the pattern of cell 38 exactly when
    the path is; the path belongs to one channel at most, and the pattern
    of cell 38 accepts it exactly when it belongs to a channel of the
    selection (so no collected path ends in [-VV.tif], which cell 38
    accepts and cell 61 does not). *)
Definition well_named (regex : Re.rx) (tiff_pth : pystr) (polar_list : list pystr)
  (w : world) : bool :=
  forallb (fun p =>
             is_product_path p && noblank p
             && negb (Py.mem (merged_of p) (Py.keys (disk w)))
             && Glob.matches tiff_pth (merged_of p)
             && same_date p (merged_of p)
             && forallb (fun polar =>
                           Bool.eqb (Re.search (Re.polar_regex polar) (merged_of p))
                                    (Re.search (Re.polar_regex polar) p))
                  polar_list
             && (length (filter (fun polar => Re.search (Re.polar_regex polar) p)
                           polar_list) <=? 1)
             && Bool.eqb (Re.search regex p)
                  (existsb (fun polar => Re.search (Re.polar_regex polar) p)
                     polar_list)
             && Bool.eqb (Re.search regex (merged_of p)) (Re.search regex p))
    (filter (Glob.matches tiff_pth) (Py.keys (disk w))).

(** The paths a task of cell 63 merges: the words of its string of
    paths. *)
Definition inputs_of (task : Py.dict pystr * pystr) : list pystr :=
  match Py.get (fst task) (snd task) with
  | Some paths => words paths
  | None => []
  end.

(** The path a task of cell 63 writes. *)
Definition output_path (task : Py.dict pystr * pystr) : pystr :=
  match inputs_of task with
  | first :: _ => merged_of first
  | [] => []
  end.

(** The tasks of cell 63, in the order of its two loops. *)
Definition tasks_of (dup_date_batches : list (Py.dict pystr))
  : list (Py.dict pystr * pystr) :=
  flat_map (fun dup_dates => map (pair dup_dates) (Py.keys dup_dates))
    dup_date_batches.

(** A task whose string of paths cell 61 built from product paths without
    blanks. *)
Definition task_built (task : Py.dict pystr * pystr) : Prop :=
  exists ps,
    Py.get (fst task) (snd task) = Some (paths_string ps)
    /\ forallb (fun p => is_product_path p && token p) ps = true.

(** No path is an input of both tasks. *)
Definition apart (t1 t2 : Py.dict pystr * pystr) : Prop :=
  forall p, In p (inputs_of t1) -> ~ In p (inputs_of t2).

(** [b'] is the dictionary [b] after cell 61 has gone through the paths
    [ps]: the same dates, each with the paths of [ps] that bear it added
    to its string. *)
Definition filled_from (b : Py.dict pystr) (ps : list pystr) (b' : Py.dict pystr)
  : Prop :=
  Py.keys b' = Py.keys b
  /\ forall d v, Py.get b d = Some v ->
                 Py.get b' d
                 = Some (v ++ concat (map (fun p => " "%char :: p)
                                        (filter (has_date d) ps))).

(** ** Vocabulary of the further properties *)

(** How often the character [c] occurs in [s]. *)
Definition occurrences (c : ascii) (s : pystr) : nat :=
  length (filter (Ascii.eqb c) s).

(** Whether [sub] occurs in [s]. *)
Fixpoint contains (sub s : pystr) : bool :=
  Py.startswith s sub
  || match s with
     | [] => false
     | _ :: s' => contains sub s'
     end.

(** The text of a coordinate system that ends in the identifier of
    authority [auth] and code [code], as [gdal.Info] reports it. *)
Definition wkt_with_id (pre auth code : pystr) : pystr :=
  pre ++ py "ID[" ++ [double_quote] ++ auth ++ [double_quote] ++ py ","
  ++ code ++ py "]]".

(** The two lines cell 65 prints. *)
Definition duplicates_line : pystr := py "Duplicate dates still present!".

Definition no_duplicates_line (polar : pystr) : pystr :=
  py "No duplicate dates are associated with " ++ polar ++ py " polarization.".

(** [tiff.split('/')[-1]] *)
Definition basename (tiff : pystr) : pystr :=
  match rev (Py.split "/"%char tiff) with
  | name :: _ => name
  | [] => []
  end.

(** The new path of [tiff], as cell 69 writes it. *)
Definition tiffs_path (tiff : pystr) : pystr :=
  analysis_directory ++ py "/tiffs/" ++ basename tiff.

(** The file this path names, as seen from the analysis directory. *)
Definition tiffs_key (tiff : pystr) : pystr := py "tiffs/" ++ basename tiff.

(** The last path of [tiff_paths] that cell 69 moves to the file [q]. *)
Definition moved_to (tiff_paths : list pystr) (q : pystr) : option pystr :=
  find (fun tiff => Py.eqb (tiffs_key tiff) q) (rev tiff_paths).

(** A path that does not begin with the piece tiffs, or is that of a file
    in the folder tiffs. *)
Definition in_order (k : pystr) : bool :=
  match Py.split "/"%char k with
  | first :: rest => negb (Py.eqb first (py "tiffs")) || (length rest =? 1)
  | [] => true
  end.

(** What the disk holds under the name tiffs are regular files of the
    folder tiffs: no regular file is named tiffs, and no folder lies in
    tiffs. *)
Definition tiffs_in_order (d : Py.dict raster) : bool :=
  forallb in_order (Py.keys d).

(** A matcher, which reads backwards, accepts exactly the texts of [L]:
    run on a reversed text [r] it leaves [y] exactly when [r] is the
    reverse of a text of [L], followed by [y]. *)
Definition denotes (p : Re.rx) (L : pystr -> Prop) : Prop :=
  forall r y, In y (p r) <-> exists m, L m /\ r = rev m ++ y.

(** The end of a file name as the patterns of the notebook want it: one
    character that is no newline, then tif or tiff, then the end of the
    text or one newline and the end. *)
Definition tif_ending (any : ascii) (ext nl : pystr) : Prop :=
  Re.dot any = true /\ (ext = py "tif" \/ ext = py "tiff")
  /\ (nl = [] \/ nl = [newline_char]).

(** One frame in each channel of the selection HH and HV, on one date. *)
Definition one_frame_hh_hv : world :=
  Demo.on_disk
    [Demo.file "rtc_products/P1/S1A_20210101T000000_HH.tif" "EPSG" "32610" 1;
     Demo.file "rtc_products/P1/S1A_20210101T000000_HV.tif" "EPSG" "32610" 2].

(** The stack [Demo.one_zone] beside a folder tiffs that holds an older
    file with the name of the first raster. *)
Definition one_zone_beside_older_tiffs : world :=
  Demo.on_disk
    [Demo.file "rtc_products/P1/S1A_20210101T000000_VV.tif" "EPSG" "32610" 1;
     Demo.file "rtc_products/P2/S1A_20210113T000000_VV.tif" "EPSG" "32610" 2;
     Demo.file "tiffs/S1A_20210101T000000_VV.tif" "EPSG" "32610" 9].

(** A raster whose coordinate system has an empty text. *)
Definition raster_without_system : world :=
  Demo.on_disk [(py "rtc_products/P1/S1A_20210101T000000_VV.tif",
                 {| wkt := []; pixels := [1] |})].

(** A round after which cell 6 asks again: the name typed is that of a
    directory with something to list, and the choice is neither 1 nor 2. *)
Definition asks_again (here : Py.dict entry) (a : answer) : bool :=
  match Py.get here (text (typed a)) with
  | Some e =>
      (0 <? length (contents_of e))
      && negb (old_data a =? 1) && negb (old_data a =? 2)
  | None => false
  end.

(** A current directory with a folder of old data and a regular file. *)
Definition folder_with_old_data : Py.dict entry :=
  [(py "flood", Dir [py "old.tif"]); (py "notes.txt", File)].

(** * Properties *)

(** Proofs by [tauto] or [intuition] take the whole context along; the
    parameters a statement does not speak of are dropped first. *)
Ltac tidy :=
  try clear analysis_directory; try clear set_of;
  try clear date_from_product_name; try clear filter_jobs;
  try clear find_jobs; try clear gdal_merge; try clear gdalwarp.

(** ** Strings and dictionaries *)

Lemma eqb_eq (a b : pystr) : Py.eqb a b = true <-> a = b.
Proof.
  revert b; induction a as [|x a IH]; intros [|y b]; simpl; split; intro H;
    try reflexivity; try discriminate.
  - apply andb_true_iff in H as [Hxy Hab].
    apply Ascii.eqb_eq in Hxy. apply IH in Hab. now subst.
  - injection H as -> ->. rewrite Ascii.eqb_refl. simpl. now apply IH.
Qed.

Lemma eqb_refl (a : pystr) : Py.eqb a a = true.
Proof. now apply eqb_eq. Qed.

Lemma eqb_neq (a b : pystr) : Py.eqb a b = false <-> a <> b.
Proof.
  split; intro H.
  - intro E. apply eqb_eq in E. congruence.
  - destruct (Py.eqb a b) eqn:E; [apply eqb_eq in E; contradiction | reflexivity].
Qed.

Lemma eqb_sym (a b : pystr) : Py.eqb a b = Py.eqb b a.
Proof.
  destruct (Py.eqb a b) eqn:E.
  - apply eqb_eq in E. subst. symmetry. apply eqb_refl.
  - symmetry. apply eqb_neq. apply eqb_neq in E. congruence.
Qed.

Lemma nat_of_ascii_inj (x y : ascii) : nat_of_ascii x = nat_of_ascii y -> x = y.
Proof.
  intro H. rewrite <- (ascii_nat_embedding x), <- (ascii_nat_embedding y).
  now rewrite H.
Qed.

Lemma ltb_irrefl (a : pystr) : Py.ltb a a = false.
Proof.
  induction a as [|x a IH]; simpl; [reflexivity|].
  now rewrite Nat.ltb_irrefl.
Qed.

Lemma ltb_trans (a b c : pystr) :
  Py.ltb a b = true -> Py.ltb b c = true -> Py.ltb a c = true.
Proof.
  revert b c; induction a as [|x a IH]; intros [|y b] [|z c]; simpl;
    try discriminate; try reflexivity.
  destruct (Nat.ltb_spec (nat_of_ascii x) (nat_of_ascii y)) as [Hxy|Hxy];
  destruct (Nat.ltb_spec (nat_of_ascii y) (nat_of_ascii x)) as [Hyx|Hyx];
  destruct (Nat.ltb_spec (nat_of_ascii y) (nat_of_ascii z)) as [Hyz|Hyz];
  destruct (Nat.ltb_spec (nat_of_ascii z) (nat_of_ascii y)) as [Hzy|Hzy];
  destruct (Nat.ltb_spec (nat_of_ascii x) (nat_of_ascii z)) as [Hxz|Hxz];
  destruct (Nat.ltb_spec (nat_of_ascii z) (nat_of_ascii x)) as [Hzx|Hzx];
    try discriminate; try reflexivity; try lia.
  apply IH.
Qed.

Lemma ltb_total (a b : pystr) :
  Py.ltb a b = false -> Py.eqb a b = false -> Py.ltb b a = true.
Proof.
  revert b; induction a as [|x a IH]; intros [|y b]; simpl;
    try discriminate; try reflexivity.
  destruct (Nat.ltb_spec (nat_of_ascii x) (nat_of_ascii y)) as [Hxy|Hxy];
  destruct (Nat.ltb_spec (nat_of_ascii y) (nat_of_ascii x)) as [Hyx|Hyx];
    try discriminate; try reflexivity; try lia.
  assert (x = y) as -> by (apply nat_of_ascii_inj; lia).
  rewrite Ascii.eqb_refl. simpl. apply IH.
Qed.

Lemma count_dates_from (date : pystr) (dates : list pystr) (n : nat) :
  fold_left (fun count d => if Py.eqb date d then count + 1 else count) dates n
  = n + Py.count date dates.
Proof.
  revert n; induction dates as [|d dates IH]; intro n; simpl; [lia|].
  rewrite IH. destruct (Py.eqb date d); lia.
Qed.

Lemma count_dates_count (date : pystr) (dates : list pystr) :
  count_dates date dates = Py.count date dates.
Proof. unfold count_dates. now rewrite count_dates_from. Qed.

Lemma count_pos_in (x : pystr) (xs : list pystr) :
  0 < Py.count x xs <-> In x xs.
Proof. tidy.
  induction xs as [|y xs IH]; simpl; [split; [lia | tauto]|].
  destruct (Py.eqb x y) eqn:E.
  - apply eqb_eq in E. subst. split; [auto | lia].
  - apply eqb_neq in E. rewrite IH. split; [auto | intros [H|H]; [congruence | exact H]].
Qed.

Lemma get_set_same {V} (d : Py.dict V) (k : pystr) (v : V) :
  Py.get (Py.set d k v) k = Some v.
Proof.
  induction d as [|[k' v'] d IH]; simpl.
  - now rewrite eqb_refl.
  - destruct (Py.eqb k k') eqn:E; simpl; rewrite E; [reflexivity | exact IH].
Qed.

Lemma get_set_other {V} (d : Py.dict V) (k k' : pystr) (v : V) :
  k <> k' -> Py.get (Py.set d k v) k' = Py.get d k'.
Proof.
  intro Hne. induction d as [|[k0 v0] d IH]; simpl.
  - assert (Py.eqb k' k = false) as -> by (apply eqb_neq; congruence). reflexivity.
  - destruct (Py.eqb k k0) eqn:E; simpl.
    + apply eqb_eq in E. subst k0.
      assert (Py.eqb k' k = false) as -> by (apply eqb_neq; congruence). reflexivity.
    + destruct (Py.eqb k' k0); [reflexivity | exact IH].
Qed.

Lemma get_del_same {V} (d : Py.dict V) (k : pystr) : Py.get (Py.del d k) k = None.
Proof.
  unfold Py.del. induction d as [|[k' v'] d IH]; simpl; [reflexivity|].
  destruct (Py.eqb k k') eqn:E; simpl; [exact IH | now rewrite E].
Qed.

Lemma get_del_other {V} (d : Py.dict V) (k k' : pystr) :
  k <> k' -> Py.get (Py.del d k) k' = Py.get d k'.
Proof.
  intro Hne. unfold Py.del. induction d as [|[k0 v0] d IH]; simpl; [reflexivity|].
  destruct (Py.eqb k k0) eqn:E; simpl.
  - apply eqb_eq in E. subst k0.
    assert (Py.eqb k' k = false) as -> by (apply eqb_neq; congruence). exact IH.
  - destruct (Py.eqb k' k0); [reflexivity | exact IH].
Qed.

Lemma del_absent {V} (d : Py.dict V) (k : pystr) :
  Py.get d k = None -> Py.del d k = d.
Proof.
  unfold Py.del. induction d as [|[k' v'] d IH]; simpl; [reflexivity|].
  destruct (Py.eqb k k') eqn:E; [discriminate|]. simpl. intro H. now rewrite IH.
Qed.

(** ** Cutting strings *)

Lemma split_by_plain (f : ascii -> bool) (a : pystr) :
  forallb (fun x => negb (f x)) a = true -> Py.split_by f a = [a].
Proof.
  induction a as [|x a IH]; simpl; [reflexivity|].
  intro H. apply andb_true_iff in H as [Hx Ha].
  apply negb_true_iff in Hx. rewrite Hx, (IH Ha). reflexivity.
Qed.

Lemma split_by_app (f : ascii -> bool) (a b : pystr) (c : ascii) :
  forallb (fun x => negb (f x)) a = true -> f c = true ->
  Py.split_by f (a ++ c :: b) = a :: Py.split_by f b.
Proof.
  intros Ha Hc. induction a as [|x a IH]; simpl.
  - now rewrite Hc.
  - simpl in Ha. apply andb_true_iff in Ha as [Hx Ha].
    apply negb_true_iff in Hx. rewrite Hx, (IH Ha). reflexivity.
Qed.

Lemma split_plain (c : ascii) (a : pystr) :
  without c a = true -> Py.split c a = [a].
Proof. apply split_by_plain. Qed.

Lemma split_app (c : ascii) (a b : pystr) :
  without c a = true -> Py.split c (a ++ c :: b) = a :: Py.split c b.
Proof. intro H. apply split_by_app; [exact H | apply Ascii.eqb_refl]. Qed.

Lemma split_by_head (f : ascii -> bool) (a b : pystr) :
  forallb (fun x => negb (f x)) a = true ->
  exists rest, Py.split_by f (a ++ b) = (a ++ hd [] (Py.split_by f b)) :: rest
               /\ rest = tl (Py.split_by f b).
Proof.
  intro Ha. induction a as [|x a IH]; simpl.
  - destruct b as [|y b]; simpl; [now exists []|].
    destruct (f y); [now eexists|].
    destruct (Py.split_by f b); now eexists.
  - simpl in Ha. apply andb_true_iff in Ha as [Hx Ha].
    apply negb_true_iff in Hx. rewrite Hx.
    destruct (IH Ha) as (rest & E & Er). rewrite E. now exists rest.
Qed.

Lemma split_by_nonempty (f : ascii -> bool) (s : pystr) : Py.split_by f s <> [].
Proof.
  destruct s as [|x s]; simpl; [discriminate|].
  destruct (f x); [discriminate|]. destruct (Py.split_by f s); discriminate.
Qed.

Lemma words_blank (c : ascii) (s : pystr) :
  blank c = true -> words (c :: s) = words s.
Proof. intro H. unfold words. simpl. now rewrite H. Qed.

Lemma token_parts (a : pystr) :
  token a = true -> a <> [] /\ forallb (fun c => negb (blank c)) a = true.
Proof.
  unfold token. intro H. apply andb_true_iff in H as [Hne Hnb].
  split; [|exact Hnb]. destruct a; [discriminate | discriminate].
Qed.

Lemma words_token (a : pystr) (c : ascii) (s : pystr) :
  token a = true -> blank c = true -> words (a ++ c :: s) = a :: words s.
Proof.
  intros Ha Hc. apply token_parts in Ha as [Hne Hnb].
  unfold words. rewrite (split_by_app blank a s c Hnb Hc).
  simpl. destruct a; [congruence | reflexivity].
Qed.

Lemma words_last (a : pystr) : token a = true -> words a = [a].
Proof.
  intro Ha. apply token_parts in Ha as [Hne Hnb].
  unfold words. rewrite (split_by_plain blank a Hnb).
  simpl. destruct a; [congruence | reflexivity].
Qed.

Lemma noblank_app (a b : pystr) : noblank (a ++ b) = noblank a && noblank b.
Proof. apply forallb_app. Qed.

Lemma token_app_l (a b : pystr) :
  token a = true -> noblank b = true -> token (a ++ b) = true.
Proof.
  unfold token. intro Ha. apply andb_true_iff in Ha as [Hne Hnb]. intro Hb.
  rewrite noblank_app, Hnb, Hb. destruct a; [discriminate | reflexivity].
Qed.

Lemma split_pieces (c : ascii) (s : pystr) :
  Forall (fun piece => without c piece = true) (Py.split c s).
Proof.
  unfold Py.split. induction s as [|x s IH]; simpl.
  - constructor; [reflexivity | constructor].
  - destruct (Ascii.eqb c x) eqn:E.
    + constructor; [reflexivity | exact IH].
    + destruct (Py.split_by (Ascii.eqb c) s) as [|w ws].
      * constructor; [simpl; now rewrite E | constructor].
      * inversion IH as [|? ? Hw Hws]; subst.
        constructor; [simpl; now rewrite E, Hw | exact Hws].
Qed.

Lemma join_split (c : ascii) (s : pystr) : join c (Py.split c s) = s.
Proof.
  unfold Py.split. induction s as [|x s IH]; simpl; [reflexivity|].
  destruct (Ascii.eqb c x) eqn:E.
  - apply Ascii.eqb_eq in E. subst x.
    destruct (Py.split_by (Ascii.eqb c) s) as [|w ws] eqn:Es.
    + now destruct (split_by_nonempty (Ascii.eqb c) s).
    + change (join c ([] :: w :: ws)) with (c :: join c (w :: ws)).
      now rewrite IH.
  - destruct (Py.split_by (Ascii.eqb c) s) as [|w ws] eqn:Es.
    + now destruct (split_by_nonempty (Ascii.eqb c) s).
    + destruct ws; simpl in *; now rewrite <- IH.
Qed.

Lemma product_path_split (product name : pystr) :
  without "/"%char product = true -> without "/"%char name = true ->
  Py.split "/"%char (product_path product name) = [rtc_path; product; name].
Proof.
  intros Hp Hn. unfold product_path.
  change (py "/" ++ product ++ py "/" ++ name)
    with ("/"%char :: product ++ "/"%char :: name).
  rewrite split_app by reflexivity.
  rewrite split_app by exact Hp.
  now rewrite split_plain.
Qed.

Lemma is_product_path_inv (pth : pystr) :
  is_product_path pth = true ->
  exists product name,
    pth = product_path product name
    /\ without "/"%char product = true /\ without "/"%char name = true.
Proof.
  unfold is_product_path. intro H.
  pose proof (join_split "/"%char pth) as Hj.
  pose proof (split_pieces "/"%char pth) as Hp.
  destruct (Py.split "/"%char pth) as [|top [|product [|name [|more rest]]]];
    try discriminate.
  apply eqb_eq in H. subst top.
  inversion Hp as [|? ? _ Hp1]; subst.
  inversion Hp1 as [|? ? Hprod Hp2]; subst.
  inversion Hp2 as [|? ? Hname _]; subst.
  exists product, name. split; [reflexivity | split; assumption].
Qed.

(** ** Cell 16 *)

(** C8: when no job that [filter_jobs] keeps is an RTC job, cell 16 raises
    a [ValueError] whose message tells the user to select a different
    project, and hands no job list to the cells that follow. *)
Theorem no_rtc_products_is_fatal (project : pystr) :
  (forall j, In j (filter_jobs (find_jobs project)) ->
             Py.startswith (job_type j) (py "RTC") = false) ->
  cell_16 project = Raise (ValueError no_products_message)
  /\ exists before after,
       no_products_message = before ++ py "Select a different project" ++ after.
Proof.
  intro Hnone. split.
  - unfold cell_16.
    assert (filter (fun job => Py.startswith (job_type job) (py "RTC"))
              (filter_jobs (find_jobs project)) = []) as ->.
    { induction (filter_jobs (find_jobs project)) as [|j js IH]; [reflexivity|].
      cbn [filter]. rewrite (Hnone j (or_introl eq_refl)). apply IH.
      intros j' Hj'. apply Hnone. now right. }
    reflexivity.
  - exists (py "There are no unexpired RTC products for this project." ++ [newline_char]),
           (py " or rerun your jobs in Vertex.").
    reflexivity.
Qed.

(** The other way round: one RTC job is enough for cell 16 to go on. *)
Lemma some_rtc_product_goes_on (project : pystr) (j : job) :
  In j (filter_jobs (find_jobs project)) ->
  Py.startswith (job_type j) (py "RTC") = true ->
  exists jobs, cell_16 project = Ok jobs /\ In j jobs.
Proof.
  intros Hin Hrtc. unfold cell_16.
  set (jobs := filter _ _).
  assert (In j jobs) as Hj by (apply filter_In; auto).
  exists jobs. split; [|exact Hj].
  destruct jobs as [|j0 jobs']; [destruct Hj | reflexivity].
Qed.

(** ** Cell 49: the predominant zone *)

Lemma insert_unique_in (x y : pystr) (l : list pystr) :
  In y (insert_unique x l) <-> y = x \/ In y l.
Proof. tidy.
  induction l as [|z l IH]; simpl.
  - split; intros [H|H]; auto.
  - destruct (Py.ltb x z); [simpl; intuition auto|].
    destruct (Py.eqb x z) eqn:E.
    + apply eqb_eq in E. subst. simpl. intuition auto.
    + simpl. rewrite IH. intuition auto.
Qed.

Lemma unique_in (x : pystr) (xs : list pystr) :
  In x (fold_right insert_unique [] xs) <-> In x xs.
Proof. tidy.
  induction xs as [|y xs IH]; simpl; [tauto|].
  rewrite insert_unique_in, IH. intuition auto.
Qed.

Lemma insert_unique_ascending (x : pystr) (l : list pystr) :
  ascending l -> ascending (insert_unique x l).
Proof.
  unfold ascending. induction 1 as [|y l Hl IH Hy]; simpl.
  - constructor; constructor.
  - destruct (Py.ltb x y) eqn:Hxy.
    + constructor; [now constructor|].
      constructor; [exact Hxy|].
      apply Forall_forall. intros z Hz.
      apply ltb_trans with y; [exact Hxy|].
      rewrite Forall_forall in Hy. now apply Hy.
    + destruct (Py.eqb x y) eqn:Exy; [now constructor|].
      constructor; [exact IH|].
      apply Forall_forall. intros z Hz.
      apply insert_unique_in in Hz as [->|Hz].
      * now apply ltb_total.
      * rewrite Forall_forall in Hy. now apply Hy.
Qed.

Lemma unique_ascending (xs : list pystr) :
  ascending (fold_right insert_unique [] xs).
Proof.
  induction xs as [|x xs IH]; simpl; [constructor|].
  now apply insert_unique_ascending.
Qed.

Lemma fold_max_spec (cs : list nat) (c : nat) :
  let m := fold_left Nat.max cs c in
  c <= m /\ (forall x, In x cs -> x <= m) /\ (m = c \/ In m cs).
Proof. tidy.
  revert c; induction cs as [|d cs IH]; intro c; simpl.
  - repeat split; [lia | tauto | now left].
  - destruct (IH (Nat.max c d)) as (H1 & H2 & H3).
    repeat split.
    + lia.
    + intros x [->|Hx]; [lia | now apply H2].
    + destruct H3 as [H3|H3]; [|right; right; exact H3].
      destruct (Nat.max_spec c d) as [[_ E]|[_ E]]; rewrite E in *.
      * right. left. now symmetry.
      * now left.
Qed.

Lemma positions_filter (f : pystr -> nat) (m : nat) (pre values : list pystr) :
  take_positions (pre ++ values)
    (map fst (filter (fun ic => snd ic =? m)
                (enumerate_from (length pre) (map f values))))
  = filter (fun u => f u =? m) values.
Proof. tidy.
  revert pre; induction values as [|u values IH]; intro pre; simpl; [reflexivity|].
  assert (Hnext : forall a,
    take_positions (pre ++ u :: values)
      (map fst (filter (fun ic => snd ic =? m)
                  (enumerate_from (S (length pre)) (map f values)))) = a
    <-> filter (fun u0 => f u0 =? m) values = a).
  { intro a. specialize (IH (pre ++ [u])).
    rewrite <- app_assoc in IH. simpl in IH.
    rewrite length_app in IH. simpl in IH. rewrite Nat.add_1_r in IH.
    rewrite IH. tauto. }
  destruct (f u =? m); simpl.
  - rewrite nth_error_app2 by lia. rewrite Nat.sub_diag. simpl.
    f_equal. now apply Hnext.
  - now apply Hnext.
Qed.

Lemma filter_ascending (f : pystr -> bool) (l : list pystr) :
  ascending l -> ascending (filter f l).
Proof.
  unfold ascending. induction 1 as [|y l Hl IH Hy]; simpl; [constructor|].
  destruct (f y); [|exact IH].
  constructor; [exact IH|].
  apply Forall_forall. intros z Hz. apply filter_In in Hz as [Hz _].
  rewrite Forall_forall in Hy. now apply Hy.
Qed.

(** What cell 49 returns in UTM mode: a zone code of maximal count, the
    least of those in string order. *)
Lemma cell_49_utm (utm_zones : list pystr) :
  utm_zones <> [] ->
  exists z,
    cell_49 UTM utm_zones = Ok z
    /\ In z utm_zones
    /\ (forall z', In z' utm_zones ->
                   Py.count z' utm_zones <= Py.count z utm_zones)
    /\ (forall z', In z' utm_zones ->
                   Py.count z' utm_zones = Py.count z utm_zones ->
                   z' = z \/ Py.ltb z z' = true).
Proof.
  intro Hne. unfold cell_49, np_unique.
  set (U := fold_right insert_unique [] utm_zones).
  set (f := fun u => Py.count u utm_zones).
  assert (HU : U <> []).
  { destruct utm_zones as [|z0 zs]; [congruence|].
    intro E. assert (In z0 U) as Hin by (apply unique_in; now left).
    rewrite E in Hin. destruct Hin. }
  destruct U as [|u0 U'] eqn:EU; [congruence|].
  cbn [map np_max rbind].
  set (m := fold_left Nat.max (map f U') (f u0)).
  destruct (fold_max_spec (map f U') (f u0)) as (Hm0 & Hmall & Hmin). fold m in Hm0, Hmall, Hmin.
  assert (Hpos : take_positions (u0 :: U') (np_where_eq (f u0 :: map f U') m)
                 = filter (fun u => f u =? m) (u0 :: U')).
  { exact (positions_filter f m [] (u0 :: U')). }
  rewrite Hpos.
  assert (Hle : forall z', In z' utm_zones -> f z' <= m).
  { intros z' Hz'. apply unique_in in Hz'. fold U in Hz'. rewrite EU in Hz'.
    destruct Hz' as [<-|Hz']; [exact Hm0|].
    apply Hmall. now apply in_map. }
  assert (Hex : exists u, In u (u0 :: U') /\ f u = m).
  { destruct Hmin as [E|Hin].
    - exists u0. split; [now left | now symmetry].
    - apply in_map_iff in Hin as (u & Eu & Hu). exists u. split; [now right | exact Eu]. }
  assert (Hasc : ascending (filter (fun u => f u =? m) (u0 :: U'))).
  { apply filter_ascending. rewrite <- EU. apply unique_ascending. }
  destruct (filter (fun u => f u =? m) (u0 :: U')) as [|z best] eqn:Ebest.
  - destruct Hex as (u & Hu & Hfu).
    assert (In u []) as [].
    { rewrite <- Ebest. apply (filter_In (fun u => f u =? m)).
      split; [exact Hu | now apply Nat.eqb_eq]. }
  - exists z.
    assert (Hz : In z (u0 :: U') /\ (f z =? m) = true).
    { apply (filter_In (fun u => f u =? m)). rewrite Ebest. now left. }
    destruct Hz as [HzU Hzm]. apply Nat.eqb_eq in Hzm.
    split; [reflexivity|]. split; [|split].
    + apply unique_in. fold U. now rewrite EU.
    + intros z' Hz'. fold (f z') (f z). rewrite Hzm. now apply Hle.
    + intros z' Hz' Hcount. fold (f z') (f z) in Hcount.
      assert (In z' (z :: best)) as [E|Hin].
      { rewrite <- Ebest. apply (filter_In (fun u => f u =? m)). split.
        - apply unique_in in Hz'. fold U in Hz'. now rewrite EU in Hz'.
        - apply Nat.eqb_eq. congruence. }
      * now left.
      * right. inversion Hasc as [|? ? _ Hall]; subst.
        rewrite Forall_forall in Hall. now apply Hall.
Qed.

(** C3, amended: in UTM mode cell 49 tallies the zone codes alone (the
    authority is no part of the key) and returns a code whose count is
    maximal; among the codes with that count it returns the one that comes
    first in [np.unique]'s ascending enumeration, that is the least. *)
Theorem predominant_utm_is_least_most_common_zone (utm_zones : list pystr) :
  utm_zones <> [] ->
  exists z,
    cell_49 UTM utm_zones = Ok z
    /\ In z utm_zones
    /\ (forall z', In z' utm_zones ->
                   Py.count z' utm_zones <= Py.count z utm_zones)
    /\ (forall z', In z' utm_zones ->
                   Py.count z' utm_zones = Py.count z utm_zones ->
                   z' = z \/ Py.ltb z z' = true).
Proof. exact (cell_49_utm utm_zones). Qed.

(** ** Cells 49-51: what is reprojected, and what happens to the files *)

Lemma is_empty_app (a b : pystr) : is_empty (a ++ b) = is_empty a && is_empty b.
Proof. now destruct a. Qed.

Ltac token_goal :=
  unfold token, product_path, reprojected_path, rtc_path;
  repeat rewrite is_empty_app; repeat rewrite noblank_app;
  repeat match goal with
         | H : noblank _ = true |- _ => rewrite H
         end;
  repeat match goal with
         | |- context [is_empty (py ?x)] => change (is_empty (py x)) with false
         | |- context [noblank (py ?x)] => change (noblank (py x)) with true
         end;
  repeat first [rewrite andb_false_r | rewrite andb_true_r
               | rewrite andb_true_l | rewrite andb_false_l];
  reflexivity.





(** One turn of the loop of cell 51, when the three lists have a [k]-th
    entry and the path has three pieces. *)
Lemma reproject_runs (tiff_paths utm_zones utm_types : list pystr)
  (predominant_utm : pystr) (k : nat) (pth typ zone top product name : pystr)
  (w : world) :
  nth_error tiff_paths k = Some pth ->
  nth_error utm_types k = Some typ ->
  nth_error utm_zones k = Some zone ->
  Py.split "/"%char (Py.strip pth) = [top; product; name] ->
  reproject tiff_paths utm_zones utm_types predominant_utm k w
  = (Ok tt,
     {| disk := run (rm_cmd pth)
                  (run (warp_cmd product name typ zone predominant_utm) (disk w));
        log := log w ++ [Shell (warp_cmd product name typ zone predominant_utm);
                         Shell (rm_cmd pth)] |}).
Proof.
  intros Hp Ht Hz Hs. unfold reproject, bind, lift, index.
  rewrite Hp, Hs, Ht, Hz. cbn [unpack3]. unfold shell, doing, did.
  cbn [disk log]. now rewrite <- app_assoc.
Qed.

Lemma enumerate_from_in {A} (xs : list A) (i k : nat) (x : A) :
  In (k, x) (enumerate_from i xs) <-> i <= k /\ nth_error xs (k - i) = Some x.
Proof. tidy.
  revert i; induction xs as [|y xs IH]; intro i; simpl.
  - split; [tauto | intros [_ H]; now destruct (k - i)].
  - rewrite IH. split.
    + intros [E|[Hle Hn]].
      * injection E as <- <-. rewrite Nat.sub_diag. split; [lia | reflexivity].
      * split; [lia|]. replace (k - i) with (S (k - S i)) by lia. exact Hn.
    + intros [Hle Hn]. destruct (k - i) as [|n] eqn:E.
      * left. injection Hn as <-. f_equal. lia.
      * right. split; [lia|]. replace (k - S i) with n by lia. exact Hn.
Qed.

(** An index is reprojected exactly when its zone is not the target. *)
Lemma reproject_indicies_spec (utm_zones : list pystr) (predominant_utm : pystr)
  (k : nat) :
  In k (reproject_indicies utm_zones predominant_utm)
  <-> exists zone, nth_error utm_zones k = Some zone /\ zone <> predominant_utm.
Proof.
  unfold reproject_indicies, enumerate. rewrite in_map_iff. split.
  - intros ([k' zone] & E & Hin). simpl in E. subst k'.
    apply filter_In in Hin as [Hin Hne]. simpl in Hne.
    apply enumerate_from_in in Hin as [_ Hn]. rewrite Nat.sub_0_r in Hn.
    exists zone. split; [exact Hn|]. apply negb_true_iff in Hne. now apply eqb_neq.
  - intros (zone & Hn & Hne). exists (k, zone). split; [reflexivity|].
    apply filter_In. split.
    + apply enumerate_from_in. rewrite Nat.sub_0_r. split; [lia | exact Hn].
    + simpl. apply negb_true_iff. now apply eqb_neq.
Qed.

Lemma nth_error_some {A} (xs : list A) (k : nat) :
  k < length xs -> exists x, nth_error xs k = Some x.
Proof.
  intro H. destruct (nth_error xs k) eqn:E; [now eexists|].
  apply nth_error_None in E. lia.
Qed.






(** ** Cells 53-59: which dates are merge candidates *)

Lemma get_tiff_paths_collected (regex : Re.rx) (pths : pystr) (w : world) :
  get_tiff_paths regex pths w = (Ok (collected regex pths w), w).
Proof. reflexivity. Qed.

Lemma get_dates_count (tiff_paths dates : list pystr) (d : pystr) :
  get_dates tiff_paths = Ok dates ->
  Py.count d dates = length (filter (has_date d) tiff_paths).
Proof.
  unfold get_dates. revert dates.
  induction tiff_paths as [|p ps IH]; intros dates H; simpl in H.
  - injection H as <-. reflexivity.
  - unfold rbind in H. cbn [filter]. unfold has_date at 1.
    destruct (date_of p) as [d'|e]; [|discriminate].
    destruct (rmap date_of ps) as [ds|e]; [|discriminate].
    injection H as <-. simpl. rewrite (IH ds eq_refl).
    destruct (Py.eqb d d'); reflexivity.
Qed.

Lemma candidates_get (unique_dates dates : list pystr) (start : Py.dict pystr)
  (d : pystr) :
  Py.has (fold_left (fun batch date =>
                       if 1 <? count_dates date dates then Py.set batch date []
                       else batch) unique_dates start) d = true
  <-> Py.has start d = true \/ (In d unique_dates /\ 1 < Py.count d dates).
Proof. tidy.
  revert start; induction unique_dates as [|u us IH]; intro start; simpl.
  - tauto.
  - rewrite IH. rewrite count_dates_count.
    destruct (Nat.ltb_spec 1 (Py.count u dates)) as [Hu|Hu].
    + unfold Py.has. destruct (Py.eqb u d) eqn:E.
      * apply eqb_eq in E. subst u. rewrite get_set_same. intuition auto.
      * apply eqb_neq in E. rewrite get_set_other by exact E.
        intuition (try congruence).
    + intuition (subst; try lia).
Qed.

(** Cell 59 on the dates cell 55 reads: the dictionary of the candidates,
    once, or twice in dual-channel mode. *)
Lemma cell_59_candidates (dates : list pystr) (dbl_polar : bool) :
  (forall xs x, In x (set_of xs) <-> In x xs) ->
  exists batch,
    cell_59 (set_of dates) dates dbl_polar
    = (if dbl_polar then [batch; batch] else [batch])
    /\ forall d, Py.has batch d = true <-> 1 < Py.count d dates.
Proof.
  intro Hset. eexists. split; [reflexivity|].
  intro d. rewrite candidates_get. unfold Py.has at 1. simpl.
  rewrite Hset. split.
  - intros [H|[_ H]]; [discriminate | exact H].
  - intro H. right. split; [|exact H]. apply count_pos_in. lia.
Qed.

Lemma search_true (p : Re.rx) (s : pystr) :
  Re.search p s = true <-> exists y, In y (p (rev s)).
Proof.
  unfold Re.search. destruct (p (rev s)) as [|y ys].
  - split; [discriminate | intros (y & [])].
  - split; [exists y; now left | reflexivity].
Qed.

Lemma lit_two (a b : ascii) (r y : pystr) :
  In y (Re.lit [a; b] r) <-> exists t, In t (Re.lit [b] r) /\ In y (Re.lit [a] t).
Proof.
  unfold Re.lit. simpl.
  destruct r as [|c r]; [split; [intros [] | intros (t & [] & _)]|].
  destruct (Ascii.eqb b c).
  - split.
    + intro H. exists r. split; [now left | exact H].
    + intros (t & [<-|[]] & H). exact H.
  - split; [intros [] | intros (t & [] & _)].
Qed.

(** The pattern of dual-channel mode accepts a path exactly when the
    single-channel pattern of one of the channels [p0v], [p0V], [p0h],
    [p0H] accepts it. *)
Lemma double_is_either_channel (p0 : ascii) (s : pystr) :
  Re.search (Re.double p0) s
  = existsb (fun x => Re.search (Re.single [p0; x]) s) (py "vVhH").
Proof. tidy.
  apply eq_true_iff_eq. rewrite existsb_exists, search_true.
  unfold Re.double, Re.single, Re.cat, Re.alt.
  set (tail := flat_map (Re.chr Re.dot) _).
  split.
  - intros (y & Hy).
    apply in_flat_map in Hy as (y1 & Hy1 & Hy).
    apply in_flat_map in Hy1 as (y2 & Hy2 & Hy1).
    apply in_flat_map in Hy2 as (y3 & Hy3 & Hy2).
    apply in_flat_map in Hy3 as (y4 & Hy4 & Hy3).
    apply in_flat_map in Hy4 as (t & Ht & Hy4).
    assert (Hx : exists x, In x (py "vVhH") /\ In y4 (Re.lit [x] t)).
    { repeat (apply in_app_or in Hy4 as [Hy4|Hy4]);
        [exists "v"%char | exists "V"%char | exists "h"%char | exists "H"%char];
        (split; [simpl; tauto | exact Hy4]). }
    destruct Hx as (x & Hx & Hlit). exists x. split; [exact Hx|].
    apply search_true. exists y.
    apply in_flat_map. exists y1. split; [|exact Hy].
    apply in_flat_map. exists y2. split; [|exact Hy1].
    apply in_flat_map. exists y3. split; [|exact Hy2].
    apply in_flat_map. exists t. split; [exact Ht|].
    apply lit_two. exists y4. split; assumption.
  - intros (x & Hx & Hs). apply search_true in Hs as (y & Hy). exists y.
    apply in_flat_map in Hy as (y1 & Hy1 & Hy).
    apply in_flat_map in Hy1 as (y2 & Hy2 & Hy1).
    apply in_flat_map in Hy2 as (y3 & Hy3 & Hy2).
    apply in_flat_map in Hy3 as (t & Ht & Hy3).
    apply lit_two in Hy3 as (y4 & Hy4 & Hy3).
    apply in_flat_map. exists y1. split; [|exact Hy].
    apply in_flat_map. exists y2. split; [|exact Hy1].
    apply in_flat_map. exists y3. split; [|exact Hy2].
    apply in_flat_map. exists y4. split; [|exact Hy3].
    apply in_flat_map. exists t. split; [exact Ht|].
    simpl in Hx. destruct Hx as [<-|[<-|[<-|[<-|[]]]]];
      repeat (apply in_or_app; (now left) || right); exact Hy4.
Qed.

(** Dual-channel mode: the paths of both channels are collected together,
    a date is a candidate exactly when more than one of them bears it, and
    both channels get the same dictionary of candidates. *)
Lemma dual_channel_candidates (polarization : pystr) (p0 : ascii) (rest : pystr)
  (w : world) (dates : list pystr) :
  (forall xs x, In x (set_of xs) <-> In x xs) ->
  polarization = p0 :: rest -> length polarization <> 2 ->
  let tiff_paths := collected (Re.double p0) (tiff_pth_of p0) w in
  get_dates tiff_paths = Ok dates ->
  (exists regex, cell_38 polarization = Ok (regex, true)
                 /\ forall s, Re.search regex s = Re.search (Re.double p0) s)
  /\ cell_44 polarization = Ok (tiff_pth_of p0)
  /\ (forall p, In p tiff_paths
                <-> In p (Py.keys (disk w))
                    /\ Glob.matches (tiff_pth_of p0) p = true
                    /\ existsb (fun x => Re.search (Re.single [p0; x]) p)
                         (py "vVhH") = true)
  /\ exists batch,
       cell_59 (set_of dates) dates true = [batch; batch]
       /\ forall d, Py.has batch d = true
                    <-> 1 < length (filter (has_date d) tiff_paths).
Proof. tidy.
  intros Hset Epol Hlen tiff_paths Hdates. split; [|split; [|split]].
  - exists (Re.double p0). split; [|reflexivity].
    unfold cell_38. apply Nat.eqb_neq in Hlen. rewrite Hlen. now subst.
  - subst polarization. reflexivity.
  - intro p. unfold tiff_paths, collected.
    rewrite filter_In, filter_In, double_is_either_channel. tauto.
  - destruct (cell_59_candidates dates true Hset) as (batch & E & Hb).
    exists batch. split; [exact E|]. intro d.
    rewrite Hb, (get_dates_count tiff_paths dates d Hdates). tauto.
Qed.

(** ** Cells 61-63: the merges *)

Lemma add_path_empty (i : nat) (batches : list (Py.dict pystr)) (pth : pystr) :
  Forall (fun b => b = []) batches ->
  forall batches', add_path i batches pth = Ok batches' -> batches' = batches.
Proof.
  intros Hempty batches'. unfold add_path, rbind, index.
  destruct (date_of pth) as [date|e]; [|discriminate].
  destruct (nth_error batches i) as [batch|] eqn:E; [|discriminate].
  rewrite Forall_forall in Hempty.
  rewrite (Hempty batch (nth_error_In _ _ E)). simpl. congruence.
Qed.

Lemma rfold_add_path_empty (i : nat) (ps : list pystr)
  (batches : list (Py.dict pystr)) :
  Forall (fun b => b = []) batches ->
  forall batches', rfold (add_path i) ps batches = Ok batches' -> batches' = batches.
Proof.
  intro Hempty. induction ps as [|p ps IH]; intros batches' H; simpl in H.
  - congruence.
  - unfold rbind in H. destruct (add_path i batches p) as [b1|e] eqn:E; [|discriminate].
    apply (add_path_empty i batches p Hempty) in E. subst b1. now apply IH.
Qed.

(** Cell 61 only reads the disk. *)
Lemma cfold_reads (tiff_pth : pystr) (ips : list (nat * pystr))
  (batches : list (Py.dict pystr)) (w : world) :
  snd (cfold (fun batches ip =>
                bind (get_tiff_paths (Re.polar_regex (snd ip)) tiff_pth)
                  (fun polar_paths =>
                     lift (rfold (add_path (fst ip)) polar_paths batches)))
         ips batches w) = w.
Proof.
  revert batches; induction ips as [|ip ips IH]; intro batches; [reflexivity|].
  cbn [cfold]. unfold bind at 1. unfold bind at 1.
  rewrite get_tiff_paths_collected. unfold lift.
  destruct (rfold _ _ batches) as [b1|e]; [apply IH | reflexivity].
Qed.

Lemma cfold_empty (tiff_pth : pystr) (ips : list (nat * pystr))
  (batches : list (Py.dict pystr)) (w : world) :
  Forall (fun b => b = []) batches ->
  forall filled,
    fst (cfold (fun batches ip =>
                  bind (get_tiff_paths (Re.polar_regex (snd ip)) tiff_pth)
                    (fun polar_paths =>
                       lift (rfold (add_path (fst ip)) polar_paths batches)))
           ips batches w) = Ok filled ->
    filled = batches.
Proof.
  intro Hempty. induction ips as [|ip ips IH]; intros filled H.
  - simpl in H. congruence.
  - cbn [cfold] in H. unfold bind at 1 in H. unfold bind at 1 in H.
    rewrite get_tiff_paths_collected in H. unfold lift in H.
    destruct (rfold _ _ batches) as [b1|e] eqn:E; [|discriminate].
    apply (rfold_add_path_empty _ _ _ Hempty) in E. subst b1. now apply IH.
Qed.

Lemma cell_61_reads (polarization : pystr) (dbl_polar : bool) (tiff_pth : pystr)
  (batches : list (Py.dict pystr)) (w : world) :
  snd (cell_61 polarization dbl_polar tiff_pth batches w) = w.
Proof.
  unfold cell_61. unfold bind at 1. unfold lift at 1.
  destruct (polar_list_of polarization dbl_polar) as [polar_list|e]; [|reflexivity].
  unfold bind at 1.
  pose proof (cfold_reads tiff_pth (enumerate polar_list) batches w) as Hw.
  destruct (cfold _ (enumerate polar_list) batches w) as [[filled|e] w'];
    simpl in Hw; subst w'; reflexivity.
Qed.

Lemma cell_61_empty (polarization : pystr) (dbl_polar : bool) (tiff_pth : pystr)
  (batches : list (Py.dict pystr)) (w : world) :
  Forall (fun b => b = []) batches ->
  forall pb, fst (cell_61 polarization dbl_polar tiff_pth batches w) = Ok pb ->
             snd pb = batches.
Proof.
  intros Hempty pb. unfold cell_61. unfold bind at 1. unfold lift at 1.
  destruct (polar_list_of polarization dbl_polar) as [polar_list|e]; [|discriminate].
  unfold bind at 1.
  pose proof (cfold_empty tiff_pth (enumerate polar_list) batches w Hempty) as Hf.
  destruct (cfold _ (enumerate polar_list) batches w) as [[filled|e] w'];
    simpl in *; [|discriminate].
  intro H. injection H as <-. simpl. now apply Hf.
Qed.

Lemma cell_63_empty (batches : list (Py.dict pystr)) (w : world) :
  Forall (fun b => b = []) batches -> cell_63 batches w = (Ok tt, w).
Proof.
  unfold cell_63. induction 1 as [|b bs Hb _ IH]; [reflexivity|].
  subst b. cbn [for_each Py.keys map]. unfold bind at 1. simpl. exact IH.
Qed.

Lemma no_candidates (unique_dates dates : list pystr) :
  (forall d, Py.count d dates <= 1) ->
  fold_left (fun (batch : Py.dict pystr) date =>
               if 1 <? count_dates date dates then Py.set batch date [] else batch)
    unique_dates [] = [].
Proof.
  intro H. induction unique_dates as [|u us IH]; [reflexivity|].
  simpl. rewrite count_dates_count.
  destruct (Nat.ltb_spec 1 (Py.count u dates)) as [Hu|_]; [|exact IH].
  specialize (H u). lia.
Qed.

(** When no date is borne by more than one of the collected paths, the
    Merger leaves the world as it is: nothing is run, nothing is written or
    deleted.  In single-channel mode these are the dates with one file. *)
Lemma merger_without_candidates_is_idle (polarization : pystr) (w : world) :
  (forall regex dbl_polar tiff_pth d,
      cell_38 polarization = Ok (regex, dbl_polar) ->
      cell_44 polarization = Ok tiff_pth ->
      length (filter (has_date d) (collected regex tiff_pth w)) <= 1) ->
  snd (merger polarization w) = w.
Proof.
  intro Hone. unfold merger. unfold bind at 1. unfold lift at 1.
  destruct (cell_38 polarization) as [[regex dbl_polar]|e] eqn:E38; [|reflexivity].
  unfold bind at 1. unfold lift at 1.
  destruct (cell_44 polarization) as [tiff_pth|e] eqn:E44; [|reflexivity].
  unfold bind at 1. rewrite get_tiff_paths_collected.
  unfold bind at 1. unfold lift at 1.
  destruct (get_dates (collected regex tiff_pth w)) as [dates|e] eqn:Ed; [|reflexivity].
  assert (Hcount : forall d, Py.count d dates <= 1).
  { intro d. rewrite (get_dates_count _ _ d Ed). now apply (Hone regex dbl_polar). }
  assert (Hempty : Forall (fun b : Py.dict pystr => b = [])
                     (cell_59 (set_of dates) dates dbl_polar)).
  { unfold cell_59. rewrite (no_candidates _ _ Hcount).
    destruct dbl_polar; repeat constructor. }
  unfold bind at 1.
  pose proof (cell_61_reads polarization dbl_polar tiff_pth
                (cell_59 (set_of dates) dates dbl_polar) w) as Hw.
  pose proof (cell_61_empty polarization dbl_polar tiff_pth
                (cell_59 (set_of dates) dates dbl_polar) w Hempty) as Hb.
  destruct (cell_61 _ _ _ _ w) as [[pb|e] w']; simpl in Hw; subst w';
    [|reflexivity].
  rewrite (Hb pb eq_refl). now rewrite cell_63_empty.
Qed.

Lemma paths_string_from (ps : list pystr) (start : pystr) :
  fold_left (fun paths pth => paths ++ py " " ++ pth) ps start
  = start ++ concat (map (fun p => " "%char :: p) ps).
Proof.
  revert start; induction ps as [|p ps IH]; intro start; simpl.
  - now rewrite app_nil_r.
  - rewrite IH. now rewrite <- app_assoc.
Qed.

Lemma paths_string_concat (ps : list pystr) :
  paths_string ps = concat (map (fun p => " "%char :: p) ps).
Proof. unfold paths_string. now rewrite paths_string_from. Qed.

Lemma noblank_without_space (s : pystr) :
  noblank s = true -> without " "%char s = true.
Proof.
  unfold noblank, without. induction s as [|c s IH]; [reflexivity|].
  cbn [forallb]. intro H. apply andb_true_iff in H as [Hc Hs].
  apply andb_true_iff. split; [|exact (IH Hs)].
  apply negb_true_iff. apply negb_true_iff in Hc.
  destruct (Ascii.eqb " "%char c) eqn:E; [|reflexivity].
  apply Ascii.eqb_eq in E. subst c. discriminate.
Qed.

Lemma token_noblank (s : pystr) : token s = true -> noblank s = true.
Proof. intro H. now apply token_parts in H. Qed.

Lemma words_paths (ps : list pystr) :
  forallb token ps = true ->
  words (concat (map (fun p => " "%char :: p) ps)) = ps.
Proof.
  induction ps as [|p ps IH]; [reflexivity|].
  intro H. cbn [forallb] in H. apply andb_true_iff in H as [Hp Hps].
  cbn [map concat]. change ((" "%char :: p) ++ concat (map (fun p0 => " "%char :: p0) ps))
    with (" "%char :: p ++ concat (map (fun p0 => " "%char :: p0) ps)).
  rewrite words_blank by reflexivity.
  destruct ps as [|p' ps'].
  - simpl. rewrite app_nil_r. now apply words_last.
  - cbn [map concat].
    change (p ++ (" "%char :: p') ++ concat (map (fun p0 => " "%char :: p0) ps'))
      with (p ++ " "%char :: p' ++ concat (map (fun p0 => " "%char :: p0) ps')).
    rewrite words_token by (exact Hp || reflexivity).
    f_equal. rewrite <- (IH Hps). cbn [map concat].
    change ((" "%char :: p') ++ concat (map (fun p0 => " "%char :: p0) ps'))
      with (" "%char :: p' ++ concat (map (fun p0 => " "%char :: p0) ps')).
    now rewrite words_blank by reflexivity.
Qed.

Lemma split_paths (ps : list pystr) :
  forallb token ps = true ->
  Py.split " "%char (concat (map (fun p => " "%char :: p) ps)) = [] :: ps.
Proof.
  induction ps as [|p ps IH]; [reflexivity|].
  intro H. cbn [forallb] in H. apply andb_true_iff in H as [Hp Hps].
  cbn [map concat].
  change ((" "%char :: p) ++ concat (map (fun p0 => " "%char :: p0) ps))
    with ([] ++ " "%char :: p ++ concat (map (fun p0 => " "%char :: p0) ps)).
  rewrite split_app by reflexivity. f_equal.
  pose proof (noblank_without_space p (token_noblank p Hp)) as Hw.
  destruct ps as [|p' ps'].
  - simpl. rewrite app_nil_r. now apply split_plain.
  - specialize (IH Hps). cbn [map concat] in IH |- *.
    change ((" "%char :: p') ++ concat (map (fun p0 => " "%char :: p0) ps'))
      with ([] ++ " "%char :: p' ++ concat (map (fun p0 => " "%char :: p0) ps')) in IH.
    rewrite split_app in IH by reflexivity. injection IH as IH.
    change (p ++ (" "%char :: p') ++ concat (map (fun p0 => " "%char :: p0) ps'))
      with (p ++ " "%char :: p' ++ concat (map (fun p0 => " "%char :: p0) ps')).
    rewrite split_app by exact Hw. now rewrite IH.
Qed.

Lemma hd_split_paths (ps : list pystr) :
  hd [] (Py.split " "%char
           (hd [] (Py.split "/"%char (concat (map (fun p => " "%char :: p) ps)))))
  = [].
Proof.
  destruct ps as [|p ps]; [reflexivity|].
  cbn [map concat].
  change ((" "%char :: p) ++ concat (map (fun p0 => " "%char :: p0) ps))
    with ([" "%char] ++ p ++ concat (map (fun p0 => " "%char :: p0) ps)).
  destruct (split_by_head (Ascii.eqb "/"%char) [" "%char]
              (p ++ concat (map (fun p0 => " "%char :: p0) ps)) eq_refl)
    as (rest & E & _).
  unfold Py.split at 2. rewrite E. cbn [hd app].
  unfold Py.split. cbn [Py.split_by]. reflexivity.
Qed.

(** The output path cell 63 computes from the string of paths of a date
    whose first path is [rtc_products/<product>/<name>]. *)
Lemma output_of_paths (product name : pystr) (rest : list pystr) :
  without "/"%char product = true -> without "/"%char name = true ->
  noblank name = true ->
  output_of (paths_string (product_path product name :: rest))
  = Ok (" "%char :: merged_path product name).
Proof.
  intros Hprod Hname Hnb. rewrite paths_string_concat. cbn [map concat].
  set (tail := concat (map (fun p => " "%char :: p) rest)).
  assert (E : (" "%char :: product_path product name) ++ tail
              = (" "%char :: rtc_path) ++ "/"%char :: product ++ "/"%char
                :: (name ++ tail)).
  { unfold product_path. cbn [py list_ascii_of_string app].
    repeat first [rewrite <- app_assoc | progress cbn [app]]. reflexivity. }
  rewrite E. unfold output_of.
  rewrite split_app by reflexivity. rewrite split_app by exact Hprod.
  destruct (split_by_head (Ascii.eqb "/"%char) name tail Hname) as (more & E2 & _).
  unfold Py.split at 1 2 3. rewrite E2. cbn [index nth_error rbind].
  destruct (split_by_head (Ascii.eqb " "%char) name
              (hd [] (Py.split_by (Ascii.eqb "/"%char) tail))
              (noblank_without_space name Hnb)) as (more2 & E3 & _).
  unfold Py.split. rewrite E3. cbn [nth_error].
  pose proof (hd_split_paths rest) as Hhd. unfold Py.split in Hhd.
  fold tail in Hhd. rewrite Hhd, app_nil_r.
  unfold merged_path, product_path. cbn [py list_ascii_of_string app].
  repeat first [rewrite <- app_assoc | progress cbn [app]]. reflexivity.
Qed.

Lemma token_merged_path (product name : pystr) :
  noblank product = true -> noblank name = true ->
  token (merged_path product name) = true.
Proof. intros Hp Hn. unfold merged_path. token_goal. Qed.

Lemma words_gdal_command (product name : pystr) (ps : list pystr) :
  noblank product = true -> noblank name = true -> forallb token ps = true ->
  words (gdal_command (" "%char :: merged_path product name) (paths_string ps))
  = py "gdal_merge.py" :: py "-o" :: merged_path product name :: ps.
Proof.
  intros Hp Hn Hps. unfold gdal_command.
  change (py "gdal_merge.py -o " ++ (" "%char :: merged_path product name)
          ++ py " " ++ paths_string ps)
    with (py "gdal_merge.py" ++ " "%char :: py "-o" ++ " "%char :: " "%char
          :: merged_path product name ++ " "%char :: paths_string ps).
  rewrite words_token by reflexivity. rewrite words_token by reflexivity.
  rewrite words_blank by reflexivity.
  rewrite words_token by first [apply token_merged_path; assumption | reflexivity].
  now rewrite paths_string_concat, words_paths.
Qed.

Lemma run_gdal_command (product name : pystr) (ps : list pystr)
  (d : Py.dict raster) :
  noblank product = true -> noblank name = true -> forallb token ps = true ->
  run (gdal_command (" "%char :: merged_path product name) (paths_string ps)) d
  = match gdal_merge (opened d ps) with
    | Some r => Py.set d (merged_path product name) r
    | None => d
    end.
Proof.
  intros Hp Hn Hps. unfold run. rewrite words_gdal_command by assumption.
  reflexivity.
Qed.

Lemma get_without_files (ps : list pystr) (d : Py.dict raster) (q : pystr) :
  (In q ps -> Py.get (without_files ps d) q = None)
  /\ (~ In q ps -> Py.get (without_files ps d) q = Py.get d q).
Proof. tidy.
  unfold without_files. revert d; induction ps as [|p ps IH]; intro d; simpl.
  - split; [intros [] | reflexivity].
  - destruct (IH (Py.del d p)) as [IH1 IH2]. split.
    + intros [->|Hq]; [|now apply IH1].
      destruct (in_dec (list_eq_dec ascii_dec) q ps) as [Hin|Hout];
        [now apply IH1|].
      rewrite IH2 by exact Hout. apply get_del_same.
    + intro Hq. rewrite IH2 by tauto. apply get_del_other. tauto.
Qed.

Lemma remove_if_exists_runs (p : pystr) (w : world) :
  p <> [] ->
  remove_if_exists p w
  = match Py.get (disk w) p with
    | Some _ => (Ok tt, {| disk := Py.del (disk w) p;
                           log := log w ++ [OsRemove p] |})
    | None => (Ok tt, w)
    end.
Proof.
  intro Hne. destruct p as [|c p']; [congruence|].
  unfold remove_if_exists. cbn [is_empty].
  unfold bind, path_exists, reading, Py.has.
  destruct (Py.get (disk w) (c :: p')); reflexivity.
Qed.

(** The deletion loop of cell 63 over the paths [ps]: each path that is on
    the disk is removed, the others are passed over. *)
Lemma removal_loop (ps : list pystr) (w : world) :
  forallb token ps = true ->
  exists removed,
    for_each ps remove_if_exists w
    = (Ok tt, {| disk := without_files ps (disk w);
                 log := log w ++ map OsRemove removed |})
    /\ forall q, In q removed <-> In q ps /\ Py.get (disk w) q <> None.
Proof. tidy.
  revert w; induction ps as [|p ps IH]; intros w Hps.
  - exists []. split; [|simpl; tauto].
    simpl. unfold ret. rewrite app_nil_r. now destruct w.
  - cbn [forallb] in Hps. apply andb_true_iff in Hps as [Hp Hps].
    apply token_parts in Hp as [Hne _].
    cbn [for_each]. unfold bind at 1.
    rewrite (remove_if_exists_runs p w Hne).
    destruct (Py.get (disk w) p) as [r|] eqn:Eget.
    + destruct (IH {| disk := Py.del (disk w) p;
                      log := log w ++ [OsRemove p] |} Hps)
        as (removed & Hrun & Hrem).
      exists (p :: removed). split.
      * rewrite Hrun. cbn [disk log without_files fold_left map].
        now rewrite <- app_assoc.
      * intro q. cbn [disk] in Hrem. simpl. rewrite Hrem.
        destruct (list_eq_dec ascii_dec p q) as [E|E].
        -- subst q. rewrite Eget. intuition congruence.
        -- rewrite get_del_other by exact E. intuition congruence.
    + destruct (IH w Hps) as (removed & Hrun & Hrem).
      exists removed. split.
      * rewrite Hrun. cbn [without_files fold_left].
        now rewrite (del_absent (disk w) _ Eget).
      * intro q. rewrite Hrem. simpl. intuition (subst; congruence).
Qed.

(** One turn of the loops of cell 63, for a date whose string of paths was
    built from [ps]. *)
Lemma merge_date_runs (dup_dates : Py.dict pystr) (dup_date : pystr)
  (product name : pystr) (rest : list pystr) (w : world) :
  let ps := product_path product name :: rest in
  let cmd := gdal_command (" "%char :: merged_path product name) (paths_string ps) in
  Py.get dup_dates dup_date = Some (paths_string ps) ->
  without "/"%char product = true -> without "/"%char name = true ->
  forallb token ps = true ->
  exists removed,
    merge_date dup_dates dup_date w
    = (Ok tt, {| disk := without_files ps (run cmd (disk w));
                 log := log w ++ Shell cmd :: map OsRemove removed |})
    /\ forall q, In q removed <-> In q ps /\ Py.get (run cmd (disk w)) q <> None.
Proof.
  intros ps cmd Hget Hprod Hname Hps.
  assert (Hnb : noblank name = true).
  { cbn [forallb] in Hps. apply andb_true_iff in Hps as [Hp _].
    apply token_noblank in Hp. unfold product_path in Hp.
    repeat rewrite noblank_app in Hp.
    repeat (apply andb_true_iff in Hp as [? Hp]). exact Hp. }
  unfold merge_date. unfold bind at 1. unfold lift at 1, lookup. rewrite Hget.
  unfold bind at 1. unfold lift at 1.
  unfold ps at 1. rewrite output_of_paths by assumption.
  unfold bind at 1. unfold shell, doing, did. fold ps. fold cmd.
  rewrite paths_string_concat, split_paths by exact Hps.
  cbn [for_each]. unfold bind at 1. unfold remove_if_exists at 1.
  cbn [is_empty]. unfold ret at 1.
  destruct (removal_loop ps {| disk := run cmd (disk w);
                               log := log w ++ [Shell cmd] |} Hps)
    as (removed & Hrun & Hrem).
  exists removed. split; [|exact Hrem].
  rewrite Hrun. cbn [disk log]. now rewrite <- app_assoc.
Qed.


(** ** The name of the merged raster and the patterns *)














Lemma fnmatch_star_longer (pat name : pystr) (c : ascii) :
  Glob.fnmatch ("*"%char :: pat) name = true ->
  Glob.fnmatch ("*"%char :: pat) (c :: name) = true.
Proof.
  cbn [Glob.fnmatch]. rewrite Ascii.eqb_refl. intro H.
  apply orb_true_iff. right. exact H.
Qed.



Lemma get_in_keys {V} (d : Py.dict V) (k : pystr) (v : V) :
  Py.get d k = Some v -> In k (Py.keys d).
Proof.
  induction d as [|[k' v'] d IH]; simpl; [discriminate|].
  destruct (Py.eqb k k') eqn:E; [|auto].
  apply eqb_eq in E. subst. now left.
Qed.


(** ** The whole run of the merger *)

Lemma mem_in (x : pystr) (xs : list pystr) : Py.mem x xs = true <-> In x xs.
Proof.
  unfold Py.mem. rewrite existsb_exists. split.
  - intros (y & Hy & E). apply eqb_eq in E. now subst.
  - intro H. exists x. split; [exact H | apply eqb_refl].
Qed.

Lemma distinct_nodup (xs : list pystr) : distinct xs = true <-> NoDup xs.
Proof.
  induction xs as [|x xs IH]; simpl.
  - split; [constructor | reflexivity].
  - rewrite andb_true_iff, negb_true_iff, IH. split.
    + intros [Hx Hxs]. constructor; [|exact Hxs].
      intro Hin. apply mem_in in Hin. congruence.
    + intro H. inversion H as [|? ? Hx Hxs]; subst. split; [|exact Hxs].
      destruct (Py.mem x xs) eqn:E; [|reflexivity].
      apply mem_in in E. contradiction.
Qed.

Lemma in_keys_get {V} (d : Py.dict V) (k : pystr) :
  In k (Py.keys d) <-> Py.get d k <> None.
Proof.
  induction d as [|[k' v'] d IH]; simpl.
  - split; [intros [] | congruence].
  - destruct (Py.eqb k k') eqn:E.
    + apply eqb_eq in E. subst. split; [discriminate | now left].
    + apply eqb_neq in E. rewrite <- IH. split.
      * intros [H|H]; [congruence | exact H].
      * intro H. now right.
Qed.

Lemma keys_set_present {V} (d : Py.dict V) (k : pystr) (v : V) :
  In k (Py.keys d) -> Py.keys (Py.set d k v) = Py.keys d.
Proof.
  induction d as [|[k' v'] d IH]; simpl; [intros []|].
  destruct (Py.eqb k k') eqn:E; simpl; [reflexivity|].
  apply eqb_neq in E. intros [H|H]; [congruence|]. now rewrite IH.
Qed.

Lemma keys_set_absent {V} (d : Py.dict V) (k : pystr) (v : V) :
  ~ In k (Py.keys d) -> Py.keys (Py.set d k v) = Py.keys d ++ [k].
Proof.
  induction d as [|[k' v'] d IH]; simpl; [reflexivity|].
  destruct (Py.eqb k k') eqn:E; simpl.
  - apply eqb_eq in E. subst. intro H. exfalso. apply H. now left.
  - intro H. rewrite IH; [reflexivity|]. intro Hin. apply H. now right.
Qed.

Lemma nodup_keys_set {V} (d : Py.dict V) (k : pystr) (v : V) :
  NoDup (Py.keys d) -> NoDup (Py.keys (Py.set d k v)).
Proof.
  intro H. destruct (in_dec (list_eq_dec ascii_dec) k (Py.keys d)) as [Hin|Hout].
  - now rewrite keys_set_present.
  - rewrite keys_set_absent by exact Hout.
    apply NoDup_app; [exact H | repeat constructor; intros [] |].
    intros x Hx [<-|[]]. contradiction.
Qed.

Lemma keys_del {V} (d : Py.dict V) (k : pystr) :
  Py.keys (Py.del d k) = filter (fun k' => negb (Py.eqb k k')) (Py.keys d).
Proof.
  unfold Py.del, Py.keys. induction d as [|[k' v'] d IH]; simpl; [reflexivity|].
  destruct (Py.eqb k k'); simpl; now rewrite IH.
Qed.

Lemma nodup_keys_del {V} (d : Py.dict V) (k : pystr) :
  NoDup (Py.keys d) -> NoDup (Py.keys (Py.del d k)).
Proof. intro H. rewrite keys_del. now apply NoDup_filter. Qed.

Lemma nodup_keys_without (ps : list pystr) (d : Py.dict raster) :
  NoDup (Py.keys d) -> NoDup (Py.keys (without_files ps d)).
Proof.
  unfold without_files. revert d; induction ps as [|p ps IH]; intros d H; simpl.
  - exact H.
  - apply IH. now apply nodup_keys_del.
Qed.

(** Two loops, one inside the other, run as one loop over the pairs. *)
Lemma for_each_nested {A B} (xs : list A) (inner : A -> list B)
  (body : A -> B -> cell unit) (w : world) :
  for_each xs (fun x => for_each (inner x) (body x)) w
  = for_each (flat_map (fun x => map (pair x) (inner x)) xs)
      (fun xy => body (fst xy) (snd xy)) w.
Proof.
  revert w; induction xs as [|x xs IH]; intro w; [reflexivity|].
  cbn [for_each flat_map]. unfold bind at 1.
  assert (Happ : forall (ys : list B) (rest : list (A * B)) w0,
             for_each (map (pair x) ys ++ rest)
               (fun xy => body (fst xy) (snd xy)) w0
             = match for_each ys (body x) w0 with
               | (Ok _, w1) => for_each rest (fun xy => body (fst xy) (snd xy)) w1
               | (Raise e, w1) => (Raise e, w1)
               end).
  { induction ys as [|y ys IHy]; intros rest w0.
    - simpl. unfold ret. reflexivity.
    - cbn [map app for_each fst snd]. unfold bind.
      destruct (body x y w0) as [[u|e] w1]; [apply IHy | reflexivity]. }
  rewrite Happ. destruct (for_each (inner x) (body x) w) as [[u|e] w1];
    [apply IH | reflexivity].
Qed.

Lemma cell_63_tasks (dup_date_batches : list (Py.dict pystr)) (w : world) :
  cell_63 dup_date_batches w
  = for_each (tasks_of dup_date_batches)
      (fun task => merge_date (fst task) (snd task)) w.
Proof. unfold cell_63, tasks_of. apply for_each_nested. Qed.

Lemma merged_of_product_path (product name : pystr) :
  without "/"%char product = true -> without "/"%char name = true ->
  merged_of (product_path product name) = merged_path product name.
Proof.
  intros Hp Hn. unfold merged_of. now rewrite product_path_split.
Qed.

Lemma cut_at_first (c : ascii) (a a' x x' : pystr) :
  without c a = true -> without c a' = true ->
  a ++ c :: x = a' ++ c :: x' -> a = a' /\ x = x'.
Proof.
  intros Ha Ha' E. apply (f_equal (Py.split c)) in E.
  rewrite split_app in E by exact Ha. rewrite split_app in E by exact Ha'.
  injection E as E1 E2. split; [exact E1|].
  rewrite <- (join_split c x), <- (join_split c x'). now rewrite E2.
Qed.

Lemma merged_of_inj (p q : pystr) :
  is_product_path p = true -> is_product_path q = true ->
  merged_of p = merged_of q -> p = q.
Proof.
  intros Hp Hq E.
  destruct (is_product_path_inv p Hp) as (a & b & -> & Ha & Hb).
  destruct (is_product_path_inv q Hq) as (a' & b' & -> & Ha' & Hb').
  rewrite !merged_of_product_path in E by assumption.
  unfold merged_path, product_path in E.
  apply app_inv_head in E. apply app_inv_head in E.
  change (py "/" ++ py "new" ++ b) with ("/"%char :: py "new" ++ b) in E.
  change (py "/" ++ py "new" ++ b') with ("/"%char :: py "new" ++ b') in E.
  apply cut_at_first in E as [-> E]; [|assumption|assumption].
  apply app_inv_head in E. now subst.
Qed.

Lemma built_parts (ps : list pystr) :
  forallb (fun p => is_product_path p && token p) ps = true ->
  forallb token ps = true /\ forall p, In p ps -> is_product_path p = true.
Proof.
  intro H. rewrite forallb_forall in H. split.
  - apply forallb_forall. intros p Hp. specialize (H p Hp).
    now apply andb_true_iff in H.
  - intros p Hp. specialize (H p Hp). now apply andb_true_iff in H.
Qed.

Lemma inputs_of_built (task : Py.dict pystr * pystr) (ps : list pystr) :
  Py.get (fst task) (snd task) = Some (paths_string ps) ->
  forallb token ps = true -> inputs_of task = ps.
Proof.
  intros Hget Htok. unfold inputs_of. rewrite Hget.
  now rewrite paths_string_concat, words_paths.
Qed.

Lemma merge_date_of_nothing (dup_dates : Py.dict pystr) (dup_date : pystr)
  (w : world) :
  Py.get dup_dates dup_date = Some [] ->
  merge_date dup_dates dup_date w = (Raise IndexError, w).
Proof.
  intro Hget. unfold merge_date, bind, lift, lookup. rewrite Hget. reflexivity.
Qed.

(** The loops of cell 63 over tasks that do not share an input, whose
    inputs are on the disk and whose output names are free: when the loops
    come to their end, every task has had inputs, its mosaic is on the disk
    under the output name and its inputs are gone; the other files are as
    they were. *)
Lemma merge_tasks (tasks : list (Py.dict pystr * pystr)) (w w' : world) :
  (forall rs, gdal_merge rs <> None) ->
  Forall task_built tasks ->
  (forall t p, In t tasks -> In p (inputs_of t) -> Py.get (disk w) p <> None) ->
  (forall t p, In t tasks -> In p (inputs_of t) ->
               Py.get (disk w) (merged_of p) = None) ->
  ForallOrdPairs apart tasks ->
  for_each tasks (fun task => merge_date (fst task) (snd task)) w = (Ok tt, w') ->
  (forall t, In t tasks ->
     exists first rest r,
       inputs_of t = first :: rest
       /\ gdal_merge (opened (disk w) (inputs_of t)) = Some r
       /\ Py.get (disk w') (merged_of first) = Some r
       /\ forall p, In p (inputs_of t) -> Py.get (disk w') p = None)
  /\ (forall q, (forall t, In t tasks ->
                           ~ In q (inputs_of t) /\ q <> output_path t) ->
                Py.get (disk w') q = Py.get (disk w) q)
  /\ (NoDup (Py.keys (disk w)) -> NoDup (Py.keys (disk w'))).
Proof. tidy.
  intros Hmosaic. revert w.
  induction tasks as [|t ts IH]; intros w Hbuilt Hthere Hfree Hapart Hrun.
  - simpl in Hrun. injection Hrun as <-.
    split; [intros t []|]. split; [reflexivity | tauto].
  - inversion Hbuilt as [|? ? (ps & Hget & Hps) Hbuilt']; subst.
    inversion Hapart as [|? ? Hhead Hapart']; subst.
    rewrite Forall_forall in Hhead.
    destruct (built_parts ps Hps) as [Htok Hpp].
    pose proof (inputs_of_built t ps Hget Htok) as Hin_t.
    cbn [for_each] in Hrun. unfold bind at 1 in Hrun.
    destruct ps as [|first rest].
    { rewrite (merge_date_of_nothing _ _ w Hget) in Hrun. discriminate. }
    destruct (is_product_path_inv first (Hpp first (or_introl eq_refl)))
      as (product & name & Efirst & Hprod & Hname).
    subst first.
    destruct (merge_date_runs (fst t) (snd t) product name rest w Hget Hprod Hname Htok)
      as (removed & Hstep & _).
    rewrite Hstep in Hrun.
    set (ps := product_path product name :: rest) in *.
    set (out := merged_path product name).
    assert (Hnb : noblank product = true /\ noblank name = true).
    { pose proof Htok as Htok'. unfold ps in Htok'. cbn [forallb] in Htok'.
      apply andb_true_iff in Htok' as [Hp _].
      apply token_noblank in Hp. unfold product_path in Hp.
      repeat rewrite noblank_app in Hp.
      repeat (apply andb_true_iff in Hp as [? Hp]). now split. }
    destruct Hnb as [Hnbp Hnbn].
    assert (Hps_there : forall p, In p ps -> Py.get (disk w) p <> None).
    { intros p Hp. apply (Hthere t); [now left | now rewrite Hin_t]. }
    destruct (gdal_merge (opened (disk w) ps)) as [r|] eqn:Hr;
      [|now destruct (Hmosaic (opened (disk w) ps))].
    assert (Hcmd : run (gdal_command (" "%char :: merged_path product name)
                          (paths_string ps)) (disk w)
                   = Py.set (disk w) out r).
    { rewrite run_gdal_command by assumption. now rewrite Hr. }
    rewrite Hcmd in Hrun.
    assert (Hout_free : Py.get (disk w) out = None).
    { unfold out. rewrite <- (merged_of_product_path product name Hprod Hname).
      apply (Hfree t); [now left|]. rewrite Hin_t. now left. }
    assert (Hout_ps : ~ In out ps).
    { intro Hin. now apply (Hps_there out Hin). }
    set (w1 := {| disk := without_files ps (Py.set (disk w) out r);
                  log := log w ++ Shell (gdal_command (" "%char :: merged_path product name)
                                           (paths_string ps))
                         :: map OsRemove removed |}) in *.
    assert (Hget1 : forall q, ~ In q ps -> q <> out ->
                              Py.get (disk w1) q = Py.get (disk w) q).
    { intros q Hq Hqo. unfold w1. cbn [disk].
      destruct (get_without_files ps (Py.set (disk w) out r) q) as [_ H].
      rewrite H by exact Hq. apply get_set_other. congruence. }
    assert (Hother : forall t2 p, In t2 ts -> In p (inputs_of t2) ->
                                  ~ In p ps /\ p <> out).
    { intros t2 p Ht2 Hp. split.
      - intro Hin. apply (Hhead t2 Ht2 p); [now rewrite Hin_t | exact Hp].
      - intro E. subst p. apply (Hthere t2 out); [now right | exact Hp | exact Hout_free]. }
    destruct (IH w1) as (Hdone & Hframe & Hnodup).
    + exact Hbuilt'.
    + intros t2 p Ht2 Hp. destruct (Hother t2 p Ht2 Hp) as [H1 H2].
      rewrite Hget1 by assumption. apply (Hthere t2); [now right | exact Hp].
    + intros t2 p Ht2 Hp.
      destruct (in_dec (list_eq_dec ascii_dec) (merged_of p) ps) as [Hin|Hnin].
      * unfold w1. cbn [disk]. now apply get_without_files.
      * assert (merged_of p <> out).
        { unfold out. rewrite <- (merged_of_product_path product name Hprod Hname).
          intro E. apply merged_of_inj in E.
          - destruct (Hother t2 p Ht2 Hp) as [H1 _]. apply H1. rewrite E. now left.
          - rewrite Forall_forall in Hbuilt'.
            destruct (Hbuilt' t2 Ht2) as (ps2 & Hget2 & Hps2).
            destruct (built_parts ps2 Hps2) as [Htok2 Hpp2].
            apply Hpp2. now rewrite <- (inputs_of_built t2 ps2 Hget2 Htok2).
          - apply Hpp. now left. }
        rewrite Hget1 by assumption. apply (Hfree t2); [now right | exact Hp].
    + exact Hapart'.
    + exact Hrun.
    + assert (Hout2 : forall t2, In t2 ts -> out <> output_path t2).
      { intros t2 Ht2 E.
        destruct (Hdone t2 Ht2) as (first2 & rest2 & _ & Hin2 & _).
        unfold output_path in E. rewrite Hin2 in E.
        assert (Hf2 : In first2 (inputs_of t2)) by (rewrite Hin2; now left).
        unfold out in E.
        rewrite <- (merged_of_product_path product name Hprod Hname) in E.
        apply merged_of_inj in E.
        - destruct (Hother t2 first2 Ht2 Hf2) as [H1 _]. apply H1.
          rewrite <- E. now left.
        - apply Hpp. now left.
        - rewrite Forall_forall in Hbuilt'.
          destruct (Hbuilt' t2 Ht2) as (ps2 & Hget2 & Hps2).
          destruct (built_parts ps2 Hps2) as [Htok2 Hpp2].
          apply Hpp2. now rewrite <- (inputs_of_built t2 ps2 Hget2 Htok2). }
      split; [|split].
      * intros t0 [<-|Ht0].
        -- exists (product_path product name), rest, r.
           rewrite Hin_t. split; [reflexivity|]. split; [exact Hr|]. split.
           ++ rewrite (merged_of_product_path product name Hprod Hname). fold out.
              rewrite Hframe.
              ** unfold w1. cbn [disk].
                 destruct (get_without_files ps (Py.set (disk w) out r) out) as [_ H].
                 rewrite H by exact Hout_ps. apply get_set_same.
              ** intros t2 Ht2. split; [|now apply Hout2].
                 intro Hin. apply (Hthere t2 out); [now right | exact Hin | exact Hout_free].
           ++ intros p Hp. rewrite Hframe.
              ** unfold w1. cbn [disk]. now apply get_without_files.
              ** intros t2 Ht2. split.
                 --- intro Hin. apply (Hhead t2 Ht2 p); [now rewrite Hin_t | exact Hin].
                 --- intro E.
                     destruct (Hdone t2 Ht2) as (first2 & rest2 & _ & Hin2 & _).
                     unfold output_path in E. rewrite Hin2 in E.
                     apply (Hps_there p Hp). rewrite E.
                     apply (Hfree t2); [now right | rewrite Hin2; now left].
        -- destruct (Hdone t0 Ht0) as (first0 & rest0 & r0 & Hin0 & Hr0 & Hout0 & Hgone0).
           exists first0, rest0, r0. split; [exact Hin0|]. split.
           ++ rewrite <- Hr0. f_equal. apply map_ext_in. intros p Hp.
              destruct (Hother t0 p Ht0 Hp) as [H1 H2]. symmetry. now apply Hget1.
           ++ split; [exact Hout0 | exact Hgone0].
      * intros q Hq. rewrite Hframe by (intros t2 Ht2; apply Hq; now right).
        destruct (Hq t (or_introl eq_refl)) as [Hq1 Hq2].
        rewrite Hin_t in Hq1. unfold output_path in Hq2. rewrite Hin_t in Hq2.
        unfold ps in Hq2.
        rewrite (merged_of_product_path product name Hprod Hname) in Hq2.
        now apply Hget1.
      * intro Hnd. apply Hnodup. unfold w1. cbn [disk].
        apply nodup_keys_without. now apply nodup_keys_set.
Qed.

Lemma has_date_same (d d' p : pystr) :
  has_date d p = true -> has_date d' p = true -> d = d'.
Proof.
  unfold has_date. destruct (date_of p) as [dd|e]; [|discriminate].
  intros H1 H2. apply eqb_eq in H1, H2. congruence.
Qed.

Lemma same_date_has_date (p q d : pystr) :
  same_date p q = true -> has_date d p = has_date d q.
Proof.
  unfold same_date, has_date.
  destruct (date_of p) as [a|e]; [|discriminate].
  destruct (date_of q) as [b|e]; [|discriminate].
  intro H. apply eqb_eq in H. now subst.
Qed.

Lemma filled_from_nothing (b : Py.dict pystr) : filled_from b [] b.
Proof.
  split; [reflexivity|]. intros d v H. simpl. now rewrite app_nil_r.
Qed.

Lemma filled_from_more (b b1 b' : Py.dict pystr) (p : pystr) (ps : list pystr) :
  filled_from b [p] b1 -> filled_from b1 ps b' -> filled_from b (p :: ps) b'.
Proof.
  intros [Hk1 Hg1] [Hk2 Hg2]. split; [congruence|].
  intros d v Hv. rewrite (Hg2 d _ (Hg1 d v Hv)). f_equal.
  cbn [filter]. destruct (has_date d p); simpl.
  - rewrite app_nil_r, <- app_assoc. reflexivity.
  - now rewrite app_nil_r.
Qed.

Lemma nth_error_set_nth_same {A} (xs : list A) (i : nat) (x y : A) :
  nth_error xs i = Some y -> nth_error (set_nth xs i x) i = Some x.
Proof.
  revert i; induction xs as [|z xs IH]; intros [|i] H; simpl in *;
    try discriminate; [reflexivity | now apply IH].
Qed.

Lemma nth_error_set_nth_other {A} (xs : list A) (i j : nat) (x : A) :
  j <> i -> nth_error (set_nth xs i x) j = nth_error xs j.
Proof.
  revert i j; induction xs as [|z xs IH]; intros [|i] [|j] H; simpl;
    try reflexivity; try congruence.
  apply IH. congruence.
Qed.

Lemma length_set_nth {A} (xs : list A) (i : nat) (x : A) :
  length (set_nth xs i x) = length xs.
Proof.
  revert i; induction xs as [|z xs IH]; intros [|i]; simpl; try reflexivity.
  now rewrite IH.
Qed.

(** One turn of the inner loop of cell 61. *)
Lemma add_path_fills (i : nat) (batches batches' : list (Py.dict pystr))
  (p : pystr) :
  add_path i batches p = Ok batches' ->
  length batches' = length batches
  /\ (forall j, j <> i -> nth_error batches' j = nth_error batches j)
  /\ exists b b', nth_error batches i = Some b
                  /\ nth_error batches' i = Some b'
                  /\ filled_from b [p] b'.
Proof.
  unfold add_path, rbind, index.
  destruct (date_of p) as [date|e] eqn:Edate; [|discriminate].
  destruct (nth_error batches i) as [b|] eqn:Eb; [|discriminate].
  assert (Hdate : forall d, has_date d p = Py.eqb d date).
  { intro d. unfold has_date. now rewrite Edate. }
  destruct (Py.get b date) as [v|] eqn:Ev; intro H; injection H as <-.
  - split; [apply length_set_nth|].
    split; [intros j Hj; now apply nth_error_set_nth_other|].
    exists b. eexists. split; [reflexivity|].
    split; [now apply nth_error_set_nth_same with b|].
    split.
    + apply keys_set_present. apply in_keys_get. congruence.
    + intros d v' Hv'. cbn [filter]. rewrite Hdate.
      destruct (Py.eqb d date) eqn:E.
      * apply eqb_eq in E. subst d. rewrite get_set_same.
        assert (v' = v) by congruence. subst v'. simpl. now rewrite app_nil_r.
      * apply eqb_neq in E. rewrite get_set_other by congruence.
        simpl. now rewrite app_nil_r.
  - split; [reflexivity|]. split; [reflexivity|].
    exists b, b. split; [reflexivity|]. split; [exact Eb|].
    split; [reflexivity|].
    intros d v' Hv'. cbn [filter]. rewrite Hdate.
    destruct (Py.eqb d date) eqn:E.
    + apply eqb_eq in E. subst d. congruence.
    + simpl. now rewrite app_nil_r.
Qed.

(** The inner loop of cell 61 over the paths [ps] of channel [i]. *)
Lemma rfold_add_path_fills (i : nat) (ps : list pystr)
  (batches batches' : list (Py.dict pystr)) :
  rfold (add_path i) ps batches = Ok batches' ->
  length batches' = length batches
  /\ (forall j, j <> i -> nth_error batches' j = nth_error batches j)
  /\ forall b, nth_error batches i = Some b ->
               exists b', nth_error batches' i = Some b' /\ filled_from b ps b'.
Proof.
  revert batches; induction ps as [|p ps IH]; intros batches H; simpl in H.
  - injection H as <-. split; [reflexivity|]. split; [reflexivity|].
    intros b Hb. exists b. split; [exact Hb | apply filled_from_nothing].
  - unfold rbind in H.
    destruct (add_path i batches p) as [b1|e] eqn:E1; [|discriminate].
    destruct (add_path_fills i batches b1 p E1) as (Hl1 & Ho1 & b & b' & Hb & Hb' & Hf1).
    destruct (IH b1 H) as (Hl2 & Ho2 & Hf2).
    split; [congruence|]. split.
    + intros j Hj. rewrite Ho2 by exact Hj. now apply Ho1.
    + intros b0 Hb0. assert (b0 = b) by congruence. subst b0.
      destruct (Hf2 b' Hb') as (b2 & Hb2 & Hf).
      exists b2. split; [exact Hb2|]. now apply filled_from_more with b'.
Qed.

(** The outer loop of cell 61 over the channels. *)
Lemma cfold_fills (tiff_pth : pystr) (ips : list (nat * pystr))
  (batches filled : list (Py.dict pystr)) (w : world) :
  NoDup (map fst ips) ->
  fst (cfold (fun batches ip =>
                bind (get_tiff_paths (Re.polar_regex (snd ip)) tiff_pth)
                  (fun polar_paths =>
                     lift (rfold (add_path (fst ip)) polar_paths batches)))
         ips batches w) = Ok filled ->
  length filled = length batches
  /\ forall i polar b,
       In (i, polar) ips -> nth_error batches i = Some b ->
       exists b', nth_error filled i = Some b'
                  /\ filled_from b (collected (Re.polar_regex polar) tiff_pth w) b'.
Proof.
  revert batches; induction ips as [|[i0 polar0] ips IH]; intros batches Hnd H.
  - simpl in H. injection H as <-. split; [reflexivity | intros i polar b []].
  - cbn [cfold] in H. unfold bind at 1 in H. unfold bind at 1 in H.
    rewrite get_tiff_paths_collected in H. unfold lift in H. cbn [fst snd] in H.
    destruct (rfold (add_path i0) (collected (Re.polar_regex polar0) tiff_pth w)
                batches) as [b1|e] eqn:E1; [|discriminate].
    destruct (rfold_add_path_fills _ _ _ _ E1) as (Hl1 & Ho1 & Hf1).
    inversion Hnd as [|? ? Hi0 Hnd']; subst.
    destruct (IH b1 Hnd' H) as (Hl2 & Hf2).
    split; [congruence|].
    intros i polar b [E|Hin] Hb.
    + injection E as <- <-.
      destruct (Hf1 b Hb) as (b' & Hb' & Hfilled).
      exists b'. split; [|exact Hfilled].
      assert (Hrest : forall ips' bs fs,
                 ~ In i0 (map fst ips') ->
                 fst (cfold (fun batches ip =>
                        bind (get_tiff_paths (Re.polar_regex (snd ip)) tiff_pth)
                          (fun polar_paths =>
                             lift (rfold (add_path (fst ip)) polar_paths batches)))
                        ips' bs w) = Ok fs ->
                 nth_error fs i0 = nth_error bs i0).
      { induction ips' as [|[i1 polar1] ips' IH']; intros bs fs Hout Hfs.
        - simpl in Hfs. now injection Hfs as <-.
        - cbn [cfold] in Hfs. unfold bind at 1 in Hfs. unfold bind at 1 in Hfs.
          rewrite get_tiff_paths_collected in Hfs. unfold lift in Hfs.
          cbn [fst snd] in Hfs.
          destruct (rfold (add_path i1) (collected (Re.polar_regex polar1) tiff_pth w)
                      bs) as [bs1|e] eqn:E2; [|discriminate].
          destruct (rfold_add_path_fills _ _ _ _ E2) as (_ & Ho & _).
          rewrite (IH' bs1 fs); [|intro Hc; apply Hout; now right | exact Hfs].
          apply Ho. intro Hc. apply Hout. left. simpl. congruence. }
      rewrite (Hrest ips b1 filled Hi0 H). exact Hb'.
    + apply (Hf2 i polar b Hin). rewrite Ho1; [exact Hb|].
      intro Hc. subst i. apply Hi0. apply in_map_iff. now exists (i0, polar).
Qed.

Lemma cell_61_fills (polarization : pystr) (dbl_polar : bool) (tiff_pth : pystr)
  (b0 : Py.dict pystr) (pl : list pystr) (filled : list (Py.dict pystr))
  (w w1 : world) :
  cell_61 polarization dbl_polar tiff_pth (if dbl_polar then [b0; b0] else [b0]) w
  = (Ok (pl, filled), w1) ->
  polar_list_of polarization dbl_polar = Ok pl
  /\ w1 = w
  /\ Forall2 (fun polar b' =>
                filled_from b0 (collected (Re.polar_regex polar) tiff_pth w) b')
       pl filled.
Proof. tidy.
  intro H.
  pose proof (cell_61_reads polarization dbl_polar tiff_pth
                (if dbl_polar then [b0; b0] else [b0]) w) as Hw.
  rewrite H in Hw. simpl in Hw. subst w1.
  unfold cell_61 in H. unfold bind at 1 in H. unfold lift at 1 in H.
  destruct (polar_list_of polarization dbl_polar) as [pl0|e] eqn:Epl; [|discriminate].
  unfold bind at 1 in H.
  destruct (cfold _ (enumerate pl0) _ w) as [[filled0|e] w0] eqn:Ec; [|discriminate].
  unfold ret in H. injection H as <- <- _.
  split; [reflexivity|]. split; [reflexivity|].
  assert (Hfst : fst (cfold (fun batches ip =>
                        bind (get_tiff_paths (Re.polar_regex (snd ip)) tiff_pth)
                          (fun polar_paths =>
                             lift (rfold (add_path (fst ip)) polar_paths batches)))
                        (enumerate pl0) (if dbl_polar then [b0; b0] else [b0]) w)
                 = Ok filled0) by now rewrite Ec.
  unfold polar_list_of in Epl. destruct dbl_polar.
  - unfold rbind in Epl.
    destruct (index (Py.split " "%char polarization) 0) as [a|e]; [|discriminate].
    destruct (index (Py.split " "%char polarization) 2) as [c|e]; [|discriminate].
    injection Epl as <-.
    destruct (cfold_fills tiff_pth (enumerate [a; c]) [b0; b0] filled0 w)
      as (Hlen & Hnth); [repeat constructor; simpl; intuition discriminate | exact Hfst |].
    destruct (Hnth 0 a b0 (or_introl eq_refl) eq_refl) as (b1 & Hb1 & Hf1).
    destruct (Hnth 1 c b0 (or_intror (or_introl eq_refl)) eq_refl) as (b2 & Hb2 & Hf2).
    destruct filled0 as [|x [|y [|z more]]]; try discriminate.
    simpl in Hb1, Hb2. injection Hb1 as ->. injection Hb2 as ->.
    constructor; [exact Hf1|]. constructor; [exact Hf2 | constructor].
  - injection Epl as <-.
    destruct (cfold_fills tiff_pth (enumerate [polarization]) [b0] filled0 w)
      as (Hlen & Hnth); [repeat constructor; simpl; intuition | exact Hfst |].
    destruct (Hnth 0 polarization b0 (or_introl eq_refl) eq_refl) as (b1 & Hb1 & Hf1).
    destruct filled0 as [|x [|y more]]; try discriminate.
    simpl in Hb1. injection Hb1 as ->.
    constructor; [exact Hf1 | constructor].
Qed.

Lemma fop_app {A} (R : A -> A -> Prop) (l1 l2 : list A) :
  ForallOrdPairs R l1 -> ForallOrdPairs R l2 ->
  (forall x y, In x l1 -> In y l2 -> R x y) ->
  ForallOrdPairs R (l1 ++ l2).
Proof.
  intros H1 H2 Hx. induction H1 as [|a l Ha Hl IH]; simpl; [exact H2|].
  constructor.
  - apply Forall_app. split; [exact Ha|].
    apply Forall_forall. intros y Hy. apply Hx; [now left | exact Hy].
  - apply IH. intros x y Hx' Hy. apply Hx; [now right | exact Hy].
Qed.

Lemma fop_map_nodup {A B} (R : B -> B -> Prop) (f : A -> B) (l : list A) :
  NoDup l -> (forall x y, In x l -> In y l -> x <> y -> R (f x) (f y)) ->
  ForallOrdPairs R (map f l).
Proof.
  induction 1 as [|a l Ha Hl IH]; intro HR; simpl; [constructor|].
  constructor.
  - apply Forall_forall. intros y Hy. apply in_map_iff in Hy as (x & <- & Hx).
    apply HR; [now left | now right | congruence].
  - apply IH. intros x y Hx Hy. apply HR; now right.
Qed.

Lemma filter_two {A} (f : A -> bool) (a b : A) (l : list A) :
  f a = true -> In b l -> f b = true -> 2 <= length (filter f (a :: l)).
Proof.
  intros Ha Hb Hfb. simpl. rewrite Ha. simpl.
  assert (In b (filter f l)) as Hin by (apply filter_In; now split).
  destruct (filter f l); [destruct Hin | simpl; lia].
Qed.

Lemma filter_shorter {A} (f : A -> bool) (a : A) (l : list A) :
  length (filter f l) <= length (filter f (a :: l)).
Proof. simpl. destruct (f a); simpl; lia. Qed.

Lemma rasters_of_in (tiff_pth polar d q : pystr) (w : world) :
  In q (rasters_of tiff_pth polar d w)
  <-> In q (Py.keys (disk w)) /\ Glob.matches tiff_pth q = true
      /\ Re.search (Re.polar_regex polar) q = true /\ has_date d q = true.
Proof. tidy.
  unfold rasters_of, collected. rewrite !filter_In. tauto.
Qed.

(** What cell 63 is handed when cell 61 has filled the dictionaries of the
    candidates [b0] for the channels [pl]. *)
Lemma tasks_of_filled (tiff_pth : pystr) (b0 : Py.dict pystr) (pl : list pystr)
  (filled : list (Py.dict pystr)) (w : world) :
  (forall d v, Py.get b0 d = Some v -> v = []) ->
  Forall2 (fun polar b' =>
             filled_from b0 (collected (Re.polar_regex polar) tiff_pth w) b')
    pl filled ->
  (forall t, In t (tasks_of filled) ->
     exists polar, In polar pl /\ In (snd t) (Py.keys b0)
                   /\ Py.get (fst t) (snd t)
                      = Some (paths_string (rasters_of tiff_pth polar (snd t) w)))
  /\ (forall polar d, In polar pl -> In d (Py.keys b0) ->
        exists t, In t (tasks_of filled)
                  /\ Py.get (fst t) (snd t)
                     = Some (paths_string (rasters_of tiff_pth polar d w))).
Proof.
  intros Hempty Hf.
  assert (Hget : forall polar b' d,
             filled_from b0 (collected (Re.polar_regex polar) tiff_pth w) b' ->
             In d (Py.keys b0) ->
             Py.get b' d = Some (paths_string (rasters_of tiff_pth polar d w))).
  { intros polar b' d [Hk Hg] Hd. apply in_keys_get in Hd.
    destruct (Py.get b0 d) as [v|] eqn:Ev; [|congruence].
    rewrite (Hg d v Ev), (Hempty d v Ev). simpl.
    now rewrite paths_string_concat. }
  induction Hf as [|polar b' pl' filled' Hb' Hrest IH].
  - split; [intros t [] | intros polar d []].
  - destruct IH as [IH1 IH2]. unfold tasks_of. cbn [flat_map]. split.
    + intros t Ht. apply in_app_or in Ht as [Ht|Ht].
      * apply in_map_iff in Ht as (d & <- & Hd).
        destruct Hb' as [Hk Hg]. rewrite Hk in Hd.
        exists polar. split; [now left|]. split; [exact Hd|].
        apply Hget; [now split | exact Hd].
      * destruct (IH1 t Ht) as (polar2 & Hp2 & Hd2 & Hg2).
        exists polar2. split; [now right|]. now split.
    + intros polar2 d [<-|Hp2] Hd.
      * exists (b', d). split.
        -- apply in_or_app. left. apply in_map.
           destruct Hb' as [Hk _]. now rewrite Hk.
        -- now apply Hget.
      * destruct (IH2 polar2 d Hp2 Hd) as (t & Ht & Hg).
        exists t. split; [apply in_or_app; now right | exact Hg].
Qed.

Lemma well_named_path (regex : Re.rx) (tiff_pth : pystr) (pl : list pystr)
  (w : world) (p : pystr) :
  well_named regex tiff_pth pl w = true ->
  In p (Py.keys (disk w)) -> Glob.matches tiff_pth p = true ->
  is_product_path p = true /\ token p = true
  /\ Py.get (disk w) (merged_of p) = None
  /\ Glob.matches tiff_pth (merged_of p) = true
  /\ same_date p (merged_of p) = true
  /\ (forall polar, In polar pl ->
        Re.search (Re.polar_regex polar) (merged_of p)
        = Re.search (Re.polar_regex polar) p)
  /\ length (filter (fun polar => Re.search (Re.polar_regex polar) p) pl) <= 1
  /\ (forall polar, In polar pl -> Re.search (Re.polar_regex polar) p = true ->
                    Re.search regex p = true)
  /\ (Re.search regex p = true ->
      exists polar, In polar pl /\ Re.search (Re.polar_regex polar) p = true)
  /\ Re.search regex (merged_of p) = Re.search regex p.
Proof.
  unfold well_named. intros H Hk Hg. rewrite forallb_forall in H.
  specialize (H p). rewrite filter_In in H. specialize (H (conj Hk Hg)).
  repeat (apply andb_true_iff in H as [H ?]).
  repeat split; try assumption.
  - unfold token. destruct p as [|c p']; [discriminate|]. assumption.
  - destruct (Py.get (disk w) (merged_of p)) as [r|] eqn:E; [|reflexivity].
    apply get_in_keys in E. apply mem_in in E.
    match goal with Hm : negb (Py.mem _ _) = true |- _ => rewrite E in Hm end.
    discriminate.
  - intros polar Hp.
    match goal with
    | Hf : forallb _ pl = true |- _ =>
        rewrite forallb_forall in Hf; specialize (Hf polar Hp);
        now apply Bool.eqb_prop in Hf
    end.
  - now apply Nat.leb_le.
  - intros polar Hp Hs.
    match goal with
    | Hi : Bool.eqb (Re.search regex p) (existsb _ pl) = true |- _ =>
        apply Bool.eqb_prop in Hi; rewrite Hi
    end.
    apply existsb_exists. now exists polar.
  - intro Hs.
    match goal with
    | Hi : Bool.eqb (Re.search regex p) (existsb _ pl) = true |- _ =>
        apply Bool.eqb_prop in Hi; rewrite Hi in Hs
    end.
    now apply existsb_exists in Hs.
  - match goal with
    | Hi : Bool.eqb (Re.search regex (merged_of p)) _ = true |- _ =>
        now apply Bool.eqb_prop in Hi
    end.
Qed.

Lemma inputs_described (tiff_pth polar d : pystr) (w : world)
  (t : Py.dict pystr * pystr) :
  (forall p, In p (Py.keys (disk w)) -> Glob.matches tiff_pth p = true ->
             token p = true) ->
  Py.get (fst t) (snd t) = Some (paths_string (rasters_of tiff_pth polar d w)) ->
  inputs_of t = rasters_of tiff_pth polar d w.
Proof.
  intros Htok Hget. apply inputs_of_built; [exact Hget|].
  apply forallb_forall. intros p Hp. apply rasters_of_in in Hp as (Hk & Hg & _).
  now apply Htok.
Qed.

(** The tasks of cell 63 do not share an input: within a channel the dates
    differ, and no path belongs to two channels. *)
Lemma tasks_apart (tiff_pth : pystr) (b0 : Py.dict pystr) (pl : list pystr)
  (filled : list (Py.dict pystr)) (w : world) :
  (forall p, In p (Py.keys (disk w)) -> Glob.matches tiff_pth p = true ->
             token p = true) ->
  (forall p, In p (Py.keys (disk w)) -> Glob.matches tiff_pth p = true ->
             length (filter (fun polar => Re.search (Re.polar_regex polar) p) pl) <= 1) ->
  NoDup (Py.keys b0) ->
  (forall d v, Py.get b0 d = Some v -> v = []) ->
  Forall2 (fun polar b' =>
             filled_from b0 (collected (Re.polar_regex polar) tiff_pth w) b')
    pl filled ->
  ForallOrdPairs apart (tasks_of filled).
Proof.
  intros Htok Hone Hnd Hempty Hf.
  induction Hf as [|polar b' pl' filled' Hb' Hrest IH]; [constructor|].
  unfold tasks_of. cbn [flat_map].
  destruct (tasks_of_filled tiff_pth b0 pl' filled' w Hempty Hrest) as [Hdesc' _].
  assert (Hhere : forall d, In d (Py.keys b') ->
             inputs_of (b', d) = rasters_of tiff_pth polar d w).
  { intros d Hd. apply inputs_described; [exact Htok|]. cbn [fst snd].
    destruct Hb' as [Hk Hg]. rewrite Hk in Hd. apply in_keys_get in Hd.
    destruct (Py.get b0 d) as [v|] eqn:Ev; [|congruence].
    rewrite (Hg d v Ev), (Hempty d v Ev). simpl. now rewrite paths_string_concat. }
  apply fop_app.
  - apply fop_map_nodup.
    + destruct Hb' as [Hk _]. now rewrite Hk.
    + intros d1 d2 Hd1 Hd2 Hne p Hp1 Hp2.
      rewrite (Hhere d1 Hd1) in Hp1. rewrite (Hhere d2 Hd2) in Hp2.
      apply rasters_of_in in Hp1 as (_ & _ & _ & H1).
      apply rasters_of_in in Hp2 as (_ & _ & _ & H2).
      apply Hne. now apply has_date_same with p.
  - apply IH. intros p Hk Hg.
    etransitivity; [apply filter_shorter | now apply Hone].
  - intros t1 t2 Ht1 Ht2 p Hp1 Hp2.
    apply in_map_iff in Ht1 as (d1 & <- & Hd1).
    rewrite (Hhere d1 Hd1) in Hp1.
    destruct (Hdesc' t2 Ht2) as (polar2 & Hpl2 & _ & Hget2).
    rewrite (inputs_described tiff_pth polar2 (snd t2) w t2 Htok Hget2) in Hp2.
    apply rasters_of_in in Hp1 as (Hk & Hg & Hs1 & _).
    apply rasters_of_in in Hp2 as (_ & _ & Hs2 & _).
    pose proof (Hone p Hk Hg) as Hle.
    pose proof (filter_two (fun polar0 => Re.search (Re.polar_regex polar0) p)
                  polar polar2 pl' Hs1 Hpl2 Hs2).
    lia.
Qed.

Lemma candidates_shape (unique_dates dates : list pystr) (start : Py.dict pystr) :
  NoDup (Py.keys start) ->
  (forall d v, Py.get start d = Some v -> v = []) ->
  let batch :=
    fold_left (fun batch date =>
                 if 1 <? count_dates date dates then Py.set batch date [] else batch)
      unique_dates start in
  NoDup (Py.keys batch) /\ forall d v, Py.get batch d = Some v -> v = [].
Proof.
  revert start; induction unique_dates as [|u us IH]; intros start Hnd Hempty.
  - now split.
  - cbn [fold_left]. destruct (1 <? count_dates u dates); [|now apply IH].
    apply IH; [now apply nodup_keys_set|].
    intros d v. destruct (list_eq_dec ascii_dec u d) as [<-|Hne].
    + rewrite get_set_same. congruence.
    + rewrite get_set_other by exact Hne. apply Hempty.
Qed.

(** Cell 65 only reads the disk. *)
Lemma cell_65_reads (regex : Re.rx) (tiff_pth : pystr) (polar_list : list pystr)
  (w : world) :
  snd (cell_65 regex tiff_pth polar_list w) = w.
Proof.
  unfold cell_65. unfold bind at 1. rewrite get_tiff_paths_collected.
  unfold bind at 1.
  assert (H : snd (cmap (verdict regex tiff_pth) polar_list w) = w).
  { induction polar_list as [|polar pl IH]; [reflexivity|].
    cbn [cmap]. unfold bind at 1. unfold verdict at 1.
    unfold bind at 1. rewrite get_tiff_paths_collected.
    unfold bind at 1. unfold lift at 1.
    destruct (get_dates _) as [dates|e]; [|reflexivity].
    destruct (negb _); unfold ret at 1; unfold bind at 1;
      destruct (cmap (verdict regex tiff_pth) pl w) as [[ys|e] w0];
      simpl in *; exact IH. }
  destruct (cmap (verdict regex tiff_pth) polar_list w) as [[printed|e] w0];
    simpl in *; exact H.
Qed.

Lemma nodup_same_short {A} (l l' : list A) :
  NoDup l -> (forall q, In q l <-> In q l') -> length l' <= 1 -> l = l'.
Proof.
  intros Hnd Hsame Hshort. destruct l' as [|x [|y more]]; simpl in Hshort; [| |lia].
  - destruct l as [|a l]; [reflexivity|]. destruct (proj1 (Hsame a) (or_introl eq_refl)).
  - destruct l as [|a l].
    + destruct (proj2 (Hsame x) (or_introl eq_refl)).
    + destruct (proj1 (Hsame a) (or_introl eq_refl)) as [<-|[]].
      destruct l as [|b l]; [reflexivity|].
      destruct (proj1 (Hsame b) (or_intror (or_introl eq_refl))) as [<-|[]].
      inversion Hnd as [|? ? Hx _]; subst. exfalso. apply Hx. now left.
Qed.

Lemma filter_one_unique {A} (f : A -> bool) (l : list A) (a b : A) :
  length (filter f l) <= 1 -> In a l -> In b l -> f a = true -> f b = true -> a = b.
Proof.
  induction l as [|x l IH]; intros Hlen Ha Hb Hfa Hfb; [destruct Ha|].
  simpl in Hlen. destruct Ha as [<-|Ha], Hb as [<-|Hb].
  - reflexivity.
  - rewrite Hfa in Hlen. simpl in Hlen.
    assert (In b (filter f l)) as Hin by (apply filter_In; now split).
    destruct (filter f l); [destruct Hin | simpl in Hlen; lia].
  - rewrite Hfb in Hlen. simpl in Hlen.
    assert (In a (filter f l)) as Hin by (apply filter_In; now split).
    destruct (filter f l); [destruct Hin | simpl in Hlen; lia].
  - apply IH; try assumption. destruct (f x); simpl in Hlen; lia.
Qed.

Lemma nodup_rasters_of (tiff_pth polar d : pystr) (w : world) :
  NoDup (Py.keys (disk w)) -> NoDup (rasters_of tiff_pth polar d w).
Proof.
  intro H. unfold rasters_of, collected. now repeat apply NoDup_filter.
Qed.

(** C2, amended: when the Merger has run to its end, every mosaic it asked
    for was written and the names of the stack are as HyP3 writes them
    ([well_named]: among other things, the pattern of cell 38 accepts a
    path exactly when the path belongs to one channel of the selection
    under the pattern of cell 61), then for every channel and date that
    had a raster, exactly one raster remains: a date that is a merge
    candidate ends with the one output raster, the mosaic of its
    contributing files, and all the contributing files removed; a date
    with more than one file in a channel is a candidate; a date that is no
    candidate keeps its file as it was.  The rasters of the channels are
    all the rasters there are: before and after the Merger, the paths that
    the pattern of cell 38 collects are those of the channels of the
    selection.  The check of cell 65 reads the disk and prints its
    verdict; it changes nothing and stops nothing. *)
Theorem merger_leaves_one_raster_per_date_and_channel
  (polarization : pystr) (regex : Re.rx) (dbl_polar : bool) (tiff_pth : pystr)
  (polar_list : list pystr) (w w' : world) :
  (forall xs x, In x (set_of xs) <-> In x xs) ->
  (forall rs, gdal_merge rs <> None) ->
  cell_38 polarization = Ok (regex, dbl_polar) ->
  cell_44 polarization = Ok tiff_pth ->
  polar_list_of polarization dbl_polar = Ok polar_list ->
  distinct (Py.keys (disk w)) = true ->
  well_named regex tiff_pth polar_list w = true ->
  merger polarization w = (Ok tt, w') ->
  (forall polar d, In polar polar_list ->
     let before := rasters_of tiff_pth polar d w in
     let after := rasters_of tiff_pth polar d w' in
     (before <> [] -> length after = 1)
     /\ (1 < length before -> candidate regex tiff_pth d w = true)
     /\ (candidate regex tiff_pth d w = true ->
         exists first rest r,
           before = first :: rest
           /\ gdal_merge (opened (disk w) before) = Some r
           /\ after = [merged_of first]
           /\ Py.get (disk w') (merged_of first) = Some r
           /\ forall p, In p before -> Py.get (disk w') p = None)
     /\ (candidate regex tiff_pth d w = false ->
         after = before
         /\ forall p, In p before -> Py.get (disk w') p = Py.get (disk w) p))
  /\ (forall q,
        (In q (collected regex tiff_pth w)
         <-> exists polar, In polar polar_list
                           /\ In q (collected (Re.polar_regex polar) tiff_pth w))
        /\ (In q (collected regex tiff_pth w')
            <-> exists polar, In polar polar_list
                              /\ In q (collected (Re.polar_regex polar) tiff_pth w')))
  /\ snd (cell_65 regex tiff_pth polar_list w') = w'.
Proof. tidy.
  intros Hset Hmosaic E38 E44 Epl Hdist Hwn Hrun.
  apply distinct_nodup in Hdist.
  unfold merger in Hrun. unfold bind at 1 in Hrun. unfold lift at 1 in Hrun.
  rewrite E38 in Hrun. unfold bind at 1 in Hrun. unfold lift at 1 in Hrun.
  rewrite E44 in Hrun. unfold bind at 1 in Hrun.
  rewrite get_tiff_paths_collected in Hrun.
  unfold bind at 1 in Hrun. unfold lift at 1 in Hrun.
  destruct (get_dates (collected regex tiff_pth w)) as [dates|e] eqn:Edates;
    [|discriminate].
  destruct (cell_59_candidates dates dbl_polar Hset) as (b0 & E59 & Hcand).
  assert (Hshape : NoDup (Py.keys b0) /\ forall d0 v, Py.get b0 d0 = Some v -> v = []).
  { assert (b0 = fold_left (fun (batch : Py.dict pystr) date =>
                              if 1 <? count_dates date dates
                              then Py.set batch date [] else batch)
                   (set_of dates) []) as ->.
    { unfold cell_59 in E59. destruct dbl_polar; now injection E59. }
    apply candidates_shape; [constructor | discriminate]. }
  destruct Hshape as [Hnd0 Hempty].
  rewrite E59 in Hrun. unfold bind at 1 in Hrun.
  destruct (cell_61 polarization dbl_polar tiff_pth
              (if dbl_polar then [b0; b0] else [b0]) w)
    as [[[pl filled]|e] w1] eqn:E61; [|discriminate].
  destruct (cell_61_fills _ _ _ _ _ _ _ _ E61) as (Epl' & -> & Hfilled).
  assert (pl = polar_list) by congruence. subst pl.
  cbn [snd] in Hrun. rewrite cell_63_tasks in Hrun.
  assert (Hkeys : forall d0, In d0 (Py.keys b0) <-> candidate regex tiff_pth d0 w = true).
  { intro d0. unfold candidate. rewrite Nat.ltb_lt.
    rewrite <- (get_dates_count _ _ d0 Edates), <- Hcand.
    unfold Py.has. rewrite in_keys_get.
    destruct (Py.get b0 d0); split; congruence. }
  assert (Hstack := fun p => well_named_path regex tiff_pth polar_list w p Hwn).
  assert (Htok : forall p, In p (Py.keys (disk w)) ->
                           Glob.matches tiff_pth p = true -> token p = true).
  { intros p Hk Hg. now destruct (Hstack p Hk Hg) as (_ & H & _). }
  destruct (tasks_of_filled tiff_pth b0 polar_list filled w Hempty Hfilled)
    as [Hdesc Htask].
  assert (Hinputs : forall t, In t (tasks_of filled) ->
             exists polar0, In polar0 polar_list /\ In (snd t) (Py.keys b0)
                            /\ inputs_of t = rasters_of tiff_pth polar0 (snd t) w).
  { intros t Ht. destruct (Hdesc t Ht) as (polar0 & Hp0 & Hd0 & Hg0).
    exists polar0. split; [exact Hp0|]. split; [exact Hd0|].
    now apply inputs_described. }
  assert (Hbuilt : Forall task_built (tasks_of filled)).
  { apply Forall_forall. intros t Ht.
    destruct (Hdesc t Ht) as (polar0 & Hp0 & Hd0 & Hg0).
    exists (rasters_of tiff_pth polar0 (snd t) w). split; [exact Hg0|].
    apply forallb_forall. intros p Hp. apply rasters_of_in in Hp as (Hk & Hg & _).
    destruct (Hstack p Hk Hg) as (H1 & H2 & _). now rewrite H1, H2. }
  assert (Hthere : forall t p, In t (tasks_of filled) -> In p (inputs_of t) ->
                               Py.get (disk w) p <> None).
  { intros t p Ht Hp. destruct (Hinputs t Ht) as (polar0 & _ & _ & E).
    rewrite E in Hp. apply rasters_of_in in Hp as (Hk & _).
    now apply in_keys_get. }
  assert (Hfree : forall t p, In t (tasks_of filled) -> In p (inputs_of t) ->
                              Py.get (disk w) (merged_of p) = None).
  { intros t p Ht Hp. destruct (Hinputs t Ht) as (polar0 & _ & _ & E).
    rewrite E in Hp. apply rasters_of_in in Hp as (Hk & Hg & _).
    now destruct (Hstack p Hk Hg) as (_ & _ & H & _). }
  assert (Hapart : ForallOrdPairs apart (tasks_of filled)).
  { apply (tasks_apart tiff_pth b0 polar_list filled w Htok); try assumption.
    intros p Hk Hg. now destruct (Hstack p Hk Hg) as (_ & _ & _ & _ & _ & _ & H & _). }
  destruct (merge_tasks (tasks_of filled) w w' Hmosaic Hbuilt Hthere Hfree Hapart Hrun)
    as (Hdone & Hframe & Hnodup).
  specialize (Hnodup Hdist).
  assert (Hclass : forall q, Py.get (disk w') q <> None ->
             (exists t first rest, In t (tasks_of filled)
                                   /\ inputs_of t = first :: rest
                                   /\ q = merged_of first)
             \/ Py.get (disk w') q = Py.get (disk w) q).
  { intros q Hq.
    destruct (Exists_dec (fun t => In q (inputs_of t) \/ q = output_path t)
                (tasks_of filled)) as [Hex|Hnone].
    - intro t. destruct (in_dec (list_eq_dec ascii_dec) q (inputs_of t));
        [left; now left|].
      destruct (list_eq_dec ascii_dec q (output_path t)); [left; now right|].
      right. tauto.
    - apply Exists_exists in Hex as (t & Ht & [Hin|Hout]).
      + destruct (Hdone t Ht) as (f0 & r0 & x0 & _ & _ & _ & Hgone).
        now destruct (Hq (Hgone q Hin)).
      + destruct (Hdone t Ht) as (first & rest & _ & Hin & _).
        left. exists t, first, rest. split; [exact Ht|]. split; [exact Hin|].
        unfold output_path in Hout. now rewrite Hin in Hout.
    - right. apply Hframe. intros t Ht. split.
      + intro Hin. apply Hnone. apply Exists_exists. exists t. split; [exact Ht | now left].
      + intro Hout. apply Hnone. apply Exists_exists. exists t. split; [exact Ht | now right]. }
  split; [|split; [|apply cell_65_reads]].
  { intros polar d Hpolar before after.
    assert (Hincl : forall p, In p before ->
               In p (filter (has_date d) (collected regex tiff_pth w))).
    { intros p Hp. apply rasters_of_in in Hp as (Hk & Hg & Hs & Hd).
      apply filter_In. split; [|exact Hd]. unfold collected.
      apply filter_In. split; [apply filter_In; now split|].
      destruct (Hstack p Hk Hg) as (_ & _ & _ & _ & _ & _ & _ & H & _).
      now apply (H polar). }
    assert (Hlen : length before
                   <= length (filter (has_date d) (collected regex tiff_pth w))).
    { apply NoDup_incl_length; [now apply nodup_rasters_of | exact Hincl]. }
    assert (Hyes : candidate regex tiff_pth d w = true ->
              exists first rest r,
                before = first :: rest
                /\ gdal_merge (opened (disk w) before) = Some r
                /\ after = [merged_of first]
                /\ Py.get (disk w') (merged_of first) = Some r
                /\ forall p, In p before -> Py.get (disk w') p = None).
    { intro Hc. apply Hkeys in Hc.
      destruct (Htask polar d Hpolar Hc) as (t & Ht & Hg).
      pose proof (inputs_described tiff_pth polar d w t Htok Hg) as Hin. fold before in Hin.
      destruct (Hdone t Ht) as (first & rest & r & Hin' & Hr & Hout & Hgone).
      rewrite Hin in Hin', Hr, Hgone.
      exists first, rest, r. split; [exact Hin'|].
      split; [exact Hr|]. split; [|split; [exact Hout | exact Hgone]].
      assert (Hfirst : In first before) by (rewrite Hin'; now left).
      apply rasters_of_in in Hfirst as (Hk1 & Hg1 & Hs1 & Hd1).
      destruct (Hstack first Hk1 Hg1) as (_ & _ & _ & Hglob & Hdate & Hsame & _).
      apply nodup_same_short; [now apply nodup_rasters_of | | simpl; lia].
      intro q. split.
      - intro Hq. apply rasters_of_in in Hq as (Hkq & Hgq & Hsq & Hdq).
        left. apply in_keys_get in Hkq.
        destruct (Hclass q Hkq) as [(t2 & first2 & rest2 & Ht2 & Hin2 & ->)|Hsameq].
        + destruct (Hinputs t2 Ht2) as (polar2 & Hp2 & Hd2 & E2).
          assert (Hf2 : In first2 (rasters_of tiff_pth polar2 (snd t2) w))
            by (rewrite <- E2, Hin2; now left).
          apply rasters_of_in in Hf2 as (Hk2 & Hg2 & Hs2 & Hdate2).
          destruct (Hstack first2 Hk2 Hg2) as (_ & _ & _ & _ & Hsd2 & Hsp2 & Hone2 & _).
          rewrite <- (same_date_has_date _ _ d Hsd2) in Hdq.
          assert (d = snd t2) by (now apply has_date_same with first2). subst d.
          rewrite (Hsp2 polar Hpolar) in Hsq.
          assert (polar = polar2).
          { apply (filter_one_unique
                     (fun polar0 => Re.search (Re.polar_regex polar0) first2)
                     polar_list); assumption. }
          subst polar2. unfold before in Hin'. rewrite <- E2, Hin2 in Hin'.
          injection Hin' as E1 _. now rewrite E1.
        + exfalso. rewrite Hsameq in Hkq. apply in_keys_get in Hkq.
          assert (Hqb : In q before) by (apply rasters_of_in; now repeat split).
          apply Hgone in Hqb. rewrite Hqb in Hsameq.
          apply in_keys_get in Hkq. congruence.
      - intros [<-|[]]. apply rasters_of_in. split; [now apply get_in_keys with r|].
        split; [exact Hglob|]. split.
        + now rewrite (Hsame polar Hpolar).
        + now rewrite <- (same_date_has_date _ _ d Hdate). }
    assert (Hno : candidate regex tiff_pth d w = false ->
              after = before
              /\ forall p, In p before -> Py.get (disk w') p = Py.get (disk w) p).
    { intro Hc.
      assert (Hnot : ~ In d (Py.keys b0)) by (rewrite Hkeys; congruence).
      assert (Hkept : forall p, In p before -> Py.get (disk w') p = Py.get (disk w) p).
      { intros p Hp. apply Hframe. intros t Ht.
        destruct (Hinputs t Ht) as (polar0 & Hp0 & Hd0 & E0). split.
        - intro Hin. rewrite E0 in Hin.
          apply rasters_of_in in Hin as (_ & _ & _ & Hd').
          apply rasters_of_in in Hp as (_ & _ & _ & Hd).
          apply Hnot. now rewrite (has_date_same d (snd t) p Hd Hd').
        - intro E. destruct (Hdone t Ht) as (first & rest & _ & Hin & _).
          unfold output_path in E. rewrite Hin in E.
          apply rasters_of_in in Hp as (Hk & _). apply in_keys_get in Hk.
          apply Hk. rewrite E. apply (Hfree t); [exact Ht | rewrite Hin; now left]. }
      split; [|exact Hkept].
      apply nodup_same_short; [now apply nodup_rasters_of | |].
      - intro q. split.
        + intro Hq. apply rasters_of_in in Hq as (Hkq & Hgq & Hsq & Hdq).
          apply in_keys_get in Hkq.
          destruct (Hclass q Hkq) as [(t2 & first2 & rest2 & Ht2 & Hin2 & ->)|Hsameq].
          * exfalso. destruct (Hinputs t2 Ht2) as (polar2 & Hp2 & Hd2 & E2).
            assert (Hf2 : In first2 (rasters_of tiff_pth polar2 (snd t2) w))
              by (rewrite <- E2, Hin2; now left).
            apply rasters_of_in in Hf2 as (Hk2 & Hg2 & Hs2 & Hdate2).
            destruct (Hstack first2 Hk2 Hg2) as (_ & _ & _ & _ & Hsd2 & _).
            rewrite <- (same_date_has_date _ _ d Hsd2) in Hdq.
            apply Hnot. now rewrite (has_date_same d (snd t2) first2 Hdq Hdate2).
          * apply rasters_of_in. split; [|now repeat split].
            apply in_keys_get. now rewrite <- Hsameq.
        + intro Hq. pose proof (Hkept q Hq) as Hsameq.
          apply rasters_of_in in Hq as (Hkq & Hgq & Hsq & Hdq).
          apply rasters_of_in. split; [|now repeat split].
          apply in_keys_get. rewrite Hsameq. now apply in_keys_get.
      - unfold candidate in Hc. apply Nat.ltb_ge in Hc. lia. }
    split; [|split; [|split; [exact Hyes | exact Hno]]].
    - intro Hne. destruct (candidate regex tiff_pth d w) eqn:Hc.
      + destruct (Hyes eq_refl) as (first & rest & r & _ & _ & -> & _).
        reflexivity.
      + destruct (Hno eq_refl) as [-> _].
        unfold candidate in Hc. apply Nat.ltb_ge in Hc.
        destruct before as [|x [|y more]]; [congruence | reflexivity | simpl in Hlen; lia].
    - intro Hmany. unfold candidate. apply Nat.ltb_lt. lia. }
  { assert (Hnamed : forall q,
              (In q (Py.keys (disk w))
               \/ exists first, In first (Py.keys (disk w))
                                /\ Glob.matches tiff_pth first = true
                                /\ q = merged_of first) ->
              Glob.matches tiff_pth q = true ->
              (Re.search regex q = true
               <-> exists polar, In polar polar_list
                                 /\ Re.search (Re.polar_regex polar) q = true)).
    { intros q [Hk|(first & Hk & Hg & ->)] Hgq.
      - destruct (Hstack q Hk Hgq) as (_ & _ & _ & _ & _ & _ & _ & Hto & Hfrom & _).
        split; [exact Hfrom|]. intros (polar & Hp & Hs). now apply (Hto polar).
      - destruct (Hstack first Hk Hg)
          as (_ & _ & _ & _ & _ & Hsame & _ & Hto & Hfrom & Hnew).
        rewrite Hnew. split.
        + intro Hs. destruct (Hfrom Hs) as (polar & Hp & Hsp).
          exists polar. split; [exact Hp|]. now rewrite (Hsame polar Hp).
        + intros (polar & Hp & Hs). rewrite (Hsame polar Hp) in Hs.
          now apply (Hto polar). }
    assert (Hunion : forall v,
              (forall q, In q (Py.keys (disk v)) ->
                         In q (Py.keys (disk w))
                         \/ exists first, In first (Py.keys (disk w))
                                          /\ Glob.matches tiff_pth first = true
                                          /\ q = merged_of first) ->
              forall q,
                In q (collected regex tiff_pth v)
                <-> exists polar, In polar polar_list
                                  /\ In q (collected (Re.polar_regex polar) tiff_pth v)).
    { intros v Hv q. unfold collected. split.
      - intro Hq. apply filter_In in Hq as [Hq Hs]. apply filter_In in Hq as [Hk Hg].
        apply (Hnamed q (Hv q Hk) Hg) in Hs as (polar & Hp & Hs).
        exists polar. split; [exact Hp|].
        apply filter_In. split; [apply filter_In; now split | exact Hs].
      - intros (polar & Hp & Hq).
        apply filter_In in Hq as [Hq Hs]. apply filter_In in Hq as [Hk Hg].
        apply filter_In. split; [apply filter_In; now split|].
        apply (Hnamed q (Hv q Hk) Hg). now exists polar. }
    intro q. split; [apply Hunion; intros q0 Hq0; now left|].
    apply Hunion. clear q. intros q Hq.
    apply in_keys_get in Hq.
    destruct (Hclass q Hq) as [(t & first & rest & Ht & Hin & ->)|Hsame].
    - right. exists first. destruct (Hinputs t Ht) as (polar0 & _ & _ & E).
      assert (Hf : In first (rasters_of tiff_pth polar0 (snd t) w))
        by (rewrite <- E, Hin; now left).
      apply rasters_of_in in Hf as (Hk & Hg & _). now repeat split.
    - left. apply in_keys_get. now rewrite <- Hsame. }
Qed.

(** ** Further properties of the cells *)

(** *** Cell 42: the dates *)

Lemma split_first (c : ascii) (s : pystr) :
  exists a rest,
    Py.split c s = a :: rest /\ without c a = true
    /\ (s = a /\ rest = [] \/ exists t, s = a ++ c :: t /\ rest = Py.split c t).
Proof.
  induction s as [|x s IH].
  - exists [], []. repeat split. now left.
  - unfold Py.split in *. cbn [Py.split_by].
    destruct (Ascii.eqb c x) eqn:E.
    + apply Ascii.eqb_eq in E. subst x.
      exists [], (Py.split_by (Ascii.eqb c) s). repeat split.
      right. now exists s.
    + destruct IH as (a & rest & Hs & Ha & Hshape). rewrite Hs.
      exists (x :: a), rest. split; [reflexivity|]. split.
      * unfold without in *. cbn [forallb]. now rewrite E, Ha.
      * destruct Hshape as [[-> ->]|(t & -> & ->)]; [now left|].
        right. now exists t.
Qed.

Lemma date_of_stamp (pth stamp : pystr) :
  date_from_product_name pth = Some stamp ->
  exists date,
    date_of pth = Ok date /\ without "T"%char date = true
    /\ (stamp = date \/ exists time, stamp = date ++ "T"%char :: time).
Proof.
  intro H. unfold date_of. rewrite H.
  destruct (split_first "T"%char stamp) as (a & rest & Hs & Ha & Hshape).
  rewrite Hs. exists a. split; [reflexivity|]. split; [exact Ha|].
  destruct Hshape as [[-> _]|(t & -> & _)]; [now left|].
  right. now exists t.
Qed.

Lemma date_of_no_stamp (pth : pystr) :
  date_from_product_name pth = None -> date_of pth = Raise AttributeError.
Proof. intro H. unfold date_of. now rewrite H. Qed.

(** X1: cell 42 returns one date per path, in the order of the paths: the
    part of the path's time stamp that comes before its first [T].  It
    raises AttributeError exactly when [date_from_product_name] finds no
    time stamp in one of the paths, and it raises nothing else. *)
Theorem get_dates_gives_one_date_per_path (tiff_paths : list pystr) :
  (get_dates tiff_paths = Raise AttributeError
   <-> exists pth, In pth tiff_paths /\ date_from_product_name pth = None)
  /\ (forall e, get_dates tiff_paths = Raise e -> e = AttributeError)
  /\ (forall dates, get_dates tiff_paths = Ok dates ->
        Forall2 (fun pth date =>
                   exists stamp,
                     date_from_product_name pth = Some stamp
                     /\ without "T"%char date = true
                     /\ (stamp = date
                         \/ exists time, stamp = date ++ "T"%char :: time))
          tiff_paths dates).
Proof.
  unfold get_dates.
  induction tiff_paths as [|pth rest (IHraise & IHonly & IHok)]; cbn [rmap].
  - split; [|split].
    + split; [discriminate | intros (pth & [] & _)].
    + discriminate.
    + intros dates H. injection H as <-. constructor.
  - destruct (date_from_product_name pth) as [stamp|] eqn:Hstamp.
    + destruct (date_of_stamp pth stamp Hstamp) as (date & Hdate & Hnot & Hshape).
      rewrite Hdate. cbn [rbind].
      destruct (rmap date_of rest) as [dates|e] eqn:Hrest; cbn [rbind].
      * split; [|split].
        -- split; [discriminate|].
           intros (p & [<-|Hp] & Hnone); [congruence|].
           assert (Ok dates = Raise AttributeError) by (apply IHraise; eauto).
           discriminate.
        -- discriminate.
        -- intros ds H. injection H as <-. constructor; [eauto|].
           now apply IHok.
      * split; [|split].
        -- split.
           ++ intro H. injection H as ->.
              destruct IHraise as [(p & Hp & Hnone) _]; [reflexivity|].
              exists p. split; [now right | exact Hnone].
           ++ intros _. f_equal. now apply IHonly.
        -- intros e' H. injection H as <-. now apply IHonly.
        -- discriminate.
    + rewrite (date_of_no_stamp pth Hstamp). cbn [rbind].
      split; [|split].
      * split; [|reflexivity]. intros _. exists pth. split; [now left | exact Hstamp].
      * intros e H. now injection H as <-.
      * discriminate.
Qed.

(** *** Cells 40 and 44: what the glob finds *)

Lemma fnmatch_nil (name : pystr) : Glob.fnmatch [] name = true <-> name = [].
Proof. destruct name; simpl; split; congruence. Qed.

Lemma fnmatch_star (pat name : pystr) :
  Glob.fnmatch ("*"%char :: pat) name = true
  <-> exists a b, name = a ++ b /\ Glob.fnmatch pat b = true.
Proof.
  induction name as [|c n IH].
  - cbn [Glob.fnmatch]. rewrite Ascii.eqb_refl, orb_false_r. split.
    + intro H. now exists [], [].
    + intros (a & b & E & H). symmetry in E.
      apply app_eq_nil in E as [-> ->]. exact H.
  - split.
    + intro H. cbn [Glob.fnmatch] in H. rewrite Ascii.eqb_refl in H.
      apply orb_true_iff in H as [H|H].
      * now exists [], (c :: n).
      * assert (H' : Glob.fnmatch ("*"%char :: pat) n = true).
        { cbn [Glob.fnmatch]. rewrite Ascii.eqb_refl. exact H. }
        apply IH in H' as (a & b & -> & Hb). now exists (c :: a), b.
    + intros (a & b & E & Hb). destruct a as [|x a].
      * simpl in E. subst b. cbn [Glob.fnmatch]. rewrite Ascii.eqb_refl.
        apply orb_true_iff. now left.
      * injection E as <- ->. apply fnmatch_star_longer. apply IH. now exists a, b.
Qed.

Lemma fnmatch_char (x : ascii) (pat name : pystr) :
  x <> "*"%char ->
  (Glob.fnmatch (x :: pat) name = true
   <-> exists n, name = x :: n /\ Glob.fnmatch pat n = true).
Proof.
  intro Hx. apply Ascii.eqb_neq in Hx. cbn [Glob.fnmatch]. rewrite Hx.
  destruct name as [|c n].
  - split; [discriminate | intros (n & E & _); discriminate].
  - rewrite andb_true_iff, Ascii.eqb_eq. split.
    + intros [-> H]. now exists n.
    + intros (n' & E & H). injection E as -> ->. now split.
Qed.

Lemma fnmatch_plain (pat name : pystr) :
  without "*"%char pat = true -> (Glob.fnmatch pat name = true <-> pat = name).
Proof.
  revert name; induction pat as [|x pat IH]; intros name Hpat.
  - rewrite fnmatch_nil. split; congruence.
  - unfold without in Hpat. cbn [forallb] in Hpat.
    apply andb_true_iff in Hpat as [Hx Hpat]. apply negb_true_iff in Hx.
    rewrite Ascii.eqb_sym in Hx. apply Ascii.eqb_neq in Hx.
    rewrite fnmatch_char by congruence. split.
    + intros (n & -> & H). f_equal. now apply IH.
    + intros <-. exists pat. split; [reflexivity|]. now apply IH.
Qed.

Lemma word_is_no_mark (p0 : ascii) :
  Re.word p0 = true -> p0 <> "/"%char /\ p0 <> "*"%char /\ p0 <> "."%char.
Proof.
  intro H. repeat split; intro E; rewrite E in H; discriminate H.
Qed.

Lemma tiff_pth_pieces (p0 : ascii) :
  p0 <> "/"%char ->
  Py.split "/"%char (tiff_pth_of p0)
  = [rtc_path; py "*"; "*"%char :: p0 :: py "*.tif*"].
Proof.
  intro H. unfold tiff_pth_of.
  change (rtc_path ++ py "/*/*" ++ [p0] ++ py "*.tif*")
    with (rtc_path ++ "/"%char :: py "*" ++ "/"%char :: ("*"%char :: p0 :: py "*.tif*")).
  rewrite split_app by reflexivity. rewrite split_app by reflexivity.
  rewrite split_plain; [reflexivity|].
  unfold without. cbn [forallb].
  assert (E : Ascii.eqb "/"%char p0 = false) by (apply Ascii.eqb_neq; congruence).
  rewrite E. reflexivity.
Qed.

(** X2: the glob of cell 44, [rtc_products/*/*<p0>*.tif*] for a letter
    [p0], finds exactly the paths [rtc_products/<product>/<name>] of three
    pieces in which neither the product nor the name begins with a dot and
    the name holds [p0] and, somewhere after it, [.tif]. *)
Theorem glob_of_cell_44_finds_the_tifs_of_the_products (p0 : ascii) (p : pystr) :
  Re.word p0 = true ->
  (Glob.matches (tiff_pth_of p0) p = true
   <-> exists product a b c,
         let name := a ++ p0 :: b ++ py ".tif" ++ c in
         p = product_path product name
         /\ product <> []
         /\ without "/"%char product = true /\ without "/"%char name = true
         /\ Glob.hidden product = false /\ Glob.hidden name = false).
Proof. tidy.
  intro Hword. destruct (word_is_no_mark p0 Hword) as (Hslash & Hstar & Hdot).
  unfold Glob.matches. rewrite (tiff_pth_pieces p0 Hslash). split.
  - intro H. pose proof (join_split "/"%char p) as Hjoin.
    pose proof (split_pieces "/"%char p) as Hfree.
    destruct (Py.split "/"%char p) as [|x [|y [|z [|extra more]]]];
      cbn [Glob.pieces] in H; try discriminate H;
      try (repeat (apply andb_true_iff in H as [_ H]); discriminate H).
    apply andb_true_iff in H as [Hx H]. apply andb_true_iff in H as [Hy H].
    apply andb_true_iff in H as [Hz _].
    inversion Hfree as [|? ? Fx Hfree1]; subst.
    inversion Hfree1 as [|? ? Fy Hfree2]; subst.
    inversion Hfree2 as [|? ? Fz _]; subst.
    unfold Glob.piece in Hx, Hy, Hz.
    destruct x as [|x0 x]; [discriminate|].
    destruct y as [|y0 y]; [discriminate|].
    destruct z as [|z0 z]; [discriminate|].
    apply andb_true_iff in Hx as [Hx _].
    apply andb_true_iff in Hy as [_ Hy].
    apply andb_true_iff in Hz as [Hz Hzh].
    apply fnmatch_plain in Hx; [|reflexivity].
    rewrite orb_false_r in Hy, Hzh.
    apply negb_true_iff in Hy, Hzh.
    apply fnmatch_star in Hz as (a & t1 & Ez & Hz).
    apply fnmatch_char in Hz as (t2 & -> & Hz); [|exact Hstar].
    apply fnmatch_star in Hz as (b & t3 & -> & Hz).
    apply fnmatch_char in Hz as (t4 & -> & Hz); [|discriminate].
    apply fnmatch_char in Hz as (t5 & -> & Hz); [|discriminate].
    apply fnmatch_char in Hz as (t6 & -> & Hz); [|discriminate].
    apply fnmatch_char in Hz as (c & -> & _); [|discriminate].
    exists (y0 :: y), a, b, c. cbv zeta.
    change (b ++ py ".tif" ++ c)
      with (b ++ "."%char :: "t"%char :: "i"%char :: "f"%char :: c).
    rewrite <- Ez. split.
    + rewrite <- Hx. reflexivity.
    + repeat split; try assumption. discriminate.
  - intros (product & a & b & c & H). cbv zeta in H.
    destruct H as (-> & Hne & Hp & Hn & Hhp & Hhn).
    rewrite (product_path_split _ _ Hp Hn). cbn [Glob.pieces].
    rewrite andb_true_r. apply andb_true_iff. split; [reflexivity|].
    apply andb_true_iff. split.
    + unfold Glob.piece. destruct product as [|y0 y]; [congruence|].
      rewrite Hhp. rewrite andb_true_r.
      apply fnmatch_star. exists (y0 :: y), []. split; [now rewrite app_nil_r | reflexivity].
    + unfold Glob.piece.
      destruct (a ++ p0 :: b ++ py ".tif" ++ c) as [|z0 z] eqn:Ez.
      { destruct a; discriminate. }
      rewrite Hhn. rewrite andb_true_r. rewrite <- Ez.
      apply fnmatch_star. exists a, (p0 :: b ++ py ".tif" ++ c). split; [reflexivity|].
      apply fnmatch_char; [exact Hstar|]. eexists. split; [reflexivity|].
      apply fnmatch_star. exists b, (py ".tif" ++ c). split; [reflexivity|].
      change (py ".tif" ++ c) with ("."%char :: "t"%char :: "i"%char :: "f"%char :: c).
      apply fnmatch_char; [discriminate|]. eexists. split; [reflexivity|].
      apply fnmatch_char; [discriminate|]. eexists. split; [reflexivity|].
      apply fnmatch_char; [discriminate|]. eexists. split; [reflexivity|].
      apply fnmatch_char; [discriminate|]. eexists. split; [reflexivity|].
      apply fnmatch_star. exists c, []. split; [now rewrite app_nil_r | reflexivity].
Qed.

(** *** Cell 47: reading the zone and the authority *)

Lemma startswith_id (c : ascii) (s : pystr) :
  Py.startswith (c :: s) (py "ID")
  = Ascii.eqb "I"%char c
    && match s with
       | d :: _ => Ascii.eqb "D"%char d
       | [] => false
       end.
Proof.
  unfold py. destruct s as [|d s]; cbn [list_ascii_of_string Py.startswith];
    [reflexivity|].
  destruct (Ascii.eqb "I"%char c), (Ascii.eqb "D"%char d), s; reflexivity.
Qed.

Lemma split_str_plain (t : pystr) :
  contains (py "ID") t = false -> Py.split_str (py "ID") t = [t].
Proof.
  unfold Py.split_str. induction t as [|c t IH]; intro H; [reflexivity|].
  cbn [contains] in H. apply orb_false_iff in H as [Hhere Hlater].
  cbn [Py.split_at]. rewrite Hhere. now rewrite (IH Hlater).
Qed.

Lemma split_at_here (t : pystr) :
  Py.split_at (py "ID") 0 (py "ID" ++ t) = [] :: Py.split_at (py "ID") 0 t.
Proof. destruct t; reflexivity. Qed.

Lemma split_at_step (c : ascii) (s : pystr) :
  Py.split_at (py "ID") 0 (c :: s)
  = if Py.startswith (c :: s) (py "ID") then [] :: Py.split_at (py "ID") 1 s
    else match Py.split_at (py "ID") 0 s with
         | w :: ws => (c :: w) :: ws
         | [] => [[c]]
         end.
Proof. reflexivity. Qed.

Lemma split_str_last (n : nat) (pre t : pystr) :
  length pre <= n -> contains (py "ID") t = false ->
  exists piece pieces,
    Py.split_str (py "ID") (pre ++ py "ID" ++ t) = piece :: pieces ++ [t].
Proof.
  intros Hlen Ht. pose proof (split_str_plain t Ht) as Hplain.
  unfold Py.split_str in *. revert pre Hlen.
  induction n as [|n IH]; intros pre Hlen.
  - destruct pre; [|simpl in Hlen; lia].
    exists [], []. cbn [app]. now rewrite split_at_here, Hplain.
  - destruct pre as [|c pre].
    { exists [], []. cbn [app]. now rewrite split_at_here, Hplain. }
    simpl in Hlen. cbn [app]. rewrite split_at_step.
    destruct (Py.startswith (c :: pre ++ py "ID" ++ t) (py "ID")) eqn:Hhere.
    + rewrite startswith_id in Hhere. apply andb_true_iff in Hhere as [_ Hd].
      destruct pre as [|d pre]; [discriminate Hd|].
      simpl in Hlen. cbn [app].
      change (Py.split_at (py "ID") 1 (d :: pre ++ py "ID" ++ t))
        with (Py.split_at (py "ID") 0 (pre ++ py "ID" ++ t)).
      destruct (IH pre) as (piece & pieces & E); [lia|].
      rewrite E. now exists [], (piece :: pieces).
    + destruct (IH pre) as (piece & pieces & E); [lia|].
      rewrite E. now exists (c :: piece), pieces.
Qed.

Lemma contains_id_after (a : pystr) (x : ascii) (s : pystr) :
  contains (py "ID") a = false -> x <> "D"%char ->
  contains (py "ID") (a ++ x :: s) = contains (py "ID") (x :: s).
Proof.
  intros Ha Hx. induction a as [|c a IH]; [reflexivity|].
  cbn [contains] in Ha. apply orb_false_iff in Ha as [Hhere Hlater].
  cbn [app]. cbn [contains]. fold (contains (py "ID") (a ++ x :: s)).
  rewrite (IH Hlater).
  replace (Py.startswith (c :: a ++ x :: s) (py "ID")) with false; [reflexivity|].
  symmetry. rewrite startswith_id in *.
  destruct (Ascii.eqb "I"%char c); [|reflexivity]. cbn [andb] in *.
  destruct a as [|d a]; [|exact Hhere].
  apply Ascii.eqb_neq. congruence.
Qed.

Lemma contains_id_other (x : ascii) (s : pystr) :
  x <> "I"%char -> contains (py "ID") (x :: s) = contains (py "ID") s.
Proof.
  intro Hx. cbn [contains]. rewrite startswith_id.
  replace (Ascii.eqb "I"%char x) with false; [reflexivity|].
  symmetry. apply Ascii.eqb_neq. congruence.
Qed.

Lemma index_last_app {A} (xs : list A) (x : A) : index_last (xs ++ [x]) = Ok x.
Proof. unfold index_last. now rewrite rev_app_distr. Qed.

Lemma without_app (c : ascii) (a b : pystr) :
  without c (a ++ b) = without c a && without c b.
Proof. apply forallb_app. Qed.

(** X3: from the text of a coordinate system that ends in
    [ID[<double quote>auth<double quote>,code]]], cell 47 reads the code as
    the zone and the authority as the type, when neither of them holds the
    letters ID, a comma or, for the authority, a double quote. *)
Theorem cell_47_reads_the_last_identifier (pre auth code : pystr) :
  contains (py "ID") auth = false -> contains (py "ID") code = false ->
  without double_quote auth = true -> without ","%char auth = true ->
  without ","%char code = true ->
  zone_of_wkt (wkt_with_id pre auth code) = Ok code
  /\ type_of_wkt (wkt_with_id pre auth code) = Ok auth.
Proof.
  intros Hauth Hcode Hquote Hcomma Hcomma'.
  set (tail := "["%char :: double_quote :: auth
               ++ double_quote :: ","%char :: code ++ py "]]").
  assert (Etext : wkt_with_id pre auth code = pre ++ py "ID" ++ tail).
  { unfold wkt_with_id, tail. cbn [py list_ascii_of_string app].
    repeat rewrite <- app_assoc. reflexivity. }
  assert (Htail : contains (py "ID") tail = false).
  { unfold tail. rewrite contains_id_other by discriminate.
    rewrite contains_id_other by (unfold double_quote; discriminate).
    rewrite (contains_id_after auth) by (assumption || (unfold double_quote; discriminate)).
    rewrite contains_id_other by (unfold double_quote; discriminate).
    rewrite contains_id_other by discriminate.
    change (code ++ py "]]") with (code ++ "]"%char :: py "]").
    rewrite (contains_id_after code) by (assumption || discriminate).
    reflexivity. }
  destruct (split_str_last (length pre) pre tail (le_n _) Htail)
    as (piece & pieces & Esplit).
  unfold zone_of_wkt, type_of_wkt. rewrite Etext, Esplit.
  change (piece :: pieces ++ [tail]) with ((piece :: pieces) ++ [tail]).
  rewrite index_last_app. cbn [rbind]. split.
  - assert (Ecut : tail = ("["%char :: double_quote :: auth ++ [double_quote])
                          ++ ","%char :: code ++ py "]]").
    { unfold tail. cbn [app]. now rewrite <- app_assoc. }
    rewrite Ecut. rewrite split_app.
    + rewrite split_plain.
      * cbn [index nth_error]. unfold Py.drop_last2. cbn [rbind].
        rewrite length_app. cbn [length py list_ascii_of_string].
        replace (length code + 2 - 2) with (length code + 0) by lia.
        rewrite firstn_app_2. cbn [firstn]. now rewrite app_nil_r.
      * rewrite without_app, Hcomma'. reflexivity.
    + change ("["%char :: double_quote :: auth ++ [double_quote])
        with (["["%char; double_quote] ++ auth ++ [double_quote]).
      repeat rewrite without_app. rewrite Hcomma. reflexivity.
  - change tail with (["["%char] ++ double_quote :: auth
                      ++ double_quote :: ","%char :: code ++ py "]]").
    rewrite split_app by reflexivity.
    rewrite split_app by exact Hquote. reflexivity.
Qed.

Lemma cell_47_step (pth : pystr) (rest : list pystr) (w : world) :
  cell_47 (pth :: rest) w
  = match Py.get (disk w) pth with
    | None => (Raise KeyError, w)
    | Some r =>
        match zone_of_wkt (wkt r) with
        | Raise e => (Raise e, w)
        | Ok zone =>
            match type_of_wkt (wkt r) with
            | Raise e => (Raise e, w)
            | Ok typ =>
                match cell_47 rest w with
                | (Ok more, w') => (Ok (zone :: fst more, typ :: snd more), w')
                | (Raise e, w') => (Raise e, w')
                end
            end
        end
    end.
Proof.
  cbn [cell_47]. unfold bind, gdal_info_wkt, lift, ret.
  destruct (Py.get (disk w) pth) as [r|]; [|reflexivity].
  destruct (zone_of_wkt (wkt r)); [|reflexivity].
  destruct (type_of_wkt (wkt r)); reflexivity.
Qed.

Lemma cell_47_reads (tiff_paths : list pystr) (w : world) :
  snd (cell_47 tiff_paths w) = w.
Proof.
  induction tiff_paths as [|pth rest IH]; [reflexivity|].
  rewrite cell_47_step.
  destruct (Py.get (disk w) pth) as [r|]; [|reflexivity].
  destruct (zone_of_wkt (wkt r)); [|reflexivity].
  destruct (type_of_wkt (wkt r)); [|reflexivity].
  destruct (cell_47 rest w) as [[more|e] w']; exact IH.
Qed.

Lemma cell_47_lengths (tiff_paths : list pystr) (w : world) :
  forall utm_zones utm_types,
    fst (cell_47 tiff_paths w) = Ok (utm_zones, utm_types) ->
    length utm_zones = length tiff_paths /\ length utm_types = length tiff_paths.
Proof.
  induction tiff_paths as [|p rest IH]; intros utm_zones utm_types H.
  - cbn in H. now injection H as <- <-.
  - rewrite cell_47_step in H.
    destruct (Py.get (disk w) p) as [r|]; [|discriminate H].
    destruct (zone_of_wkt (wkt r)) as [zone|]; [|discriminate H].
    destruct (type_of_wkt (wkt r)) as [typ|]; [|discriminate H].
    destruct (cell_47 rest w) as [[[zones types]|e] w']; [|discriminate H].
    cbn [fst snd] in H. injection H as <- <-.
    destruct (IH zones types eq_refl) as [Hlz Hlt].
    cbn [length]. now rewrite Hlz, Hlt.
Qed.

(** X4: cell 47 only reads the disk, and when it comes to its end it has
    one zone and one type for every path, in the order of the paths: what
    the two expressions of the cell read from the text of the coordinate
    system of the raster at that path. *)
Theorem cell_47_gives_one_zone_and_type_per_path
  (tiff_paths : list pystr) (w : world) :
  snd (cell_47 tiff_paths w) = w
  /\ forall utm_zones utm_types,
       fst (cell_47 tiff_paths w) = Ok (utm_zones, utm_types) ->
       length utm_zones = length tiff_paths
       /\ length utm_types = length tiff_paths
       /\ forall k pth,
            nth_error tiff_paths k = Some pth ->
            exists r zone typ,
              Py.get (disk w) pth = Some r
              /\ nth_error utm_zones k = Some zone
              /\ zone_of_wkt (wkt r) = Ok zone
              /\ nth_error utm_types k = Some typ
              /\ type_of_wkt (wkt r) = Ok typ.
Proof.
  split; [apply cell_47_reads|].
  induction tiff_paths as [|p rest IH]; intros utm_zones utm_types H.
  - cbn in H. injection H as <- <-. repeat split.
    intros [|k] pth Hk; discriminate Hk.
  - rewrite cell_47_step in H.
    destruct (Py.get (disk w) p) as [r|] eqn:Hr; [|discriminate H].
    destruct (zone_of_wkt (wkt r)) as [zone|] eqn:Hzone; [|discriminate H].
    destruct (type_of_wkt (wkt r)) as [typ|] eqn:Htyp; [|discriminate H].
    destruct (cell_47 rest w) as [[[zones types]|e] w'] eqn:Hrest;
      [|discriminate H].
    cbn [fst snd] in H. injection H as <- <-.
    destruct (IH zones types eq_refl) as (Hlz & Hlt & Hall).
    cbn [length]. split; [now rewrite Hlz|]. split; [now rewrite Hlt|].
    intros [|k] pth Hk; cbn [nth_error] in *.
    + injection Hk as <-. now exists r, zone, typ.
    + now apply Hall.
Qed.

Lemma split_at_chars (sep : pystr) (s : pystr) (skip : nat) :
  Forall (fun piece => forall c, In c piece -> In c s) (Py.split_at sep skip s).
Proof.
  revert skip; induction s as [|x s IH]; intro skip; cbn [Py.split_at].
  - constructor; [intros c []|constructor].
  - assert (Hmore : forall k,
              Forall (fun piece => forall c, In c piece -> In c (x :: s))
                (Py.split_at sep k s)).
    { intro k. eapply Forall_impl; [|apply (IH k)].
      intros piece H c Hc. right. now apply H. }
    destruct skip as [|k]; [|apply Hmore].
    destruct (Py.startswith (x :: s) sep).
    + constructor; [intros c []|apply Hmore].
    + specialize (Hmore 0). destruct (Py.split_at sep 0 s) as [|w ws].
      * constructor; [|constructor]. intros c [<-|[]]. now left.
      * inversion Hmore as [|? ? Hw Hws]; subst. constructor; [|exact Hws].
        intros c [<-|Hc]; [now left | now apply Hw].
Qed.

Lemma split_at_nonempty (sep : pystr) (s : pystr) (skip : nat) :
  Py.split_at sep skip s <> [].
Proof.
  revert skip; induction s as [|x s IH]; intro skip; cbn [Py.split_at];
    [discriminate|].
  destruct skip as [|k]; [|apply IH].
  destruct (Py.startswith (x :: s) sep); [discriminate|].
  destruct (Py.split_at sep 0 s); discriminate.
Qed.

Lemma last_piece_of (info : pystr) :
  exists piece,
    index_last (Py.split_str (py "ID") info) = Ok piece
    /\ forall c, In c piece -> In c info.
Proof.
  unfold Py.split_str, index_last.
  pose proof (split_at_chars (py "ID") info 0) as Hchars.
  pose proof (split_at_nonempty (py "ID") info 0) as Hne.
  destruct (rev (Py.split_at (py "ID") 0 info)) as [|piece others] eqn:E.
  - apply (f_equal (@rev pystr)) in E. rewrite rev_involutive in E.
    now destruct Hne.
  - exists piece. split; [reflexivity|].
    rewrite Forall_forall in Hchars. apply Hchars.
    pose proof (in_eq piece others) as Hin. rewrite <- E in Hin.
    now apply in_rev in Hin.
Qed.

Lemma without_spec (c : ascii) (s : pystr) :
  without c s = true <-> ~ In c s.
Proof.
  unfold without. rewrite forallb_forall. split.
  - intros H Hin. apply H in Hin. now rewrite Ascii.eqb_refl in Hin.
  - intros H x Hx. apply negb_true_iff. apply Ascii.eqb_neq. congruence.
Qed.

Lemma zone_of_wkt_result (info : pystr) :
  (exists zone, zone_of_wkt info = Ok zone) \/ zone_of_wkt info = Raise IndexError.
Proof.
  unfold zone_of_wkt. destruct (last_piece_of info) as (piece & -> & _).
  cbn [rbind]. unfold index.
  destruct (nth_error (Py.split ","%char piece) 1); cbn [rbind]; eauto.
Qed.

Lemma type_of_wkt_result (info : pystr) :
  (exists typ, type_of_wkt info = Ok typ) \/ type_of_wkt info = Raise IndexError.
Proof.
  unfold type_of_wkt. destruct (last_piece_of info) as (piece & -> & _).
  cbn [rbind]. unfold index.
  destruct (nth_error (Py.split double_quote piece) 1); eauto.
Qed.

Lemma zone_of_wkt_without_comma (info : pystr) :
  without ","%char info = true -> zone_of_wkt info = Raise IndexError.
Proof.
  intro H. unfold zone_of_wkt.
  destruct (last_piece_of info) as (piece & -> & Hchars). cbn [rbind].
  rewrite split_plain; [reflexivity|].
  apply without_spec. intro Hin. apply without_spec in H. auto.
Qed.

(** X5: when every path of the stack is on the disk and the text of the
    coordinate system of one of the rasters holds no comma, cell 47 raises
    IndexError; it raises nothing else on such a stack, and it leaves the
    disk as it was. *)
Theorem cell_47_raises_IndexError_on_a_text_without_comma
  (tiff_paths : list pystr) (w : world) :
  (forall p, In p tiff_paths -> Py.get (disk w) p <> None) ->
  (forall e, fst (cell_47 tiff_paths w) = Raise e -> e = IndexError)
  /\ (forall pth r, In pth tiff_paths -> Py.get (disk w) pth = Some r ->
                    without ","%char (wkt r) = true ->
                    cell_47 tiff_paths w = (Raise IndexError, w)).
Proof.
  induction tiff_paths as [|p rest IH]; intro Hdisk.
  - split; [discriminate | intros pth r []].
  - destruct IH as [IHonly IHstop]; [intros q Hq; apply Hdisk; now right|].
    rewrite cell_47_step.
    destruct (Py.get (disk w) p) as [r0|] eqn:Hr0;
      [|now destruct (Hdisk p (or_introl eq_refl))].
    destruct (zone_of_wkt_result (wkt r0)) as [(zone & Hzone)|Hzone].
    + rewrite Hzone.
      destruct (type_of_wkt_result (wkt r0)) as [(typ & Htyp)|Htyp]; rewrite Htyp.
      * pose proof (cell_47_reads rest w) as Hsame.
        destruct (cell_47 rest w) as [[more|e] w'] eqn:Hrest; cbn [snd] in Hsame;
          subst w'.
        -- split; [discriminate|]. intros pth r [<-|Hin] Hr Hcomma.
           ++ rewrite Hr0 in Hr. injection Hr as <-.
              rewrite (zone_of_wkt_without_comma _ Hcomma) in Hzone. discriminate.
           ++ discriminate (IHstop pth r Hin Hr Hcomma).
        -- assert (e = IndexError) by now apply IHonly. subst e.
           split; [intros e' H; now injection H as <- | reflexivity].
      * split; [intros e' H; now injection H as <- | reflexivity].
    + rewrite Hzone. split; [intros e' H; now injection H as <- | reflexivity].
Qed.

(** *** Cells 49 and 51 on the paths of cell 44 *)

(** X6: cell 49 fails on an empty stack in UTM mode and nowhere else: there
    NumPy's maximum of no counts raises ValueError.  In Lat/Long mode the
    target is 4326 for every stack. *)
Theorem cell_49_fails_on_the_empty_stack_in_UTM_mode_only
  (choice : coord_choice) (utm_zones : list pystr) :
  (forall e, cell_49 choice utm_zones = Raise e ->
             choice = UTM /\ utm_zones = [] /\ exists msg, e = ValueError msg)
  /\ (exists msg, cell_49 UTM [] = Raise (ValueError msg))
  /\ cell_49 LatLong utm_zones = Ok (py "4326").
Proof.
  split; [|split; [eexists; reflexivity | reflexivity]].
  intros e H. destruct choice; [|discriminate H].
  destruct utm_zones as [|z zs].
  - cbn in H. injection H as <-. repeat split. eexists. reflexivity.
  - destruct (cell_49_utm (z :: zs)) as (z' & Hz' & _); [discriminate|].
    congruence.
Qed.

Lemma length_split (c : ascii) (s : pystr) :
  length (Py.split c s) = S (occurrences c s).
Proof.
  unfold Py.split, occurrences.
  induction s as [|x s IH]; [reflexivity|].
  cbn [Py.split_by filter]. destruct (Ascii.eqb c x).
  - cbn [length]. now rewrite IH.
  - destruct (Py.split_by (Ascii.eqb c) s) as [|w ws]; [discriminate IH|].
    exact IH.
Qed.

Lemma occurrences_lstrip (c : ascii) (s : pystr) :
  Py.isspace c = false -> occurrences c (Py.lstrip s) = occurrences c s.
Proof.
  intro Hc. unfold occurrences.
  induction s as [|x s IH]; [reflexivity|].
  cbn [Py.lstrip]. destruct (Py.isspace x) eqn:Hx; [|reflexivity].
  rewrite IH. cbn [filter].
  destruct (Ascii.eqb c x) eqn:E; [|reflexivity].
  apply Ascii.eqb_eq in E. congruence.
Qed.

Lemma occurrences_rev (c : ascii) (s : pystr) :
  occurrences c (rev s) = occurrences c s.
Proof. unfold occurrences. now rewrite filter_rev, length_rev. Qed.

Lemma occurrences_strip (c : ascii) (s : pystr) :
  Py.isspace c = false -> occurrences c (Py.strip s) = occurrences c s.
Proof.
  intro Hc. unfold Py.strip.
  rewrite occurrences_rev, occurrences_lstrip, occurrences_rev by exact Hc.
  now apply occurrences_lstrip.
Qed.

Lemma glob_three_pieces (p0 : ascii) (p : pystr) :
  p0 <> "/"%char -> Glob.matches (tiff_pth_of p0) p = true ->
  length (Py.split "/"%char p) = 3.
Proof.
  intros Hslash H. unfold Glob.matches in H.
  rewrite (tiff_pth_pieces p0 Hslash) in H.
  destruct (Py.split "/"%char p) as [|x [|y [|z [|extra more]]]];
    cbn [Glob.pieces] in H; try discriminate H; try reflexivity;
    repeat (apply andb_true_iff in H as [_ H]); discriminate H.
Qed.

Lemma strip_keeps_the_pieces (pth : pystr) :
  length (Py.split "/"%char pth) = 3 ->
  exists top product name, Py.split "/"%char (Py.strip pth) = [top; product; name].
Proof.
  intro H. rewrite length_split in H.
  assert (Hs : length (Py.split "/"%char (Py.strip pth)) = 3).
  { rewrite length_split, occurrences_strip by reflexivity. exact H. }
  destruct (Py.split "/"%char (Py.strip pth)) as [|x [|y [|z [|extra more]]]];
    try discriminate Hs.
  now exists x, y, z.
Qed.

Lemma reproject_loop_completes (tiff_paths utm_zones utm_types : list pystr)
  (predominant_utm : pystr) (ks : list nat) (w : world) :
  length utm_zones = length tiff_paths ->
  length utm_types = length tiff_paths ->
  (forall p, In p tiff_paths -> length (Py.split "/"%char p) = 3) ->
  (forall k, In k ks -> k < length tiff_paths) ->
  exists w',
    for_each ks (reproject tiff_paths utm_zones utm_types predominant_utm) w
    = (Ok tt, w')
    /\ length (log w') = length (log w) + 2 * length ks.
Proof.
  intros Hlz Hlt Hpieces. revert w.
  induction ks as [|k ks IH]; intros w Hks.
  - exists w. split; [reflexivity | simpl; lia].
  - assert (Hk : k < length tiff_paths) by (apply Hks; now left).
    destruct (nth_error_some tiff_paths k Hk) as (pth & Hpth).
    destruct (nth_error_some utm_types k) as (typ & Htyp); [lia|].
    destruct (nth_error_some utm_zones k) as (zone & Hzone); [lia|].
    destruct (strip_keeps_the_pieces pth) as (top & product & name & Hsplit).
    { apply Hpieces. now apply nth_error_In with k. }
    cbn [for_each]. unfold bind at 1.
    rewrite (reproject_runs _ _ _ _ _ _ _ _ _ _ _ w Hpth Htyp Hzone Hsplit).
    match goal with
    | |- context [for_each ks _ ?w1] =>
        destruct (IH w1) as (w' & Hrun & Hlog);
        [intros j Hj; apply Hks; now right|]
    end.
    exists w'. split; [exact Hrun|].
    rewrite Hlog. cbn [log length]. rewrite length_app. cbn [length]. lia.
Qed.

(** X7: the Normalizer runs to its end on every stack that cell 44
    collects, once cell 47 has read the zones: the paths of the glob have
    three pieces, so the unpacking in cell 51 never fails, whatever
    gdalwarp and rm do.  In UTM mode the stack must not be empty.  It
    hands the shell two lines for every file whose zone is not the
    target. *)
Theorem normalizer_runs_to_its_end_on_the_collected_paths
  (regex : Re.rx) (p0 : ascii) (choice : coord_choice)
  (utm_zones utm_types : list pystr) (w : world) :
  Re.word p0 = true ->
  let tiff_paths := collected regex (tiff_pth_of p0) w in
  fst (cell_47 tiff_paths w) = Ok (utm_zones, utm_types) ->
  choice = LatLong \/ tiff_paths <> [] ->
  exists predominant_utm w',
    cell_49 choice utm_zones = Ok predominant_utm
    /\ normalizer choice tiff_paths w = (Ok tt, w')
    /\ length (log w')
       = length (log w)
         + 2 * length (reproject_indicies utm_zones predominant_utm).
Proof.
  intros Hword tiff_paths H47 Hstack.
  destruct (word_is_no_mark p0 Hword) as (Hslash & _).
  destruct (cell_47_lengths tiff_paths w utm_zones utm_types H47) as [Hlz Hlt].
  assert (H49 : exists z, cell_49 choice utm_zones = Ok z).
  { destruct choice; [|now eexists].
    destruct Hstack as [Hc|Hne]; [discriminate Hc|].
    destruct (cell_49_utm utm_zones) as (z & Hz & _); [|now exists z].
    intro E. apply Hne. apply length_zero_iff_nil. rewrite <- Hlz, E. reflexivity. }
  destruct H49 as (z & Hz).
  destruct (reproject_loop_completes tiff_paths utm_zones utm_types z
              (reproject_indicies utm_zones z) w Hlz Hlt) as (w' & Hrun & Hlog).
  - intros p Hp. apply (glob_three_pieces p0 p Hslash).
    unfold tiff_paths, collected in Hp.
    apply filter_In in Hp as [Hp _]. now apply filter_In in Hp as [_ Hp].
  - intros k Hk. apply reproject_indicies_spec in Hk as (zone & Hn & _).
    rewrite <- Hlz. apply nth_error_Some. congruence.
  - exists z, w'. split; [exact Hz|]. split; [|exact Hlog].
    unfold normalizer, bind at 1.
    pose proof (cell_47_reads tiff_paths w) as Hsame.
    destruct (cell_47 tiff_paths w) as [[[zs ts]|e] w1]; cbn [fst snd] in *;
      [|discriminate H47].
    injection H47 as -> ->. subst w1.
    unfold bind, lift. rewrite Hz. exact Hrun.
Qed.

(** *** Cell 53 after cell 51 *)




(** *** Cell 63: when a merge can be started *)

Lemma removal_loop_completes (ps : list pystr) (w : world) :
  exists w', for_each ps remove_if_exists w = (Ok tt, w').
Proof.
  revert w; induction ps as [|p ps IH]; intro w; [now exists w|].
  cbn [for_each]. unfold bind at 1.
  assert (Hstep : exists w1, remove_if_exists p w = (Ok tt, w1)).
  { unfold remove_if_exists. destruct (is_empty p); [now exists w|].
    unfold bind, path_exists, reading, os_remove, doing, ret.
    destruct (Py.has (disk w) p); eexists; reflexivity. }
  destruct Hstep as (w1 & ->). apply IH.
Qed.

Lemma index_some {A} (xs : list A) (i : nat) :
  i < length xs -> exists x, index xs i = Ok x.
Proof.
  intro H. unfold index. destruct (nth_error_some xs i H) as (x & ->). now exists x.
Qed.

Lemma index_none {A} (xs : list A) (i : nat) :
  length xs <= i -> index xs i = Raise IndexError.
Proof.
  intro H. unfold index. apply nth_error_None in H. now rewrite H.
Qed.

Lemma output_of_result (paths : pystr) :
  (occurrences "/"%char paths < 2 -> output_of paths = Raise IndexError)
  /\ (2 <= occurrences "/"%char paths -> exists output, output_of paths = Ok output).
Proof.
  unfold output_of.
  pose proof (length_split "/"%char paths) as Hlen.
  destruct (index_some (Py.split "/"%char paths) 0) as (top & ->); [lia|].
  cbn [rbind]. split; intro H.
  - destruct (Nat.eq_dec (occurrences "/"%char paths) 0) as [E|E].
    + rewrite (index_none (Py.split "/"%char paths) 1) by lia. reflexivity.
    + destruct (index_some (Py.split "/"%char paths) 1) as (product & ->); [lia|].
      cbn [rbind].
      rewrite (index_none (Py.split "/"%char paths) 2) by lia. reflexivity.
  - destruct (index_some (Py.split "/"%char paths) 1) as (product & ->); [lia|].
    destruct (index_some (Py.split "/"%char paths) 2) as (rest & ->); [lia|].
    cbn [rbind].
    destruct (index_some (Py.split " "%char rest) 0) as (name & ->).
    { rewrite length_split. lia. }
    cbn [rbind]. eexists. reflexivity.
Qed.

Lemma merge_date_result (dup_dates : Py.dict pystr) (dup_date paths : pystr)
  (w : world) :
  Py.get dup_dates dup_date = Some paths ->
  (occurrences "/"%char paths < 2 ->
   merge_date dup_dates dup_date w = (Raise IndexError, w))
  /\ (2 <= occurrences "/"%char paths ->
      exists w', merge_date dup_dates dup_date w = (Ok tt, w')).
Proof.
  intro Hget. unfold merge_date, bind at 1, lift at 1, lookup. rewrite Hget.
  destruct (output_of_result paths) as [Hfew Henough].
  split; intro H.
  - unfold bind, lift. now rewrite (Hfew H).
  - destruct (Henough H) as (output & Hout).
    unfold bind at 1, lift at 1. rewrite Hout.
    unfold bind at 1, shell, doing. apply removal_loop_completes.
Qed.

(** X9: the body of cell 63 builds the output name from the string of
    paths of its date before it runs anything.  With fewer than two slashes
    in the string (an empty string, for one) the name cannot be built:
    IndexError is raised and the world is untouched, no command was run
    and no file removed.  With two slashes or more the name is built. *)
Theorem merge_needs_two_slashes_in_the_string_of_paths
  (dup_dates : Py.dict pystr) (dup_date paths : pystr) (w : world) :
  Py.get dup_dates dup_date = Some paths ->
  (occurrences "/"%char paths < 2 ->
   output_of paths = Raise IndexError
   /\ merge_date dup_dates dup_date w = (Raise IndexError, w))
  /\ (2 <= occurrences "/"%char paths -> exists output, output_of paths = Ok output).
Proof.
  intro Hget. destruct (output_of_result paths) as [Hfew Henough].
  destruct (merge_date_result dup_dates dup_date paths w Hget) as [Hstop _].
  split; [|exact Henough]. intro H. split; [now apply Hfew | now apply Hstop].
Qed.

(** *** Cells 53-63: when the Merger runs to its end *)

Lemma date_of_total (p : pystr) :
  date_from_product_name p <> None -> exists d, date_of p = Ok d.
Proof.
  intro H. destruct (date_from_product_name p) as [stamp|] eqn:E; [|congruence].
  destruct (date_of_stamp p stamp E) as (d & Hd & _). now exists d.
Qed.

Lemma get_dates_total (ps : list pystr) :
  (forall p, In p ps -> date_from_product_name p <> None) ->
  exists dates, get_dates ps = Ok dates.
Proof.
  unfold get_dates. induction ps as [|p ps IH]; intro H; [now exists []|].
  destruct (date_of_total p) as (d & Hd); [apply H; now left|].
  destruct IH as (dates & Hdates); [intros q Hq; apply H; now right|].
  cbn [rmap]. rewrite Hd, Hdates. now eexists.
Qed.

Lemma add_path_total (i : nat) (batches : list (Py.dict pystr)) (p : pystr) :
  i < length batches -> date_from_product_name p <> None ->
  exists batches', add_path i batches p = Ok batches'
                   /\ length batches' = length batches.
Proof.
  intros Hi Hp. unfold add_path.
  destruct (date_of_total p Hp) as (d & ->).
  destruct (index_some batches i Hi) as (batch & ->). cbn [rbind].
  destruct (Py.get batch d); eexists; split; try reflexivity.
  apply length_set_nth.
Qed.

Lemma rfold_add_path_total (i : nat) (ps : list pystr)
  (batches : list (Py.dict pystr)) :
  i < length batches ->
  (forall p, In p ps -> date_from_product_name p <> None) ->
  exists batches', rfold (add_path i) ps batches = Ok batches'
                   /\ length batches' = length batches.
Proof.
  revert batches; induction ps as [|p ps IH]; intros batches Hi Hps.
  - now exists batches.
  - destruct (add_path_total i batches p Hi) as (b1 & Hb1 & Hl1);
      [apply Hps; now left|].
    destruct (IH b1) as (b2 & Hb2 & Hl2);
      [lia | intros q Hq; apply Hps; now right|].
    exists b2. cbn [rfold]. rewrite Hb1. cbn [rbind].
    split; [exact Hb2 | lia].
Qed.

Lemma cfold_total (tiff_pth : pystr) (ips : list (nat * pystr))
  (batches : list (Py.dict pystr)) (w : world) :
  (forall p, In p (Py.keys (disk w)) -> Glob.matches tiff_pth p = true ->
             date_from_product_name p <> None) ->
  (forall ip, In ip ips -> fst ip < length batches) ->
  exists filled,
    cfold (fun batches ip =>
             bind (get_tiff_paths (Re.polar_regex (snd ip)) tiff_pth)
               (fun polar_paths =>
                  lift (rfold (add_path (fst ip)) polar_paths batches)))
      ips batches w = (Ok filled, w).
Proof.
  intro Hstamps. revert batches.
  induction ips as [|ip ips IH]; intros batches Hips; [now exists batches|].
  destruct (rfold_add_path_total (fst ip)
              (collected (Re.polar_regex (snd ip)) tiff_pth w) batches)
    as (b1 & Hb1 & Hl1).
  - apply Hips. now left.
  - intros p Hp. unfold collected in Hp. apply filter_In in Hp as [Hp _].
    apply filter_In in Hp as [Hk Hg]. now apply Hstamps.
  - destruct (IH b1) as (filled & Hfilled).
    { intros ip' Hin. rewrite Hl1. apply Hips. now right. }
    exists filled. cbn [cfold]. unfold bind at 1. unfold bind at 1.
    rewrite get_tiff_paths_collected. unfold lift at 1. rewrite Hb1.
    exact Hfilled.
Qed.

Lemma cell_61_total (polarization : pystr) (dbl_polar : bool) (tiff_pth : pystr)
  (polar_list : list pystr) (b0 : Py.dict pystr) (w : world) :
  polar_list_of polarization dbl_polar = Ok polar_list ->
  (forall p, In p (Py.keys (disk w)) -> Glob.matches tiff_pth p = true ->
             date_from_product_name p <> None) ->
  exists filled,
    cell_61 polarization dbl_polar tiff_pth
      (if dbl_polar then [b0; b0] else [b0]) w
    = (Ok (polar_list, filled), w).
Proof.
  intros Hpl Hstamps.
  assert (Hlen : length (if dbl_polar then [b0; b0] else [b0]) = length polar_list).
  { unfold polar_list_of in Hpl. destruct dbl_polar.
    - destruct (index (Py.split " "%char polarization) 0); [|discriminate Hpl].
      cbn [rbind] in Hpl.
      destruct (index (Py.split " "%char polarization) 2); [|discriminate Hpl].
      now injection Hpl as <-.
    - now injection Hpl as <-. }
  destruct (cfold_total tiff_pth (enumerate polar_list)
              (if dbl_polar then [b0; b0] else [b0]) w Hstamps) as (filled & Hfilled).
  - intros [k polar] Hin. apply enumerate_from_in in Hin as [_ Hn].
    cbn [fst]. rewrite Hlen. apply nth_error_Some.
    rewrite Nat.sub_0_r in Hn. congruence.
  - exists filled. unfold cell_61, bind at 1, lift at 1. rewrite Hpl.
    unfold bind at 1. rewrite Hfilled. reflexivity.
Qed.

(** Cells 53 to 61 on a stack whose paths all bear a time stamp. *)
Lemma cells_59_61 (regex : Re.rx) (polarization : pystr) (dbl_polar : bool)
  (tiff_pth : pystr) (polar_list : list pystr) (w : world) :
  (forall xs x, In x (set_of xs) <-> In x xs) ->
  polar_list_of polarization dbl_polar = Ok polar_list ->
  (forall p, In p (Py.keys (disk w)) -> Glob.matches tiff_pth p = true ->
             date_from_product_name p <> None) ->
  exists dates b0 filled,
    get_dates (collected regex tiff_pth w) = Ok dates
    /\ cell_59 (set_of dates) dates dbl_polar = (if dbl_polar then [b0; b0] else [b0])
    /\ cell_61 polarization dbl_polar tiff_pth
         (if dbl_polar then [b0; b0] else [b0]) w = (Ok (polar_list, filled), w)
    /\ (forall d, In d (Py.keys b0) <-> candidate regex tiff_pth d w = true)
    /\ (forall d v, Py.get b0 d = Some v -> v = [])
    /\ Forall2 (fun polar b' =>
                  filled_from b0 (collected (Re.polar_regex polar) tiff_pth w) b')
         polar_list filled.
Proof.
  intros Hset Epl Hstamps.
  destruct (get_dates_total (collected regex tiff_pth w)) as (dates & Edates).
  { intros p Hp. unfold collected in Hp. apply filter_In in Hp as [Hp _].
    apply filter_In in Hp as [Hk Hg]. now apply Hstamps. }
  destruct (cell_59_candidates dates dbl_polar Hset) as (b0 & E59 & Hcand).
  assert (Hshape : forall d0 v, Py.get b0 d0 = Some v -> v = []).
  { assert (b0 = fold_left (fun (batch : Py.dict pystr) date =>
                              if 1 <? count_dates date dates
                              then Py.set batch date [] else batch)
                   (set_of dates) []) as ->.
    { unfold cell_59 in E59. destruct dbl_polar; now injection E59. }
    apply candidates_shape; [constructor | discriminate]. }
  destruct (cell_61_total polarization dbl_polar tiff_pth polar_list b0 w Epl Hstamps)
    as (filled & E61).
  exists dates, b0, filled.
  split; [exact Edates|]. split; [exact E59|]. split; [exact E61|].
  split; [|split; [exact Hshape|]].
  - intro d0. unfold candidate. rewrite Nat.ltb_lt.
    rewrite <- (get_dates_count _ _ d0 Edates), <- Hcand.
    unfold Py.has. rewrite in_keys_get.
    assert (Hsome : forall o : option pystr,
              o <> None <-> match o with Some _ => true | None => false end = true).
    { intros [v|]; split; intro H; try reflexivity; try discriminate.
      now destruct H. }
    apply Hsome.
  - now destruct (cell_61_fills _ _ _ _ _ _ _ _ E61) as (_ & _ & H).
Qed.

(** The Merger is the loop of cell 63 over the tasks cell 61 has filled. *)
Lemma merger_tasks (polarization : pystr) (regex : Re.rx) (dbl_polar : bool)
  (tiff_pth : pystr) (polar_list : list pystr) (w : world) :
  (forall xs x, In x (set_of xs) <-> In x xs) ->
  cell_38 polarization = Ok (regex, dbl_polar) ->
  cell_44 polarization = Ok tiff_pth ->
  polar_list_of polarization dbl_polar = Ok polar_list ->
  (forall p, In p (Py.keys (disk w)) -> Glob.matches tiff_pth p = true ->
             date_from_product_name p <> None) ->
  exists b0 filled,
    merger polarization w
    = for_each (tasks_of filled) (fun task => merge_date (fst task) (snd task)) w
    /\ (forall d, In d (Py.keys b0) <-> candidate regex tiff_pth d w = true)
    /\ (forall d v, Py.get b0 d = Some v -> v = [])
    /\ Forall2 (fun polar b' =>
                  filled_from b0 (collected (Re.polar_regex polar) tiff_pth w) b')
         polar_list filled.
Proof.
  intros Hset E38 E44 Epl Hstamps.
  destruct (cells_59_61 regex polarization dbl_polar tiff_pth polar_list w
              Hset Epl Hstamps)
    as (dates & b0 & filled & Edates & E59 & E61 & Hkeys & Hshape & Hfilled).
  exists b0, filled. split; [|split; [exact Hkeys|split; [exact Hshape|exact Hfilled]]].
  unfold merger. unfold bind at 1. unfold lift at 1. rewrite E38.
  unfold bind at 1. unfold lift at 1. rewrite E44. unfold bind at 1.
  rewrite get_tiff_paths_collected.
  unfold bind at 1. unfold lift at 1. rewrite Edates.
  rewrite E59. unfold bind at 1. rewrite E61. cbn [snd].
  apply cell_63_tasks.
Qed.

Lemma for_each_stops {A} (body : A -> cell unit) (e : exn) (xs : list A) (x : A) :
  In x xs ->
  (forall y w, In y xs ->
               (exists w', body y w = (Ok tt, w'))
               \/ exists w', body y w = (Raise e, w')) ->
  (forall w, exists w', body x w = (Raise e, w')) ->
  forall w, exists w', for_each xs body w = (Raise e, w').
Proof.
  intros Hx Heach Hstop.
  induction xs as [|y xs IH]; [destruct Hx|]. intro w.
  cbn [for_each]. unfold bind.
  destruct (Heach y w (or_introl eq_refl)) as [(w1 & Hy)|(w1 & Hy)]; rewrite Hy.
  - destruct Hx as [->|Hx].
    + destruct (Hstop w) as (w2 & H2). congruence.
    + apply IH; [exact Hx|]. intros z w0 Hz. apply Heach. now right.
  - now exists w1.
Qed.

Lemma for_each_completes {A} (body : A -> cell unit) (xs : list A) :
  (forall y w, In y xs -> exists w', body y w = (Ok tt, w')) ->
  forall w, exists w', for_each xs body w = (Ok tt, w').
Proof.
  induction xs as [|y xs IH]; intros Heach w; [now exists w|].
  cbn [for_each]. unfold bind.
  destruct (Heach y w (or_introl eq_refl)) as (w1 & ->).
  apply IH. intros z w0 Hz. apply Heach. now right.
Qed.

Lemma occurrences_app (c : ascii) (a b : pystr) :
  occurrences c (a ++ b) = occurrences c a + occurrences c b.
Proof. unfold occurrences. now rewrite filter_app, length_app. Qed.

Lemma occurrences_paths_string (p : pystr) (ps : list pystr) :
  occurrences "/"%char p <= occurrences "/"%char (paths_string (p :: ps)).
Proof.
  rewrite paths_string_concat. cbn [map concat].
  change (" "%char :: p) with ([" "%char] ++ p).
  repeat rewrite occurrences_app. lia.
Qed.

(** X10: the Merger (cells 53 to 63 in a row, every collected path with a
    time stamp) raises IndexError exactly when some merge candidate date
    has no file in one of the channels of the selection: cell 61 leaves
    an empty string of paths for it, and cell 63 cannot build an output
    name.  Otherwise the paths of the glob have two slashes each and the
    Merger runs through all its merges. *)
Theorem merger_stops_when_a_candidate_date_has_no_file_in_a_channel
  (polarization : pystr) (regex : Re.rx) (dbl_polar : bool) (p0 : ascii)
  (polar_list : list pystr) (w : world) :
  let tiff_pth := tiff_pth_of p0 in
  (forall xs x, In x (set_of xs) <-> In x xs) ->
  p0 <> "/"%char ->
  cell_38 polarization = Ok (regex, dbl_polar) ->
  cell_44 polarization = Ok tiff_pth ->
  polar_list_of polarization dbl_polar = Ok polar_list ->
  (forall p, In p (Py.keys (disk w)) -> Glob.matches tiff_pth p = true ->
             date_from_product_name p <> None) ->
  ((exists polar d, In polar polar_list /\ candidate regex tiff_pth d w = true
                    /\ rasters_of tiff_pth polar d w = []) ->
   exists w', merger polarization w = (Raise IndexError, w'))
  /\ ((forall polar d, In polar polar_list -> candidate regex tiff_pth d w = true ->
                       rasters_of tiff_pth polar d w <> []) ->
      exists w', merger polarization w = (Ok tt, w')).
Proof.
  intros tiff_pth Hset Hslash E38 E44 Epl Hstamps.
  destruct (merger_tasks polarization regex dbl_polar tiff_pth polar_list w
              Hset E38 E44 Epl Hstamps) as (b0 & filled & -> & Hkeys & Hempty & Hfilled).
  destruct (tasks_of_filled tiff_pth b0 polar_list filled w Hempty Hfilled)
    as [Hdesc Htask].
  assert (Hpieces : forall polar d p, In p (rasters_of tiff_pth polar d w) ->
                                      occurrences "/"%char p = 2).
  { intros polar d p Hp. apply rasters_of_in in Hp as (_ & Hg & _).
    pose proof (glob_three_pieces p0 p Hslash Hg) as H3.
    rewrite length_split in H3. lia. }
  split.
  - intros (polar & d & Hpolar & Hcand & Hnone).
    apply Hkeys in Hcand. destruct (Htask polar d Hpolar Hcand) as (t & Ht & Hget).
    rewrite Hnone in Hget.
    apply (for_each_stops (fun task => merge_date (fst task) (snd task))
             IndexError (tasks_of filled) t Ht).
    + intros t' w0 Ht'. destruct (Hdesc t' Ht') as (polar' & _ & _ & Hget').
      destruct (merge_date_result (fst t') (snd t') _ w0 Hget') as [Hfew Henough].
      destruct (le_lt_dec 2 (occurrences "/"%char
                               (paths_string (rasters_of tiff_pth polar' (snd t') w))))
        as [H|H]; [left; now apply Henough | right; exists w0; now apply Hfew].
    + intro w0. exists w0.
      destruct (merge_date_result (fst t) (snd t) _ w0 Hget) as [Hfew _].
      apply Hfew. cbn. lia.
  - intro Hall.
    apply (for_each_completes (fun task => merge_date (fst task) (snd task))).
    intros t w0 Ht. destruct (Hdesc t Ht) as (polar & Hpolar & Hd & Hget).
    destruct (merge_date_result (fst t) (snd t) _ w0 Hget) as [_ Henough].
    apply Henough.
    destruct (rasters_of tiff_pth polar (snd t) w) as [|p ps] eqn:E.
    + exfalso. apply (Hall polar (snd t) Hpolar); [now apply Hkeys | exact E].
    + pose proof (occurrences_paths_string p ps) as Hocc.
      rewrite (Hpieces polar (snd t) p) in Hocc; [exact Hocc|].
      rewrite E. now left.
Qed.

(** *** Cell 65: the check *)

Lemma set_of_length (xs : list pystr) :
  NoDup (set_of xs) -> (forall x, In x (set_of xs) <-> In x xs) ->
  (length xs = length (set_of xs) <-> NoDup xs).
Proof.
  intros Hnd Hin. split.
  - intro Hlen. apply (NoDup_incl_NoDup (l := set_of xs)); [exact Hnd | lia|].
    intros x Hx. now apply Hin.
  - intro Hxs. apply Nat.le_antisymm.
    + apply NoDup_incl_length; [exact Hxs|]. intros x Hx. now apply Hin.
    + apply NoDup_incl_length; [exact Hnd|]. intros x Hx. now apply Hin.
Qed.

Lemma verdict_runs (regex : Re.rx) (tiff_pth polar : pystr) (w : world)
  (dates : list pystr) :
  get_dates (collected regex (Py.replace (py "V*") polar tiff_pth) w) = Ok dates ->
  verdict regex tiff_pth polar w
  = (Ok (if negb (length dates =? length (set_of dates))
         then duplicates_line else no_duplicates_line polar), w).
Proof.
  intro H. unfold verdict, bind at 1. rewrite get_tiff_paths_collected.
  unfold bind, lift. rewrite H.
  destruct (negb (length dates =? length (set_of dates))); reflexivity.
Qed.

(** X11: the check of cell 65 prints its complaint for a channel exactly
    when two of the rasters it collects for that channel bear the same
    date, and the line that names the channel otherwise; it leaves the
    world as it was. *)
Theorem check_complains_exactly_when_two_rasters_share_a_date
  (regex : Re.rx) (tiff_pth polar : pystr) (w : world) (dates : list pystr) :
  (forall xs, NoDup (set_of xs) /\ forall x, In x (set_of xs) <-> In x xs) ->
  get_dates (collected regex (Py.replace (py "V*") polar tiff_pth) w) = Ok dates ->
  (NoDup dates ->
   verdict regex tiff_pth polar w = (Ok (no_duplicates_line polar), w))
  /\ (~ NoDup dates -> verdict regex tiff_pth polar w = (Ok duplicates_line, w)).
Proof.
  intros Hset Hdates. rewrite (verdict_runs regex tiff_pth polar w dates Hdates).
  destruct (Hset dates) as [Hnd Hin].
  pose proof (set_of_length dates Hnd Hin) as Hlen.
  destruct (length dates =? length (set_of dates)) eqn:E; cbn [negb]; split; intro H.
  - reflexivity.
  - apply Nat.eqb_eq in E. now destruct H; apply Hlen.
  - apply Nat.eqb_neq in E. now destruct E; apply Hlen.
  - reflexivity.
Qed.

Lemma replace_miss (new : pystr) (c : ascii) (s : pystr) :
  Py.startswith (c :: s) ["V"%char; "*"%char] = false ->
  Py.replace_at ["V"%char; "*"%char] new 0 (c :: s)
  = c :: Py.replace_at ["V"%char; "*"%char] new 0 s.
Proof. intro H. cbn [Py.replace_at]. now rewrite H. Qed.

Lemma glob_without_V_is_kept (p0 : ascii) (polar : pystr) :
  p0 <> "V"%char -> Py.replace (py "V*") polar (tiff_pth_of p0) = tiff_pth_of p0.
Proof.
  intro H. assert (E : Ascii.eqb "V"%char p0 = false).
  { apply Ascii.eqb_neq. congruence. }
  unfold Py.replace, tiff_pth_of, rtc_path, py.
  cbn [list_ascii_of_string app].
  repeat (rewrite replace_miss by reflexivity).
  rewrite replace_miss by (cbn [Py.startswith]; rewrite E; reflexivity).
  repeat (rewrite replace_miss by reflexivity).
  reflexivity.
Qed.

Lemma nodup_count (d : pystr) (xs : list pystr) : NoDup xs -> Py.count d xs <= 1.
Proof.
  induction 1 as [|x xs Hx Hnd IH]; cbn [Py.count]; [lia|].
  destruct (Py.eqb d x) eqn:E; [|exact IH].
  apply eqb_eq in E. subst x.
  destruct (Nat.eq_dec (Py.count d xs) 0) as [->|Hpos]; [lia|].
  exfalso. apply Hx. apply count_pos_in. lia.
Qed.

(** X12: the check builds the glob of a channel by writing the channel in
    the place of [V*].  The glob of cell 44 holds [V*] only when the
    selection begins with V; for every other first letter the glob stays
    as it is and the check of each channel looks at the rasters of all
    channels: as soon as two collected rasters bear the same date (one in
    each channel of a dual selection, for one) it complains for every
    channel. *)
Theorem check_looks_at_all_channels_unless_the_selection_begins_with_V
  (regex : Re.rx) (p0 : ascii) (d : pystr) (w : world) :
  (forall xs, NoDup (set_of xs) /\ forall x, In x (set_of xs) <-> In x xs) ->
  p0 <> "V"%char ->
  (forall p, In p (collected regex (tiff_pth_of p0) w) ->
             date_from_product_name p <> None) ->
  candidate regex (tiff_pth_of p0) d w = true ->
  forall polar,
    Py.replace (py "V*") polar (tiff_pth_of p0) = tiff_pth_of p0
    /\ verdict regex (tiff_pth_of p0) polar w = (Ok duplicates_line, w).
Proof.
  intros Hset HV Hstamps Hcand polar.
  pose proof (glob_without_V_is_kept p0 polar HV) as Hkept.
  split; [exact Hkept|].
  destruct (get_dates_total _ Hstamps) as (dates & Hdates).
  rewrite (verdict_runs regex (tiff_pth_of p0) polar w dates)
    by (rewrite Hkept; exact Hdates).
  destruct (Hset dates) as [Hnd Hin].
  pose proof (set_of_length dates Hnd Hin) as Hlen.
  destruct (length dates =? length (set_of dates)) eqn:E; [|reflexivity].
  exfalso. apply Nat.eqb_eq in E. apply Hlen in E.
  pose proof (nodup_count d dates E) as Hcount.
  rewrite (get_dates_count _ _ d Hdates) in Hcount.
  unfold candidate in Hcand. apply Nat.ltb_lt in Hcand. lia.
Qed.

(** *** Cell 69: the move to the tiffs folder *)

Lemma index_last_basename (tiff : pystr) :
  index_last (Py.split "/"%char tiff) = Ok (basename tiff).
Proof.
  unfold index_last, basename.
  destruct (rev (Py.split "/"%char tiff)) as [|name others] eqn:E; [|reflexivity].
  apply (f_equal (@rev pystr)) in E. rewrite rev_involutive in E.
  now destruct (split_by_nonempty (Ascii.eqb "/"%char) tiff).
Qed.

Lemma basename_without_slash (tiff : pystr) :
  without "/"%char (basename tiff) = true.
Proof.
  unfold basename. pose proof (split_pieces "/"%char tiff) as H.
  destruct (rev (Py.split "/"%char tiff)) as [|name others] eqn:E; [reflexivity|].
  rewrite Forall_forall in H. apply H. apply in_rev. rewrite E. now left.
Qed.

Lemma startswith_app (a t : pystr) : Py.startswith (a ++ t) a = true.
Proof.
  induction a as [|c a IH]; [now destruct t|].
  cbn [app Py.startswith]. now rewrite Ascii.eqb_refl.
Qed.

Lemma skipn_length_app {A} (x y : list A) : skipn (length x) (x ++ y) = y.
Proof. induction x as [|c x IH]; [reflexivity | exact IH]. Qed.

(** A relative path is its own key. *)
Lemma resolve_relative (pth : pystr) :
  Py.startswith pth (py "/") = false -> resolve pth = pth.
Proof. intro H. unfold resolve. now rewrite H. Qed.

(** The path cell 69 writes names the file tiffs/<base name> of the
    analysis directory. *)
Lemma resolve_tiffs_path (tiff : pystr) :
  Py.startswith analysis_directory (py "/") = true ->
  resolve (tiffs_path tiff) = tiffs_key tiff.
Proof.
  intro Habs. unfold resolve, tiffs_path, tiffs_key.
  assert (Hfirst : Py.startswith (analysis_directory ++ py "/tiffs/" ++ basename tiff)
                     (py "/") = true).
  { destruct analysis_directory as [|c a]; [discriminate|].
    unfold py in *. cbn [list_ascii_of_string app Py.startswith] in *.
    apply andb_true_iff in Habs as [-> _]. now destruct (a ++ _). }
  rewrite Hfirst. cbn [andb].
  assert (Ecut : analysis_directory ++ py "/tiffs/" ++ basename tiff
                 = (analysis_directory ++ py "/") ++ py "tiffs/" ++ basename tiff)
    by now rewrite <- app_assoc.
  rewrite Ecut at 1. rewrite startswith_app.
  replace (length analysis_directory + 1) with (length (analysis_directory ++ py "/"))
    by (rewrite length_app; reflexivity).
  rewrite Ecut. apply skipn_length_app.
Qed.

Lemma split_tiffs_key (b : pystr) :
  without "/"%char b = true -> Py.split "/"%char (py "tiffs/" ++ b) = [py "tiffs"; b].
Proof.
  intro Hb. change (py "tiffs/" ++ b) with (py "tiffs" ++ "/"%char :: b).
  rewrite split_app by reflexivity. now rewrite split_plain.
Qed.

Lemma in_order_tiffs_key (tiff : pystr) : in_order (tiffs_key tiff) = true.
Proof.
  unfold in_order, tiffs_key.
  now rewrite (split_tiffs_key _ (basename_without_slash tiff)).
Qed.

(** Nothing stands in the way of a file of the folder tiffs when what the
    disk holds under the name tiffs are regular files of that folder. *)
Lemma free_way_in_tiffs (d : Py.dict raster) (tiff : pystr) :
  tiffs_in_order d = true -> free_way d (tiffs_key tiff) = true.
Proof.
  intro Hd. unfold free_way, tiffs_in_order, tiffs_key in *.
  rewrite forallb_forall in *. intros k Hk. specialize (Hd k Hk).
  unfold in_order in Hd.
  rewrite (split_tiffs_key _ (basename_without_slash tiff)).
  pose proof (split_by_nonempty (Ascii.eqb "/"%char) k) as Hne.
  fold (Py.split "/"%char k) in Hne.
  destruct (Py.split "/"%char k) as [|t [|u [|v more]]]; [now destruct Hne| | |];
    cbn [above length] in *; rewrite (eqb_sym (py "tiffs") t);
    destruct (Py.eqb t (py "tiffs")); cbn [negb orb andb] in *;
    try discriminate Hd; try reflexivity;
    rewrite ?andb_false_r; reflexivity.
Qed.

Lemma tiffs_in_order_moved (d : Py.dict raster) (p q : pystr) (r : raster) :
  tiffs_in_order d = true -> in_order q = true ->
  tiffs_in_order (Py.set (Py.del d p) q r) = true.
Proof.
  intros Hd Hq. unfold tiffs_in_order in *. rewrite forallb_forall in *.
  intros k Hk. apply in_keys_get in Hk.
  destruct (list_eq_dec ascii_dec q k) as [<-|Hne]; [exact Hq|].
  rewrite get_set_other in Hk by exact Hne.
  destruct (list_eq_dec ascii_dec p k) as [<-|Hne'];
    [now rewrite get_del_same in Hk|].
  rewrite get_del_other in Hk by exact Hne'.
  apply Hd. now apply in_keys_get.
Qed.

(** The body of the loop of cell 69. *)
Lemma rename_step (tiff : pystr) (w : world) :
  bind (lift (index_last (Py.split "/"%char tiff)))
    (fun name => os_rename tiff (analysis_directory ++ py "/tiffs/" ++ name)) w
  = os_rename tiff (tiffs_path tiff) w.
Proof. unfold bind, lift. now rewrite index_last_basename. Qed.

Lemma os_rename_gone (src dst : pystr) (w : world) :
  Py.startswith src (py "/") = false -> Py.get (disk w) src = None ->
  os_rename src dst w = (Raise OSError, w).
Proof.
  intros Hrel Hgone. unfold os_rename. rewrite (resolve_relative src Hrel).
  now rewrite Hgone.
Qed.

Lemma rename_into_tiffs (tiff : pystr) (r : raster) (w : world) :
  Py.startswith analysis_directory (py "/") = true ->
  Py.startswith tiff (py "/") = false ->
  Py.get (disk w) tiff = Some r ->
  tiffs_in_order (disk w) = true ->
  os_rename tiff (tiffs_path tiff) w
  = (Ok tt, {| disk := Py.set (Py.del (disk w) tiff) (tiffs_key tiff) r;
               log := log w ++ [OsRename tiff (tiffs_path tiff)] |}).
Proof.
  intros Habs Hrel Hr Hd. unfold os_rename.
  rewrite (resolve_relative tiff Hrel), Hr, (resolve_tiffs_path tiff Habs).
  now rewrite (free_way_in_tiffs (disk w) tiff Hd).
Qed.

Lemma moved_to_longer (tiff : pystr) (tiff_paths : list pystr) (q : pystr) :
  moved_to (tiff :: tiff_paths) q
  = match moved_to tiff_paths q with
    | Some p => Some p
    | None => if Py.eqb (tiffs_key tiff) q then Some tiff else None
    end.
Proof.
  unfold moved_to. cbn [rev].
  induction (rev tiff_paths) as [|x l IH]; [reflexivity|].
  cbn [app find]. destruct (Py.eqb (tiffs_key x) q); [reflexivity | exact IH].
Qed.

Lemma moved_to_some (tiff_paths : list pystr) (q p : pystr) :
  moved_to tiff_paths q = Some p -> In p tiff_paths /\ tiffs_key p = q.
Proof.
  intro H. unfold moved_to in H. apply find_some in H as [Hin Heq].
  split; [now apply in_rev in Hin | now apply eqb_eq].
Qed.

Lemma rename_loop (tiff_paths : list pystr) (w : world) :
  Py.startswith analysis_directory (py "/") = true ->
  NoDup tiff_paths ->
  (forall p, In p tiff_paths -> Py.get (disk w) p <> None) ->
  (forall p, In p tiff_paths -> Py.startswith p (py "/") = false) ->
  (forall p q, In p tiff_paths -> In q tiff_paths -> tiffs_key q <> p) ->
  tiffs_in_order (disk w) = true ->
  exists w',
    for_each tiff_paths
      (fun tiff =>
         bind (lift (index_last (Py.split "/"%char tiff)))
           (fun name => os_rename tiff (analysis_directory ++ py "/tiffs/" ++ name)))
      w = (Ok tt, w')
    /\ log w' = log w ++ map (fun p => OsRename p (tiffs_path p)) tiff_paths
    /\ forall q,
         Py.get (disk w') q
         = if Py.mem q tiff_paths then None
           else match moved_to tiff_paths q with
                | Some p => Py.get (disk w) p
                | None => Py.get (disk w) q
                end.
Proof.
  intro Habs.
  revert w. induction tiff_paths as [|p ps IH]; intros w Hnd Hthere Hrel Hfresh Hord.
  - exists w. split; [reflexivity|]. split; [now rewrite app_nil_r | reflexivity].
  - inversion Hnd as [|? ? Hp Hnd']; subst.
    cbn [for_each]. unfold bind at 1. rewrite rename_step.
    destruct (Py.get (disk w) p) as [r|] eqn:Hr;
      [|now destruct (Hthere p (or_introl eq_refl))].
    rewrite (rename_into_tiffs p r w Habs (Hrel p (or_introl eq_refl)) Hr Hord).
    set (w1 := {| disk := Py.set (Py.del (disk w) p) (tiffs_key p) r;
                  log := log w ++ [OsRename p (tiffs_path p)] |}).
    assert (Hkept : forall p', In p' ps -> Py.get (disk w1) p' = Py.get (disk w) p').
    { intros p' Hp'. unfold w1. cbn [disk].
      rewrite get_set_other by (apply Hfresh; [now right | now left]).
      apply get_del_other. intro E. subst p'. contradiction. }
    destruct (IH w1 Hnd') as (w' & Hrun & Hlog & Hdisk).
    + intros p' Hp'. rewrite (Hkept p' Hp'). apply Hthere. now right.
    + intros p' Hp'. apply Hrel. now right.
    + intros p' q Hp' Hq. apply Hfresh; now right.
    + unfold w1. cbn [disk]. apply tiffs_in_order_moved; [exact Hord|].
      apply in_order_tiffs_key.
    + exists w'. split; [exact Hrun|]. split.
      * rewrite Hlog. unfold w1. cbn [log map]. now rewrite <- app_assoc.
      * intro q. rewrite (Hdisk q). cbn [Py.mem existsb].
        fold (Py.mem q ps). rewrite moved_to_longer.
        destruct (Py.mem q ps) eqn:Hmem; [now rewrite orb_true_r|].
        rewrite orb_false_r.
        destruct (moved_to ps q) as [p'|] eqn:Hmoved.
        -- apply moved_to_some in Hmoved as [Hin Hto].
           rewrite (Hkept p' Hin).
           destruct (Py.eqb q p) eqn:E; [|reflexivity].
           apply eqb_eq in E. subst q.
           now destruct (Hfresh p p' (or_introl eq_refl) (or_intror Hin)).
        -- unfold w1. cbn [disk].
           destruct (Py.eqb q p) eqn:E.
           ++ apply eqb_eq in E. subst q.
              rewrite get_set_other
                by (apply Hfresh; now left).
              apply get_del_same.
           ++ apply eqb_neq in E.
              destruct (Py.eqb (tiffs_key p) q) eqn:E'.
              ** apply eqb_eq in E'. subst q. rewrite get_set_same. now rewrite Hr.
              ** apply eqb_neq in E'. rewrite get_set_other by exact E'.
                 apply get_del_other. congruence.
Qed.

Lemma get_filter_keys {V} (f : pystr -> bool) (d : Py.dict V) (q : pystr) :
  Py.get (filter (fun kv => f (fst kv)) d) q = if f q then Py.get d q else None.
Proof.
  induction d as [|[k v] d IH]; cbn [filter Py.get fst].
  - now destruct (f q).
  - destruct (f k) eqn:Hk; cbn [Py.get].
    + destruct (Py.eqb q k) eqn:E; [|exact IH].
      apply eqb_eq in E. subst k. now rewrite Hk.
    + rewrite IH. destruct (Py.eqb q k) eqn:E; [|reflexivity].
      apply eqb_eq in E. subst k. now rewrite Hk.
Qed.

Lemma cell_69_runs (tiff_paths : list pystr) (w w1 : world) :
  for_each tiff_paths
    (fun tiff =>
       bind (lift (index_last (Py.split "/"%char tiff)))
         (fun name => os_rename tiff (analysis_directory ++ py "/tiffs/" ++ name)))
    w = (Ok tt, w1) ->
  cell_69 tiff_paths w
  = (Ok tt,
     {| disk := filter (fun kv => negb (Py.startswith (fst kv) (py "rtc_products/")))
                  (disk w1);
        log := log w1 ++ [Rmtree rtc_path] |}).
Proof.
  intro H. unfold cell_69, bind at 1. rewrite H. reflexivity.
Qed.

Lemma startswith_head (a : ascii) (s rest : pystr) (c : ascii) :
  Py.startswith s (a :: rest) = true -> c <> a -> Py.startswith s [c] = false.
Proof.
  destruct s as [|x s]; [discriminate|]. cbn [Py.startswith].
  intros H Hc. apply andb_true_iff in H as [H _]. apply Ascii.eqb_eq in H. subst x.
  replace (Ascii.eqb c a) with false; [reflexivity|].
  symmetry. apply Ascii.eqb_neq. exact Hc.
Qed.

(** Cell 69 on distinct paths under rtc_products that are all on the disk. *)
Lemma cell_69_moves
  (tiff_paths : list pystr) (w : world) :
  NoDup tiff_paths ->
  (forall p, In p tiff_paths -> Py.get (disk w) p <> None) ->
  (forall p, In p tiff_paths -> Py.startswith p (py "rtc_products/") = true) ->
  Py.startswith analysis_directory (py "/") = true ->
  tiffs_in_order (disk w) = true ->
  exists w',
    cell_69 tiff_paths w = (Ok tt, w')
    /\ gained w w' (map (fun p => OsRename p (tiffs_path p)) tiff_paths
                    ++ [Rmtree rtc_path])
    /\ (forall q, Py.get (disk w') q
                  = if Py.startswith q (py "rtc_products/") then None
                    else match moved_to tiff_paths q with
                         | Some p => Py.get (disk w) p
                         | None => Py.get (disk w) q
                         end)
    /\ (forall p, In p tiff_paths ->
                  (forall q, In q tiff_paths -> basename q = basename p -> q = p) ->
                  Py.get (disk w') (tiffs_key p) = Py.get (disk w) p).
Proof.
  intros Hnd Hthere Hunder Habs Hord.
  assert (Houtside : forall q, Py.startswith (tiffs_key q) (py "rtc_products/") = false)
    by reflexivity.
  assert (Hrel : forall p, In p tiff_paths -> Py.startswith p (py "/") = false).
  { intros p Hp.
    apply (startswith_head "r"%char p (py "tc_products/")); [|discriminate].
    now apply Hunder. }
  assert (Hfresh : forall p q, In p tiff_paths -> In q tiff_paths -> tiffs_key q <> p).
  { intros p q Hp _ E. specialize (Hunder p Hp). rewrite <- E in Hunder.
    rewrite Houtside in Hunder. discriminate. }
  destruct (rename_loop tiff_paths w Habs Hnd Hthere Hrel Hfresh Hord)
    as (w1 & Hrun & Hlog & Hdisk).
  assert (Hall : forall q,
            Py.get (filter (fun kv => negb (Py.startswith (fst kv) (py "rtc_products/")))
                      (disk w1)) q
            = if Py.startswith q (py "rtc_products/") then None
              else match moved_to tiff_paths q with
                   | Some p => Py.get (disk w) p
                   | None => Py.get (disk w) q
                   end).
  { intro q.
    rewrite (get_filter_keys (fun k => negb (Py.startswith k (py "rtc_products/")))).
    destruct (Py.startswith q (py "rtc_products/")) eqn:Hq; [reflexivity|].
    cbn [negb]. rewrite (Hdisk q).
    destruct (Py.mem q tiff_paths) eqn:Hmem; [|reflexivity].
    apply mem_in in Hmem. apply Hunder in Hmem. congruence. }
  eexists. split; [exact (cell_69_runs tiff_paths w w1 Hrun)|]. cbn [disk log].
  split; [|split; [exact Hall|]].
  - unfold gained. cbn [log]. rewrite Hlog. now rewrite <- app_assoc.
  - intros p Hp Hsole. rewrite Hall, Houtside.
    destruct (moved_to tiff_paths (tiffs_key p)) as [p'|] eqn:Hmoved.
    + apply moved_to_some in Hmoved as [Hin Hto].
      unfold tiffs_key in Hto. apply app_inv_head in Hto.
      now rewrite (Hsole p' Hin Hto).
    + exfalso. unfold moved_to in Hmoved.
      assert (Hin : In p (rev tiff_paths)) by now apply in_rev in Hp.
      pose proof (find_none _ _ Hmoved p Hin) as Hno. cbn beta in Hno.
      now rewrite eqb_refl in Hno.
Qed.

Lemma glob_under_rtc_products (p0 : ascii) (p : pystr) :
  p0 <> "/"%char -> Glob.matches (tiff_pth_of p0) p = true ->
  Py.startswith p (py "rtc_products/") = true.
Proof.
  intros Hslash H. unfold Glob.matches in H.
  rewrite (tiff_pth_pieces p0 Hslash) in H.
  pose proof (join_split "/"%char p) as Hjoin.
  destruct (Py.split "/"%char p) as [|x [|y [|z [|extra more]]]];
    cbn [Glob.pieces] in H; try discriminate H;
    try (repeat (apply andb_true_iff in H as [_ H]); discriminate H).
  apply andb_true_iff in H as [Hx _]. unfold Glob.piece in Hx.
  destruct x as [|x0 x]; [discriminate Hx|].
  apply andb_true_iff in Hx as [Hx _].
  apply fnmatch_plain in Hx; [|reflexivity].
  rewrite <- Hjoin, <- Hx. destruct y; reflexivity.
Qed.

(** X13: cell 69 runs to its end on the paths cell 65 has collected, when
    no path is on the disk twice, the analysis directory is absolute and
    what the disk holds under the name tiffs are regular files of the
    folder tiffs: one os.rename per path, in order, then the removal of
    rtc_products.  The disk is keyed by the paths as seen from the
    analysis directory, so the path [<analysis directory>/tiffs/<base
    name>], which cell 69 writes, is the file [tiffs/<base name>].
    Afterwards no file is left under rtc_products; the file
    [tiffs/<base name>] holds the raster of the last collected path that
    has this base name (what was there before, be it an older file of the
    folder tiffs or an earlier path with the same base name, is replaced),
    so a path whose base name no other collected path shares keeps its
    raster there; every other file outside rtc_products is as it was. *)
Theorem finalizer_moves_the_rasters_and_removes_rtc_products
  (regex : Re.rx) (p0 : ascii) (w : world) :
  Re.word p0 = true ->
  NoDup (Py.keys (disk w)) ->
  Py.startswith analysis_directory (py "/") = true ->
  tiffs_in_order (disk w) = true ->
  let tiff_paths := collected regex (tiff_pth_of p0) w in
  exists w',
    cell_69 tiff_paths w = (Ok tt, w')
    /\ gained w w' (map (fun p => OsRename p (tiffs_path p)) tiff_paths
                    ++ [Rmtree rtc_path])
    /\ (forall q, Py.get (disk w') q
                  = if Py.startswith q (py "rtc_products/") then None
                    else match moved_to tiff_paths q with
                         | Some p => Py.get (disk w) p
                         | None => Py.get (disk w) q
                         end)
    /\ (forall p, In p tiff_paths ->
                  (forall q, In q tiff_paths -> basename q = basename p -> q = p) ->
                  Py.get (disk w') (tiffs_key p) = Py.get (disk w) p).
Proof.
  intros Hword Hnd Habs Hord tiff_paths.
  destruct (word_is_no_mark p0 Hword) as (Hslash & _).
  assert (Hfound : forall p, In p tiff_paths ->
            In p (Py.keys (disk w)) /\ Glob.matches (tiff_pth_of p0) p = true).
  { intros p Hp. unfold tiff_paths, collected in Hp.
    apply filter_In in Hp as [Hp _]. now apply filter_In in Hp. }
  apply cell_69_moves.
  - unfold tiff_paths, collected. now repeat apply NoDup_filter.
  - intros p Hp. apply in_keys_get. now apply Hfound.
  - intros p Hp. apply (glob_under_rtc_products p0 p Hslash). now apply Hfound.
  - exact Habs.
  - exact Hord.
Qed.

(** X14: a second run of cell 69 over the same paths stops at its first
    path with OSError and changes nothing: the first run has removed
    every file under rtc_products, so the file to rename is not there. *)
Theorem finalizer_cannot_be_run_twice
  (tiff : pystr) (tiff_paths : list pystr) (w w' : world) :
  Py.startswith tiff (py "rtc_products/") = true ->
  cell_69 (tiff :: tiff_paths) w = (Ok tt, w') ->
  (forall q, Py.startswith q (py "rtc_products/") = true ->
             Py.get (disk w') q = None)
  /\ cell_69 (tiff :: tiff_paths) w' = (Raise OSError, w').
Proof.
  intros Hunder Hrun.
  assert (Hgone : forall q, Py.startswith q (py "rtc_products/") = true ->
                            Py.get (disk w') q = None).
  { intros q Hq. unfold cell_69, bind at 1 in Hrun.
    match type of Hrun with
    | context [for_each ?xs ?body w] =>
        destruct (for_each xs body w) as [[[]|e] w1]; [|discriminate Hrun]
    end.
    unfold rmtree, doing, did in Hrun. injection Hrun as <-. cbn [disk].
    rewrite (get_filter_keys (fun k => negb (Py.startswith k (rtc_path ++ py "/")))).
    change (rtc_path ++ py "/") with (py "rtc_products/"). now rewrite Hq. }
  split; [exact Hgone|].
  unfold cell_69, bind at 1. cbn [for_each]. unfold bind at 1.
  rewrite rename_step. rewrite os_rename_gone; [reflexivity | | exact (Hgone tiff Hunder)].
  apply (startswith_head "r"%char tiff (py "tc_products/")); [exact Hunder | discriminate].
Qed.

(** *** Cells 59 and 61: the strings of paths *)

Lemma forall2_nth {A B} (R : A -> B -> Prop) (xs : list A) (ys : list B) :
  Forall2 R xs ys ->
  length ys = length xs
  /\ forall i x, nth_error xs i = Some x ->
                 exists y, nth_error ys i = Some y /\ R x y.
Proof.
  induction 1 as [|x y xs ys Hxy Hrest [IHlen IH]].
  - split; [reflexivity|]. intros [|i] x H; discriminate H.
  - split; [cbn; now rewrite IHlen|].
    intros [|i] x' H; cbn [nth_error] in *.
    + injection H as <-. now exists y.
    + now apply IH.
Qed.

(** X15: cells 59 and 61 together, on a stack whose paths all bear a time
    stamp, build one dictionary per channel of the selection.  Its keys
    are the merge candidate dates, the dates that more than one collected
    raster bears when the rasters of all channels are counted; the value
    of a date is the string of the channel's own rasters of that date, in
    the order of the glob, each with a blank before it.  The disk is only
    read. *)
Theorem cell_61_lists_the_rasters_of_every_candidate_date_by_channel
  (regex : Re.rx) (polarization : pystr) (dbl_polar : bool) (tiff_pth : pystr)
  (polar_list : list pystr) (w : world) :
  (forall xs x, In x (set_of xs) <-> In x xs) ->
  polar_list_of polarization dbl_polar = Ok polar_list ->
  (forall p, In p (Py.keys (disk w)) -> Glob.matches tiff_pth p = true ->
             date_from_product_name p <> None) ->
  exists dates filled,
    get_dates (collected regex tiff_pth w) = Ok dates
    /\ cell_61 polarization dbl_polar tiff_pth
         (cell_59 (set_of dates) dates dbl_polar) w = (Ok (polar_list, filled), w)
    /\ length filled = length polar_list
    /\ forall i polar,
         nth_error polar_list i = Some polar ->
         exists batch,
           nth_error filled i = Some batch
           /\ forall d,
                Py.get batch d
                = if candidate regex tiff_pth d w
                  then Some (paths_string (rasters_of tiff_pth polar d w))
                  else None.
Proof.
  intros Hset Epl Hstamps.
  destruct (cells_59_61 regex polarization dbl_polar tiff_pth polar_list w
              Hset Epl Hstamps)
    as (dates & b0 & filled & Edates & E59 & E61 & Hkeys & Hshape & Hfilled).
  exists dates, filled. split; [exact Edates|]. rewrite E59. split; [exact E61|].
  destruct (forall2_nth _ _ _ Hfilled) as [Hlen Hnth].
  split; [exact Hlen|]. intros i polar Hi.
  destruct (Hnth i polar Hi) as (batch & Hbatch & Hsame & Hvalues).
  exists batch. split; [exact Hbatch|]. intro d.
  destruct (candidate regex tiff_pth d w) eqn:Hc.
  - apply Hkeys in Hc. apply in_keys_get in Hc.
    destruct (Py.get b0 d) as [v|] eqn:Hv; [|now destruct Hc].
    rewrite (Hvalues d v Hv), (Hshape d v Hv).
    unfold rasters_of. now rewrite paths_string_concat.
  - destruct (Py.get batch d) as [v|] eqn:Hv; [|reflexivity].
    assert (Hin : In d (Py.keys batch)) by now apply get_in_keys with v.
    rewrite Hsame in Hin. apply Hkeys in Hin. congruence.
Qed.

(** *** Cells 38 and 61: what the patterns accept *)

Lemma eat_spec (p r r' : pystr) : Re.eat p r = Some r' <-> r = p ++ r'.
Proof.
  revert r; induction p as [|x p IH]; intro r; cbn [Re.eat app].
  - split; congruence.
  - destruct r as [|c r]; [split; discriminate|].
    destruct (Ascii.eqb x c) eqn:E.
    + apply Ascii.eqb_eq in E. subst c. rewrite IH. split; congruence.
    + apply Ascii.eqb_neq in E. split; [discriminate | congruence].
Qed.

Lemma denotes_chr (f : ascii -> bool) :
  denotes (Re.chr f) (fun m => exists c, m = [c] /\ f c = true).
Proof.
  intros r y. unfold Re.chr. split.
  - destruct r as [|c r]; [intros []|].
    destruct (f c) eqn:E; [|intros []]. intros [<-|[]].
    exists [c]. split; [now exists c | reflexivity].
  - intros (m & (c & -> & Hc) & ->). cbn [rev app]. rewrite Hc. now left.
Qed.

Lemma denotes_lit (p : pystr) : denotes (Re.lit p) (fun m => m = p).
Proof.
  intros r y. unfold Re.lit. split.
  - destruct (Re.eat (rev p) r) as [r'|] eqn:E; [|intros []]. intros [<-|[]].
    apply eat_spec in E. now exists p.
  - intros (m & -> & ->).
    assert (E : Re.eat (rev p) (rev p ++ y) = Some y) by now apply eat_spec.
    rewrite E. now left.
Qed.

Lemma denotes_alt (a b : Re.rx) (La Lb : pystr -> Prop) :
  denotes a La -> denotes b Lb -> denotes (Re.alt a b) (fun m => La m \/ Lb m).
Proof.
  intros Ha Hb r y. unfold Re.alt. rewrite in_app_iff, (Ha r y), (Hb r y). split.
  - intros [(m & H & E)|(m & H & E)]; exists m; auto.
  - intros (m & [H|H] & E); [left | right]; now exists m.
Qed.

Lemma denotes_cat (a b : Re.rx) (La Lb : pystr -> Prop) :
  denotes a La -> denotes b Lb ->
  denotes (Re.cat a b) (fun m => exists ma mb, m = ma ++ mb /\ La ma /\ Lb mb).
Proof.
  intros Ha Hb r y. unfold Re.cat. rewrite in_flat_map. split.
  - intros (t & Ht & Hy). apply Hb in Ht as (mb & Hmb & ->).
    apply Ha in Hy as (ma & Hma & ->).
    exists (ma ++ mb). split; [now exists ma, mb|].
    now rewrite rev_app_distr, app_assoc.
  - intros (m & (ma & mb & -> & Hma & Hmb) & ->).
    exists (rev ma ++ y). split.
    + apply Hb. exists mb. split; [exact Hmb|].
      now rewrite rev_app_distr, app_assoc.
    + apply Ha. now exists ma.
Qed.

Lemma denotes_rep (f : ascii -> bool) (lo hi : nat) :
  denotes (Re.rep f lo hi)
    (fun m => lo <= length m <= hi /\ forallb f m = true).
Proof.
  revert lo; induction hi as [|hi IH]; intros lo r y.
  - cbn [Re.rep]. rewrite app_nil_r. split.
    + destruct (lo =? 0) eqn:E; [|intros []]. intros [<-|[]].
      apply Nat.eqb_eq in E. exists []. repeat split; cbn; lia.
    + intros (m & ((Hlo & Hhi) & _) & ->).
      destruct m; [|cbn in Hhi; lia]. cbn in Hlo.
      replace (lo =? 0) with true by (symmetry; apply Nat.eqb_eq; lia).
      now left.
  - cbn [Re.rep]. rewrite in_app_iff. split.
    + intros [H|H].
      * destruct (lo =? 0) eqn:E; [|destruct H]. destruct H as [<-|[]].
        apply Nat.eqb_eq in E. exists []. repeat split; cbn; lia.
      * destruct r as [|c r]; [destruct H|].
        destruct (f c) eqn:Hc; [|destruct H].
        apply IH in H as (m & ((Hlo & Hhi) & Hall) & ->).
        exists (m ++ [c]). rewrite length_app, forallb_app, rev_app_distr.
        cbn [length forallb rev app]. rewrite Hall, Hc.
        repeat split; lia.
    + intros (m & ((Hlo & Hhi) & Hall) & ->).
      destruct (rev m) as [|c t] eqn:E.
      * left. apply (f_equal (@rev ascii)) in E. rewrite rev_involutive in E.
        subst m. cbn in Hlo.
        replace (lo =? 0) with true by (symmetry; apply Nat.eqb_eq; lia).
        now left.
      * right. apply (f_equal (@rev ascii)) in E. rewrite rev_involutive in E.
        subst m. cbn [rev] in Hall, Hlo, Hhi.
        rewrite forallb_app in Hall. apply andb_true_iff in Hall as [Ht Hc].
        cbn [forallb] in Hc. rewrite andb_true_r in Hc.
        rewrite length_app in Hlo, Hhi. cbn [length] in Hlo, Hhi.
        cbn [app]. rewrite Hc. apply IH. exists (rev t).
        rewrite rev_involutive. repeat split; [lia | lia | exact Ht].
Qed.

Lemma denotes_dollar : denotes Re.dollar (fun m => m = [] \/ m = [newline_char]).
Proof.
  intros r y. unfold Re.dollar. split.
  - intros [<-|H]; [exists []; split; [now left | reflexivity]|].
    destruct r as [|c r]; [destruct H|].
    destruct (Re.newline c) eqn:E; [|destruct H]. destruct H as [<-|[]].
    unfold Re.newline in E. apply Nat.eqb_eq in E.
    exists [newline_char]. split; [now right|]. cbn [rev app]. f_equal.
    apply nat_of_ascii_inj. exact E.
  - intros (m & [->| ->] & ->); [now left|]. right. cbn. now left.
Qed.

Lemma denotes_search (p : Re.rx) (L : pystr -> Prop) (s : pystr) :
  denotes p L ->
  (Re.search p s = true <-> exists pre m, L m /\ s = pre ++ m).
Proof.
  intro H. rewrite search_true. split.
  - intros (y & Hy). apply H in Hy as (m & Hm & E).
    exists (rev y), m. split; [exact Hm|].
    apply (f_equal (@rev ascii)) in E.
    now rewrite rev_involutive, rev_app_distr, rev_involutive in E.
  - intros (pre & m & Hm & ->). exists (rev pre). apply H. exists m.
    split; [exact Hm | apply rev_app_distr].
Qed.

Lemma denotes_tail :
  denotes (Re.cat (Re.chr Re.dot) (Re.cat Re.tif_tiff Re.dollar))
    (fun m => exists any ext nl, m = any :: ext ++ nl /\ tif_ending any ext nl).
Proof.
  intros r y.
  rewrite (denotes_cat _ _ _ _ (denotes_chr Re.dot)
             (denotes_cat _ _ _ _
                (denotes_alt _ _ _ _ (denotes_lit (py "tif")) (denotes_lit (py "tiff")))
                denotes_dollar) r y).
  split.
  - intros (m & (ma & mb & -> & (any & -> & Hany) & (ext & nl & -> & Hext & Hnl)) & ->).
    eexists. split; [|reflexivity]. exists any, ext, nl. repeat split; assumption.
  - intros (m & (any & ext & nl & -> & Hany & Hext & Hnl) & ->).
    eexists. split; [|reflexivity].
    exists [any], (ext ++ nl). split; [reflexivity|]. split; [now exists any|].
    now exists ext, nl.
Qed.

(** *** Dual-channel mode: the channels counted *)

Lemma single_ends (polarization s : pystr) :
  Re.search (Re.single polarization) s = true ->
  exists pre any ext nl,
    s = pre ++ polarization ++ any :: ext ++ nl /\ tif_ending any ext nl.
Proof.
  unfold Re.single, Re.sep.
  rewrite (denotes_search _ _ s
             (denotes_cat _ _ _ _ (denotes_chr Re.word)
                (denotes_cat _ _ _ _ (denotes_rep Re.dash_tilde 5 300)
                   (denotes_cat _ _ _ _
                      (denotes_alt _ _ _ _ (denotes_lit (py "_")) (denotes_lit (py "-")))
                      (denotes_cat _ _ _ _ (denotes_lit polarization) denotes_tail))))).
  intros (pre & m & (m1 & m2 & -> & _
                     & (mid & m3 & -> & _
                        & (m4 & m5 & -> & _
                           & (m6 & m7 & -> & -> & (any & ext & nl & -> & Hend))))) & ->).
  exists (pre ++ m1 ++ mid ++ m4), any, ext, nl. split; [|exact Hend].
  now repeat rewrite <- app_assoc.
Qed.

(** A text ends in one way only as the patterns want it. *)
Lemma tif_ending_unique (a a' ext nl ext' nl' : pystr) :
  (ext = py "tif" \/ ext = py "tiff") -> (nl = [] \/ nl = [newline_char]) ->
  (ext' = py "tif" \/ ext' = py "tiff") -> (nl' = [] \/ nl' = [newline_char]) ->
  a ++ ext ++ nl = a' ++ ext' ++ nl' -> a = a'.
Proof.
  intros He Hn He' Hn' E. apply (f_equal (@rev ascii)) in E.
  rewrite !rev_app_distr in E.
  assert (H : rev a = rev a').
  { destruct He as [->| ->], Hn as [->| ->], He' as [->| ->], Hn' as [->| ->];
      cbn in E; congruence. }
  apply (f_equal (@rev ascii)) in H. now rewrite !rev_involutive in H.
Qed.

(** No text belongs to two channels with the same first letter. *)
Lemma single_channel_unique (p0 x1 x2 : ascii) (s : pystr) :
  Re.search (Re.single [p0; x1]) s = true ->
  Re.search (Re.single [p0; x2]) s = true -> x1 = x2.
Proof.
  intros H1 H2.
  apply single_ends in H1 as (pre1 & any1 & ext1 & nl1 & E1 & _ & He1 & Hn1).
  apply single_ends in H2 as (pre2 & any2 & ext2 & nl2 & E2 & _ & He2 & Hn2).
  rewrite E1 in E2.
  assert (E : pre1 ++ [p0; x1; any1] = pre2 ++ [p0; x2; any2]).
  { apply (tif_ending_unique _ _ ext1 nl1 ext2 nl2); try assumption.
    repeat rewrite <- app_assoc. exact E2. }
  apply (f_equal (@rev ascii)) in E. rewrite !rev_app_distr in E.
  cbn in E. congruence.
Qed.

Lemma length_filter_split {A} (g f fa fb : A -> bool) (l : list A) :
  (forall x, In x l -> f x = fa x || fb x) ->
  (forall x, In x l -> fa x && fb x = false) ->
  length (filter g (filter f l))
  = length (filter g (filter fa l)) + length (filter g (filter fb l)).
Proof.
  induction l as [|x l IH]; intros Hf Hab; [reflexivity|].
  specialize (IH (fun y Hy => Hf y (or_intror Hy)) (fun y Hy => Hab y (or_intror Hy))).
  pose proof (Hf x (or_introl eq_refl)) as Hx.
  pose proof (Hab x (or_introl eq_refl)) as Hx'.
  cbn [filter]. rewrite Hx.
  destruct (fa x), (fb x); try discriminate Hx'; cbn [orb filter];
    destruct (g x); cbn [length]; lia.
Qed.

(** In dual-channel mode over the files of two channels that begin with
    the first letter of the selection, the files of a date that are
    collected are those of the one channel and those of the other. *)
Lemma dual_channel_sum (p0 x1 x2 : ascii) (w : world) (d : pystr) :
  In x1 (py "vVhH") -> In x2 (py "vVhH") -> x1 <> x2 ->
  forallb (fun p => Re.search (Re.single [p0; x1]) p
                    || Re.search (Re.single [p0; x2]) p)
    (collected (Re.double p0) (tiff_pth_of p0) w) = true ->
  length (filter (has_date d) (collected (Re.double p0) (tiff_pth_of p0) w))
  = length (filter (has_date d) (collected (Re.single [p0; x1]) (tiff_pth_of p0) w))
    + length (filter (has_date d) (collected (Re.single [p0; x2]) (tiff_pth_of p0) w)).
Proof.
  intros Hx1 Hx2 Hne Hall. unfold collected in *. rewrite forallb_forall in Hall.
  apply length_filter_split.
  - intros p Hp. destruct (Re.search (Re.double p0) p) eqn:Hd.
    + symmetry. apply Hall. apply filter_In. now split.
    + rewrite double_is_either_channel in Hd.
      symmetry. apply orb_false_iff. split.
      * destruct (Re.search (Re.single [p0; x1]) p) eqn:E; [|reflexivity].
        rewrite <- Hd. symmetry. apply existsb_exists. now exists x1.
      * destruct (Re.search (Re.single [p0; x2]) p) eqn:E; [|reflexivity].
        rewrite <- Hd. symmetry. apply existsb_exists. now exists x2.
  - intros p _.
    destruct (Re.search (Re.single [p0; x1]) p) eqn:E1; [|reflexivity].
    destruct (Re.search (Re.single [p0; x2]) p) eqn:E2; [|reflexivity].
    now destruct (Hne (single_channel_unique p0 x1 x2 p E1 E2)).
Qed.

(** X16: the single-channel pattern of cell 38 accepts exactly the texts
    that end in a word character, five to three hundred characters between
    [-] and [~], an underscore or a hyphen, the selected channel, one
    character that is no newline (the dot of the pattern stands for any),
    [tif] or [tiff] and perhaps one newline. *)
Theorem single_channel_pattern_accepts (polarization s : pystr) :
  Re.search (Re.single polarization) s = true
  <-> exists pre w mid sep any ext nl,
        s = pre ++ w :: mid ++ sep :: polarization ++ any :: ext ++ nl
        /\ Re.word w = true
        /\ 5 <= length mid <= 300 /\ forallb Re.dash_tilde mid = true
        /\ (sep = "_"%char \/ sep = "-"%char)
        /\ tif_ending any ext nl.
Proof.
  unfold Re.single, Re.sep.
  rewrite (denotes_search _ _ s
             (denotes_cat _ _ _ _ (denotes_chr Re.word)
                (denotes_cat _ _ _ _ (denotes_rep Re.dash_tilde 5 300)
                   (denotes_cat _ _ _ _
                      (denotes_alt _ _ _ _ (denotes_lit (py "_")) (denotes_lit (py "-")))
                      (denotes_cat _ _ _ _ (denotes_lit polarization) denotes_tail))))).
  split.
  - intros (pre & m & (m1 & m2 & -> & (w & -> & Hw)
                       & (mid & m3 & -> & (Hlen & Hmid)
                          & (m4 & m5 & -> & Hsep
                             & (m6 & m7 & -> & -> & (any & ext & nl & -> & Hend))))) & ->).
    assert (Hs : exists sep, m4 = [sep] /\ (sep = "_"%char \/ sep = "-"%char)).
    { destruct Hsep as [->| ->]; eexists; split; try reflexivity; auto. }
    destruct Hs as (sep & -> & Hs).
    exists pre, w, mid, sep, any, ext, nl.
    split; [reflexivity|]. split; [exact Hw|]. split; [exact Hlen|].
    split; [exact Hmid|]. split; [exact Hs | exact Hend].
  - intros (pre & w & mid & sep & any & ext & nl & -> & Hw & Hlen & Hmid & Hsep & Hend).
    exists pre. eexists. split; [|reflexivity].
    exists [w]. eexists. split; [reflexivity|]. split; [now exists w|].
    exists mid. eexists. split; [reflexivity|]. split; [now split|].
    exists [sep]. eexists. split; [reflexivity|].
    split; [destruct Hsep as [->| ->]; auto|].
    exists polarization. eexists. split; [reflexivity|]. split; [reflexivity|].
    now exists any, ext, nl.
Qed.

Lemma denotes_star (f : ascii -> bool) :
  denotes (Re.star f) (fun m => forallb f m = true).
Proof.
  intros r y. split.
  - revert y. induction r as [|c r IH]; intros y H; cbn [Re.star] in H.
    + destruct H as [<-|[]]. now exists [].
    + destruct H as [<-|H]; [now exists []|].
      destruct (f c) eqn:Hc; [|destruct H].
      apply IH in H as (m & Hm & ->).
      exists (m ++ [c]). rewrite forallb_app, rev_app_distr. cbn [forallb rev app].
      now rewrite Hm, Hc.
  - intros (m & Hm & ->). revert Hm.
    induction m as [|c m IH] using rev_ind; intro Hm.
    + cbn [rev app]. destruct y; now left.
    + rewrite forallb_app in Hm. apply andb_true_iff in Hm as [Hm Hc].
      cbn [forallb] in Hc. rewrite andb_true_r in Hc.
      rewrite rev_app_distr. cbn [rev app Re.star]. right. rewrite Hc. now apply IH.
Qed.

(** X17: the channel pattern of cell 61 accepts exactly the texts that end
    in an underscore, the channel, one character that is no newline, [tif]
    or [tiff] and perhaps one newline: the group in front of the
    underscore may match nothing, so it asks for nothing. *)
Theorem channel_pattern_accepts (polar s : pystr) :
  Re.search (Re.polar_regex polar) s = true
  <-> exists pre any ext nl,
        s = pre ++ "_"%char :: polar ++ any :: ext ++ nl
        /\ tif_ending any ext nl.
Proof.
  unfold Re.polar_regex.
  rewrite (denotes_search _ _ s
             (denotes_cat _ _ _ _
                (denotes_star (fun c => Re.word c || Ascii.eqb c "/"%char))
                (denotes_cat _ _ _ _ (denotes_lit (py "_"))
                   (denotes_cat _ _ _ _ (denotes_lit polar) denotes_tail)))).
  split.
  - intros (pre & m & (m1 & m2 & -> & _
                       & (m3 & m4 & -> & ->
                          & (m5 & m6 & -> & -> & (any & ext & nl & -> & Hend)))) & ->).
    exists (pre ++ m1), any, ext, nl. split; [|exact Hend].
    now rewrite <- app_assoc.
  - intros (pre & any & ext & nl & -> & Hend).
    exists pre. eexists. split; [|reflexivity].
    exists []. eexists. split; [reflexivity|]. split; [reflexivity|].
    exists (py "_"). eexists. split; [reflexivity|]. split; [reflexivity|].
    exists polar. eexists. split; [reflexivity|]. split; [reflexivity|].
    now exists any, ext, nl.
Qed.

(** X18: for a selection that is not two characters long, cell 38 turns
    to dual-channel mode and builds its pattern from the first character
    of the selection alone: the pattern accepts the texts that end as the
    single-channel pattern wants them, with that character and one of v,
    V, h and H in the place of the channel.  The rest of the selection
    plays no part in it. *)
Theorem dual_channel_pattern_looks_at_the_first_letter_only
  (polarization : pystr) (p0 : ascii) (rest : pystr) :
  polarization = p0 :: rest -> length polarization <> 2 ->
  exists regex,
    cell_38 polarization = Ok (regex, true)
    /\ forall s,
         Re.search regex s = true
         <-> exists pre w mid sep x any ext nl,
               s = pre ++ w :: mid ++ sep :: p0 :: x :: any :: ext ++ nl
               /\ Re.word w = true
               /\ 5 <= length mid <= 300 /\ forallb Re.dash_tilde mid = true
               /\ (sep = "_"%char \/ sep = "-"%char)
               /\ In x (py "vVhH")
               /\ tif_ending any ext nl.
Proof.
  intros -> Hlen. exists (Re.double p0). split.
  - unfold cell_38. apply Nat.eqb_neq in Hlen. now rewrite Hlen.
  - intro s. unfold Re.double, Re.sep.
    rewrite (denotes_search _ _ s
               (denotes_cat _ _ _ _ (denotes_chr Re.word)
                  (denotes_cat _ _ _ _ (denotes_rep Re.dash_tilde 5 300)
                     (denotes_cat _ _ _ _
                        (denotes_alt _ _ _ _ (denotes_lit (py "_")) (denotes_lit (py "-")))
                        (denotes_cat _ _ _ _ (denotes_lit [p0])
                           (denotes_cat _ _ _ _
                              (denotes_alt _ _ _ _ (denotes_lit (py "v"))
                                 (denotes_alt _ _ _ _ (denotes_lit (py "V"))
                                    (denotes_alt _ _ _ _ (denotes_lit (py "h"))
                                       (denotes_lit (py "H")))))
                              denotes_tail)))))).
    split.
    + intros (pre & m & (m1 & m2 & -> & (w & -> & Hw)
                         & (mid & m3 & -> & (Hlo & Hmid)
                            & (m4 & m5 & -> & Hsep
                               & (m6 & m7 & -> & ->
                                  & (m8 & m9 & -> & Hx
                                     & (any & ext & nl & -> & Hend)))))) & ->).
      assert (Hs : exists sep, m4 = [sep] /\ (sep = "_"%char \/ sep = "-"%char)).
      { destruct Hsep as [->| ->]; eexists; split; try reflexivity; auto. }
      destruct Hs as (sep & -> & Hs).
      assert (Hx' : exists x, m8 = [x] /\ In x (py "vVhH")).
      { destruct Hx as [->|[->|[->| ->]]]; eexists; split; try reflexivity;
          cbn; auto. }
      destruct Hx' as (x & -> & Hx').
      exists pre, w, mid, sep, x, any, ext, nl.
      split; [reflexivity|]. split; [exact Hw|]. split; [exact Hlo|].
      split; [exact Hmid|]. split; [exact Hs|]. split; [exact Hx' | exact Hend].
    + intros (pre & w & mid & sep & x & any & ext & nl
              & -> & Hw & Hlo & Hmid & Hsep & Hx & Hend).
      exists pre. eexists. split; [|reflexivity].
      exists [w]. eexists. split; [reflexivity|]. split; [now exists w|].
      exists mid. eexists. split; [reflexivity|]. split; [now split|].
      exists [sep]. eexists. split; [reflexivity|].
      split; [destruct Hsep as [->| ->]; auto|].
      exists [p0]. eexists. split; [reflexivity|]. split; [reflexivity|].
      exists [x]. eexists. split; [reflexivity|]. split.
      * cbn in Hx. destruct Hx as [<-|[<-|[<-|[<-|[]]]]]; auto.
      * now exists any, ext, nl.
Qed.

(** *** Cells 6 and 8: the working directory *)

Lemma cell_6_step (a : answer) (rest : list answer) (here : Py.dict entry) :
  cell_6 (a :: rest) here
  = if asks_again here a then cell_6 rest here else cell_6 [a] here.
Proof.
  unfold asks_again. cbn [cell_6].
  destruct (Py.get here (text (typed a))) as [e|]; [|reflexivity].
  destruct (0 <? length (contents_of e)); [|reflexivity].
  destruct (old_data a =? 1); [reflexivity|].
  destruct (old_data a =? 2); reflexivity.
Qed.

Lemma cell_6_round (a : answer) (here : Py.dict entry) :
  asks_again here a = false ->
  exists here',
    cell_6 [a] here = Some (typed a, here')
    /\ (forall name, name <> text (typed a) -> Py.get here' name = Py.get here name)
    /\ Py.get here' (text (typed a))
       = match Py.get here (text (typed a)) with
         | None => Some (Dir [])
         | Some e =>
             if (0 <? length (contents_of e)) && (old_data a =? 1)
             then Some (Dir []) else Some e
         end
    /\ (Py.get here (text (typed a)) = Some File -> here' = here).
Proof.
  unfold asks_again. cbn [cell_6].
  destruct (Py.get here (text (typed a))) as [e|] eqn:He.
  - destruct (0 <? length (contents_of e)) eqn:Hc; cbn [andb].
    + destruct (old_data a =? 1) eqn:H1; cbn [negb andb].
      * intros _. eexists. split; [reflexivity|]. split; [|split].
        -- intros name Hn. rewrite get_set_other by congruence.
           apply get_del_other. congruence.
        -- apply get_set_same.
        -- intro E. injection E as ->. discriminate Hc.
      * destruct (old_data a =? 2); [|discriminate].
        intros _. exists here. repeat split. exact He.
    + intros _. exists here. repeat split. exact He.
  - intros _. eexists. split; [reflexivity|]. split; [|split].
    + intros name Hn. apply get_set_other. congruence.
    + apply get_set_same.
    + discriminate.
Qed.

(** X19: the names typed being plain names of entries of the current
    directory, the loop of cell 6 goes on exactly as long as the name
    typed is that of a directory in which the glob lists something and the
    choice about the old data is neither 1 nor 2; in these rounds nothing
    is changed.  It ends at the first other round, with the name typed
    there and with what that round alone does, and it is still asking
    when all rounds were of the first kind. *)
Theorem cell_6_ends_at_the_first_decisive_round
  (answers : list answer) (here : Py.dict entry) :
  (cell_6 answers here = None <-> forallb (asks_again here) answers = true)
  /\ forall skipped a rest,
       answers = skipped ++ a :: rest ->
       forallb (asks_again here) skipped = true -> asks_again here a = false ->
       plain (text (typed a)) = true
       /\ exists here', cell_6 answers here = Some (typed a, here')
                        /\ cell_6 [a] here = Some (typed a, here').
Proof.
  split.
  - induction answers as [|a rest IH]; [split; reflexivity|].
    rewrite cell_6_step. cbn [forallb].
    destruct (asks_again here a) eqn:E; [exact IH|].
    destruct (cell_6_round a here E) as (here' & -> & _).
    split; discriminate.
  - intros skipped a rest -> Hskipped Ha. split; [apply text_is_plain|].
    destruct (cell_6_round a here Ha) as (here' & Hone & _).
    exists here'. split; [|exact Hone].
    induction skipped as [|b skipped IH]; cbn [app]; rewrite cell_6_step.
    + now rewrite Ha.
    + cbn [forallb] in Hskipped. apply andb_true_iff in Hskipped as [-> Hskipped].
      now apply IH.
Qed.

(** X20: the names typed being plain names of entries of the current
    directory, when cell 6 ends, the entry of the name it returns is there
    and every other entry is as it was.  The entry is a new, empty
    directory when the name was free, or when the glob listed something in
    it and the choice of that round was 1; it is left as it was in every
    other case: when the choice was 2, and when the glob listed nothing,
    be it in an empty directory, in a directory that holds only names
    beginning with a dot, or for a regular file.  Cell 8 then enters the
    directory, and raises exactly when the name is that of a regular
    file. *)
Theorem cell_6_returns_a_name_that_is_there
  (answers : list answer) (here here' : Py.dict entry) (data_dir : entry_name)
  (getcwd : pystr) :
  cell_6 answers here = Some (data_dir, here') ->
  exists skipped a rest,
    answers = skipped ++ a :: rest
    /\ forallb (asks_again here) skipped = true
    /\ asks_again here a = false
    /\ typed a = data_dir
    /\ plain (text data_dir) = true
    /\ (forall name, name <> text data_dir -> Py.get here' name = Py.get here name)
    /\ Py.get here' (text data_dir)
       = match Py.get here (text data_dir) with
         | None => Some (Dir [])
         | Some e =>
             if (0 <? length (contents_of e)) && (old_data a =? 1)
             then Some (Dir []) else Some e
         end
    /\ (Py.get here (text data_dir) <> Some File ->
        cell_8 getcwd data_dir here' = Ok (getcwd ++ py "/" ++ text data_dir))
    /\ (Py.get here (text data_dir) = Some File ->
        here' = here /\ cell_8 getcwd data_dir here' = Raise OSError).
Proof.
  induction answers as [|a rest IH]; intro H; [discriminate H|].
  rewrite cell_6_step in H. destruct (asks_again here a) eqn:Ha.
  - destruct (IH H) as (skipped & a' & rest' & -> & Hskipped & Hrest).
    exists (a :: skipped), a', rest'. split; [reflexivity|].
    split; [cbn [forallb]; now rewrite Ha|]. exact Hrest.
  - destruct (cell_6_round a here Ha) as (w & Hrun & Hother & Hentry & Hfile).
    rewrite Hrun in H. injection H as <- <-.
    exists [], a, rest. split; [reflexivity|]. split; [reflexivity|].
    split; [exact Ha|]. split; [reflexivity|]. split; [apply text_is_plain|].
    split; [exact Hother|]. split; [exact Hentry|]. split.
    + intro Hno. unfold cell_8. rewrite Hentry.
      destruct (Py.get here (text (typed a))) as [[|names]|];
        [now destruct Hno | |reflexivity].
      destruct ((0 <? length (contents_of (Dir names))) && (old_data a =? 1));
        reflexivity.
    + intro Hf. split; [now apply Hfile|].
      unfold cell_8. rewrite Hentry, Hf. reflexivity.
Qed.

End Notebook.

(** * The cells at work on small stacks *)

Lemma first_seen_in (xs : list pystr) (x : pystr) :
  In x (Demo.first_seen xs) <-> In x xs.
Proof.
  induction xs as [|y xs IH]; simpl; [tauto|].
  rewrite filter_In, IH. destruct (Py.eqb y x) eqn:E.
  - apply eqb_eq in E. subst. intuition auto.
  - apply eqb_neq in E. simpl. intuition auto.
Qed.

Lemma no_rtc_products_is_fatal_witness :
  cell_16 Demo.insar_jobs (fun jobs => jobs) (py "flood_2021")
  = Raise (ValueError no_products_message)
  /\ exists before after,
       no_products_message = before ++ py "Select a different project" ++ after.
Proof.
  apply (no_rtc_products_is_fatal Demo.insar_jobs (fun jobs => jobs) (py "flood_2021")).
  intros j [<-|[<-|[]]]; reflexivity.
Defined.

Lemma predominant_utm_witness :
  exists z,
    cell_49 UTM [py "32611"; py "32610"; py "32611"; py "32610"] = Ok z
    /\ In z [py "32611"; py "32610"; py "32611"; py "32610"]
    /\ (forall z', In z' [py "32611"; py "32610"; py "32611"; py "32610"] ->
                   Py.count z' [py "32611"; py "32610"; py "32611"; py "32610"]
                   <= Py.count z [py "32611"; py "32610"; py "32611"; py "32610"])
    /\ (forall z', In z' [py "32611"; py "32610"; py "32611"; py "32610"] ->
                   Py.count z' [py "32611"; py "32610"; py "32611"; py "32610"]
                   = Py.count z [py "32611"; py "32610"; py "32611"; py "32610"] ->
                   z' = z \/ Py.ltb z z' = true).
Proof.
  apply (predominant_utm_is_least_most_common_zone
           [py "32611"; py "32610"; py "32611"; py "32610"]).
  discriminate.
Defined.

(** C3 fails as it is worded: over [Demo.two_authorities] the pair of EPSG
    and 32611 is borne by more rasters than any other pair, and cell 49
    returns the code 32610. *)
Lemma pair_majority_is_not_selected :
  let w := Demo.two_authorities in
  exists utm_zones utm_types,
    cell_47 (Py.keys (disk w)) w = (Ok (utm_zones, utm_types), w)
    /\ (forall tz, In tz (combine utm_types utm_zones) ->
                   tz <> (py "EPSG", py "32611") ->
                   pair_count (fst tz) (snd tz) utm_types utm_zones
                   < pair_count (py "EPSG") (py "32611") utm_types utm_zones)
    /\ cell_49 UTM utm_zones = Ok (py "32610").
Proof.
  eexists. eexists. split; [vm_compute; reflexivity|].
  split; [|vm_compute; reflexivity].
  intros tz Hin Hne. cbn [combine] in Hin.
  repeat (destruct Hin as [<-|Hin]; [try (vm_compute; lia);
                                     exfalso; apply Hne; reflexivity|]).
  destruct Hin.
Qed.









(** C1: the claim holds in single-channel mode and the code breaks it in
    dual-channel mode.  Over [Demo.one_frame_two_channels] the one date has
    one file per channel: the merger of the VV channel alone leaves the
    world as it is, and the merger of both channels runs gdal_merge.py on
    each file by itself and removes the file. *)
Theorem one_file_per_channel_is_merged_in_dual_channel_mode :
  let w := Demo.one_frame_two_channels in
  let merger := merger Demo.warp_ok Demo.merge_ok Demo.date_from_product_name
                  Demo.first_seen in
  merger (py "VV") w = (Ok tt, w)
  /\ exists cmd_vv cmd_vh w',
       merger (py "VV and VH") w = (Ok tt, w')
       /\ log w' = [Shell cmd_vv;
                    OsRemove (py "rtc_products/P1/S1A_20210101T000000_VV.tif");
                    Shell cmd_vh;
                    OsRemove (py "rtc_products/P1/S1A_20210101T000000_VH.tif")]
       /\ words cmd_vv = [py "gdal_merge.py"; py "-o";
                          py "rtc_products/P1/newS1A_20210101T000000_VV.tif";
                          py "rtc_products/P1/S1A_20210101T000000_VV.tif"]
       /\ words cmd_vh = [py "gdal_merge.py"; py "-o";
                          py "rtc_products/P1/newS1A_20210101T000000_VH.tif";
                          py "rtc_products/P1/S1A_20210101T000000_VH.tif"]
       /\ Py.keys (disk w') = [py "rtc_products/P1/newS1A_20210101T000000_VV.tif";
                               py "rtc_products/P1/newS1A_20210101T000000_VH.tif"].
Proof.
  split; [vm_compute; reflexivity|].
  eexists. eexists. eexists. split; [vm_compute; reflexivity|].
  split; [reflexivity|]. split; [vm_compute; reflexivity|].
  split; vm_compute; reflexivity.
Qed.

(** C7: the claim holds in single-channel mode and the code breaks it in
    dual-channel mode.  Over [Demo.two_frames_two_channels] the first run
    of the merger of both channels leaves one file per channel for the one
    date; the second run, on that output, runs gdal_merge.py twice more,
    writes two new files and removes the two it found. *)
Theorem second_run_merges_again_in_dual_channel_mode :
  let w := Demo.two_frames_two_channels in
  let merger := merger Demo.warp_ok Demo.merge_ok Demo.date_from_product_name
                  Demo.first_seen in
  exists w1 w2,
    merger (py "VV and VH") w = (Ok tt, w1)
    /\ Py.keys (disk w1) = [py "rtc_products/P1/newS1A_20210101T000000_VV.tif";
                            py "rtc_products/P1/newS1A_20210101T000000_VH.tif"]
    /\ merger (py "VV and VH") w1 = (Ok tt, w2)
    /\ length (filter is_mosaic (log w1)) = 2
    /\ length (filter is_mosaic (log w2)) = 4
    /\ Py.keys (disk w2) = [py "rtc_products/P1/newnewS1A_20210101T000000_VV.tif";
                            py "rtc_products/P1/newnewS1A_20210101T000000_VH.tif"].
Proof.
  eexists. eexists. split; [vm_compute; reflexivity|].
  split; [vm_compute; reflexivity|]. split; [vm_compute; reflexivity|].
  split; [vm_compute; reflexivity|]. split; vm_compute; reflexivity.
Qed.

(** C9, amended: in dual-channel mode the pattern of cell 38 is built
    from the first letter of the selection alone: the paths collected are
    those of the channels that begin with this letter and go on with v, V,
    h or H, taken together.  A date is a merge candidate exactly when more
    than one of these paths bears it, and both channels get the same
    dictionary of candidates.  When the two channels of the selection
    begin with this letter and every collected path belongs to one of
    them, the count of a date is the sum of its counts in the two
    channels.  So a channel's dictionary can hold a date for which that
    channel has a single file: over [Demo.one_frame_two_channels] the date
    20210101 is a candidate of both channels, and the VV channel has one
    file of that date. *)
Theorem dual_channel_candidates_count_the_channels_of_the_first_letter :
  (forall (date_from_product_name : pystr -> option pystr)
          (set_of : list pystr -> list pystr)
          (polarization : pystr) (p0 : ascii) (rest : pystr) (w : world)
          (dates : list pystr),
      (forall xs x, In x (set_of xs) <-> In x xs) ->
      polarization = p0 :: rest -> length polarization <> 2 ->
      let tiff_paths := collected (Re.double p0) (tiff_pth_of p0) w in
      get_dates date_from_product_name tiff_paths = Ok dates ->
      (exists regex, cell_38 polarization = Ok (regex, true)
                     /\ forall s, Re.search regex s = Re.search (Re.double p0) s)
      /\ cell_44 polarization = Ok (tiff_pth_of p0)
      /\ (forall p, In p tiff_paths
                    <-> In p (Py.keys (disk w))
                        /\ Glob.matches (tiff_pth_of p0) p = true
                        /\ existsb (fun x => Re.search (Re.single [p0; x]) p)
                             (py "vVhH") = true)
      /\ (exists batch,
             cell_59 (set_of dates) dates true = [batch; batch]
             /\ forall d, Py.has batch d = true
                          <-> 1 < length (filter (has_date date_from_product_name d)
                                            tiff_paths))
      /\ forall x1 x2,
           polar_list_of polarization true = Ok [[p0; x1]; [p0; x2]] ->
           In x1 (py "vVhH") -> In x2 (py "vVhH") -> x1 <> x2 ->
           forallb (fun p => Re.search (Re.single [p0; x1]) p
                             || Re.search (Re.single [p0; x2]) p) tiff_paths = true ->
           forall d,
             length (filter (has_date date_from_product_name d) tiff_paths)
             = length (filter (has_date date_from_product_name d)
                         (collected (Re.single [p0; x1]) (tiff_pth_of p0) w))
               + length (filter (has_date date_from_product_name d)
                           (collected (Re.single [p0; x2]) (tiff_pth_of p0) w)))
  /\ (let w := Demo.one_frame_two_channels in
      let date := py "20210101" in
      let tiff_pth := tiff_pth_of "V"%char in
      let vv := py "rtc_products/P1/S1A_20210101T000000_VV.tif" in
      let vh := py "rtc_products/P1/S1A_20210101T000000_VH.tif" in
      cell_59 (Demo.first_seen [date; date]) [date; date] true
      = [[(date, [])]; [(date, [])]]
      /\ cell_61 Demo.date_from_product_name (py "VV and VH") true tiff_pth
           [[(date, [])]; [(date, [])]] w
         = (Ok ([py "VV"; py "VH"],
                [[(date, paths_string [vv])]; [(date, paths_string [vh])]]), w)
      /\ filter (has_date Demo.date_from_product_name date)
           (collected (Re.polar_regex (py "VV")) tiff_pth w) = [vv]).
Proof.
  split.
  - intros date_from_product_name set_of polarization p0 rest w dates
      Hset Epol Hlen tiff_paths Hdates.
    destruct (dual_channel_candidates date_from_product_name set_of polarization p0
                rest w dates Hset Epol Hlen Hdates) as (H38 & H44 & Hpaths & Hbatch).
    split; [exact H38|]. split; [exact H44|]. split; [exact Hpaths|].
    split; [exact Hbatch|].
    intros x1 x2 _ Hx1 Hx2 Hne Hall d.
    now apply dual_channel_sum.
  - split; [vm_compute; reflexivity|]. split; vm_compute; reflexivity.
Qed.

Lemma dual_channel_candidates_witness :
  let w := Demo.two_frames_two_channels in
  let tiff_pth := tiff_pth_of "V"%char in
  let date := py "20210101" in
  (exists batch,
     cell_59 (Demo.first_seen [date; date; date; date]) [date; date; date; date] true
     = [batch; batch]
     /\ forall d, Py.has batch d = true
                  <-> 1 < length (filter (has_date Demo.date_from_product_name d)
                                    (collected (Re.double "V"%char) tiff_pth w)))
  /\ length (filter (has_date Demo.date_from_product_name date)
               (collected (Re.double "V"%char) tiff_pth w))
     = length (filter (has_date Demo.date_from_product_name date)
                 (collected (Re.single (py "VV")) tiff_pth w))
       + length (filter (has_date Demo.date_from_product_name date)
                   (collected (Re.single (py "VH")) tiff_pth w)).
Proof.
  intros w tiff_pth date.
  destruct (proj1 dual_channel_candidates_count_the_channels_of_the_first_letter
              Demo.date_from_product_name Demo.first_seen (py "VV and VH")
              "V"%char (py "V and VH") w [date; date; date; date]
              first_seen_in eq_refl)
    as (_ & _ & _ & Hbatch & Hsum).
  - vm_compute. discriminate.
  - vm_compute. reflexivity.
  - split; [exact Hbatch|].
    apply (Hsum "V"%char "H"%char).
    + reflexivity.
    + cbn. auto.
    + cbn. auto.
    + discriminate.
    + vm_compute. reflexivity.
Defined.

(** C9 fails as it is worded: for the selection HH and VV the channels
    are HH and VV, and over [Demo.one_frame_hh_vv] each of them holds one
    raster of the date 20210101, two in all.  Cell 38 builds its pattern
    from the letter H, the raster of the VV channel is not collected, the
    date is counted once and is no candidate: the dictionaries of both
    channels are empty and the Merger leaves the world as it is. *)
Lemma second_channel_of_HH_and_VV_is_not_counted :
  let w := Demo.one_frame_hh_vv in
  let date := py "20210101" in
  let hh := py "rtc_products/P1/S1A_20210101T000000_HH.tif" in
  let vv := py "rtc_products/P1/S1A_20210101T000000_VV.tif" in
  let of_channel polar :=
    filter (has_date Demo.date_from_product_name date)
      (filter (Re.search (Re.polar_regex polar)) (Py.keys (disk w))) in
  cell_38 (py "HH and VV") = Ok (Re.double "H"%char, true)
  /\ cell_44 (py "HH and VV") = Ok (tiff_pth_of "H"%char)
  /\ polar_list_of (py "HH and VV") true = Ok [py "HH"; py "VV"]
  /\ of_channel (py "HH") = [hh]
  /\ of_channel (py "VV") = [vv]
  /\ collected (Re.double "H"%char) (tiff_pth_of "H"%char) w = [hh]
  /\ get_dates Demo.date_from_product_name [hh] = Ok [date]
  /\ candidate Demo.date_from_product_name (Re.double "H"%char)
       (tiff_pth_of "H"%char) date w = false
  /\ cell_59 (Demo.first_seen [date]) [date] true = [[]; []]
  /\ merger Demo.warp_ok Demo.merge_ok Demo.date_from_product_name
       Demo.first_seen (py "HH and VV") w = (Ok tt, w).
Proof.
  split; [reflexivity|]. split; [reflexivity|]. split; [reflexivity|].
  split; [vm_compute; reflexivity|]. split; [vm_compute; reflexivity|].
  split; [vm_compute; reflexivity|]. split; [vm_compute; reflexivity|].
  split; [vm_compute; reflexivity|]. split; vm_compute; reflexivity.
Qed.

Lemma one_raster_witness :
  let w := Demo.two_frames_two_channels in
  let w' := snd (merger Demo.warp_ok Demo.merge_ok Demo.date_from_product_name
                   Demo.first_seen (py "VV and VH") w) in
  length (rasters_of Demo.date_from_product_name (tiff_pth_of "V"%char) (py "VV")
            (py "20210101") w') = 1
  /\ length (rasters_of Demo.date_from_product_name (tiff_pth_of "V"%char) (py "VH")
               (py "20210101") w') = 1.
Proof.
  intros w w'.
  destruct (merger_leaves_one_raster_per_date_and_channel
              Demo.warp_ok Demo.merge_ok Demo.date_from_product_name Demo.first_seen
              (py "VV and VH") (Re.double "V"%char) true (tiff_pth_of "V"%char)
              [py "VV"; py "VH"] w w' first_seen_in) as [Hone _].
  - intros rs. discriminate.
  - reflexivity.
  - reflexivity.
  - reflexivity.
  - vm_compute. reflexivity.
  - vm_compute. reflexivity.
  - vm_compute. reflexivity.
  - split.
    + destruct (Hone (py "VV") (py "20210101") (or_introl eq_refl)) as (H & _).
      apply H. vm_compute. discriminate.
    + destruct (Hone (py "VH") (py "20210101") (or_intror (or_introl eq_refl)))
        as (H & _).
      apply H. vm_compute. discriminate.
Defined.

(** C2 fails as it is worded: gdal_merge.py fails over
    [Demo.two_dates_two_frames]; the Merger runs to its end, the date
    20210101 had two rasters in the VV channel and has none afterwards, and
    the check of cell 65 prints that no duplicate dates are left. *)
Lemma failed_mosaic_leaves_no_raster_and_the_check_passes :
  let w := Demo.two_dates_two_frames in
  let tiff_pth := tiff_pth_of "V"%char in
  exists w',
    merger Demo.warp_ok Demo.merge_fails Demo.date_from_product_name
      Demo.first_seen (py "VV") w = (Ok tt, w')
    /\ length (rasters_of Demo.date_from_product_name tiff_pth (py "VV")
                 (py "20210101") w) = 2
    /\ rasters_of Demo.date_from_product_name tiff_pth (py "VV") (py "20210101") w'
       = []
    /\ cell_65 Demo.date_from_product_name Demo.first_seen (Re.single (py "VV"))
         tiff_pth [py "VV"] w'
       = (Ok ([], [py "No duplicate dates are associated with VV polarization."]),
          w').
Proof.
  eexists. split; [vm_compute; reflexivity|].
  split; [vm_compute; reflexivity|]. split; vm_compute; reflexivity.
Qed.

(** The naming condition of the amended C2 is needed: in
    [Demo.underscore_and_hyphen] one raster of the date ends in [_VV.tif]
    and the other in [-VV.tif].  Cell 38 collects both and the date is a
    candidate, cell 61 takes the first alone, and the Merger writes the
    mosaic of that one file: two rasters of the date are left, and the
    check of cell 65 complains.  The stack is not [well_named]. *)
Example hyphen_before_the_channel_is_not_well_named :
  let w := Demo.underscore_and_hyphen in
  let tiff_pth := tiff_pth_of "V"%char in
  let left := [py "rtc_products/P2/S1A_20210101T000025-VV.tif";
               py "rtc_products/P1/newS1A_20210101T000000_VV.tif"] in
  well_named Demo.date_from_product_name (Re.single (py "VV")) tiff_pth [py "VV"] w
  = false
  /\ exists w',
       merger Demo.warp_ok Demo.merge_ok Demo.date_from_product_name
         Demo.first_seen (py "VV") w = (Ok tt, w')
       /\ Py.keys (disk w') = left
       /\ cell_65 Demo.date_from_product_name Demo.first_seen (Re.single (py "VV"))
            tiff_pth [py "VV"] w'
          = (Ok (left, [py "Duplicate dates still present!"]), w').
Proof.
  split; [vm_compute; reflexivity|].
  eexists. split; [vm_compute; reflexivity|].
  split; vm_compute; reflexivity.
Qed.

(** ** Further runs *)

Lemma first_seen_nodup (xs : list pystr) : NoDup (Demo.first_seen xs).
Proof.
  induction xs as [|x xs IH]; cbn [Demo.first_seen]; constructor.
  - intro H. apply filter_In in H as [_ H]. now rewrite eqb_refl in H.
  - now apply NoDup_filter.
Qed.

Lemma first_seen_is_set (xs : list pystr) :
  NoDup (Demo.first_seen xs) /\ forall x, In x (Demo.first_seen xs) <-> In x xs.
Proof. split; [apply first_seen_nodup | intro x; apply first_seen_in]. Qed.

Lemma glob_witness :
  exists product a b c,
    let name := a ++ "V"%char :: b ++ py ".tif" ++ c in
    py "rtc_products/P1/S1A_20210101T000000_VV.tif" = product_path product name
    /\ product <> []
    /\ without "/"%char product = true /\ without "/"%char name = true
    /\ Glob.hidden product = false /\ Glob.hidden name = false.
Proof.
  exact (proj1 (glob_of_cell_44_finds_the_tifs_of_the_products "V"%char
                  (py "rtc_products/P1/S1A_20210101T000000_VV.tif") eq_refl)
           eq_refl).
Defined.

Lemma identifier_witness :
  zone_of_wkt (wkt_with_id (py "PROJCRS[...,") (py "EPSG") (py "32610"))
  = Ok (py "32610")
  /\ type_of_wkt (wkt_with_id (py "PROJCRS[...,") (py "EPSG") (py "32610"))
     = Ok (py "EPSG").
Proof.
  exact (cell_47_reads_the_last_identifier (py "PROJCRS[...,") (py "EPSG")
           (py "32610") eq_refl eq_refl eq_refl eq_refl eq_refl).
Defined.

Lemma text_without_comma_witness :
  cell_47 (Py.keys (disk raster_without_system)) raster_without_system
  = (Raise IndexError, raster_without_system).
Proof.
  refine (proj2 (cell_47_raises_IndexError_on_a_text_without_comma
                   (Py.keys (disk raster_without_system)) raster_without_system _)
            (py "rtc_products/P1/S1A_20210101T000000_VV.tif")
            {| wkt := []; pixels := [1] |} (or_introl eq_refl) eq_refl eq_refl).
  intros p [<-|[]]. discriminate.
Defined.

Lemma normalizer_run_witness :
  let w := Demo.one_off_zone in
  exists predominant_utm w',
    cell_49 UTM [py "32610"; py "32611"; py "32610"; py "32610"] = Ok predominant_utm
    /\ normalizer Demo.warp_ok Demo.merge_ok UTM (vv_paths w) w = (Ok tt, w')
    /\ length (log w')
       = length (log w)
         + 2 * length (reproject_indicies
                         [py "32610"; py "32611"; py "32610"; py "32610"]
                         predominant_utm).
Proof.
  intro w.
  apply (normalizer_runs_to_its_end_on_the_collected_paths
           Demo.warp_ok Demo.merge_ok (Re.single (py "VV")) "V"%char UTM
           [py "32610"; py "32611"; py "32610"; py "32610"]
           [py "EPSG"; py "EPSG"; py "EPSG"; py "EPSG"] w eq_refl).
  - vm_compute. reflexivity.
  - right. vm_compute. discriminate.
Defined.


Lemma no_paths_witness :
  merge_date Demo.warp_ok Demo.merge_ok [(py "20210101", [])] (py "20210101")
    Demo.two_dates_two_frames
  = (Raise IndexError, Demo.two_dates_two_frames).
Proof.
  destruct (merge_needs_two_slashes_in_the_string_of_paths
              Demo.warp_ok Demo.merge_ok [(py "20210101", [])] (py "20210101") []
              Demo.two_dates_two_frames eq_refl) as [Hfew _].
  apply Hfew. cbn. lia.
Defined.

Lemma missing_channel_witness :
  exists w',
    merger Demo.warp_ok Demo.merge_ok Demo.date_from_product_name Demo.first_seen
      (py "VV and VH") Demo.two_dates_two_frames = (Raise IndexError, w').
Proof.
  apply (proj1 (merger_stops_when_a_candidate_date_has_no_file_in_a_channel
                  Demo.warp_ok Demo.merge_ok Demo.date_from_product_name
                  Demo.first_seen (py "VV and VH") (Re.double "V"%char) true
                  "V"%char [py "VV"; py "VH"] Demo.two_dates_two_frames
                  first_seen_in ltac:(discriminate) eq_refl eq_refl eq_refl
                  ltac:(intros p [<-|[<-|[<-|[<-|[]]]]] _; vm_compute; discriminate))).
  exists (py "VH"), (py "20210101").
  split; [right; now left|]. split; vm_compute; reflexivity.
Defined.

Lemma check_witness :
  let w := Demo.one_zone in
  verdict Demo.date_from_product_name Demo.first_seen (Re.single (py "VV"))
    (tiff_pth_of "V"%char) (py "VV") w
  = (Ok (no_duplicates_line (py "VV")), w).
Proof.
  intro w.
  apply (proj1 (check_complains_exactly_when_two_rasters_share_a_date
                  Demo.date_from_product_name Demo.first_seen (Re.single (py "VV"))
                  (tiff_pth_of "V"%char) (py "VV") w [py "20210101"; py "20210113"]
                  first_seen_is_set eq_refl)).
  constructor; [intros [E|[]]; discriminate E|].
  constructor; [intros []|constructor].
Defined.

Lemma check_of_all_channels_witness :
  let w := one_frame_hh_hv in
  length (rasters_of Demo.date_from_product_name (tiff_pth_of "H"%char) (py "HH")
            (py "20210101") w) = 1
  /\ verdict Demo.date_from_product_name Demo.first_seen (Re.double "H"%char)
       (tiff_pth_of "H"%char) (py "HH") w
     = (Ok duplicates_line, w).
Proof.
  intro w. split; [reflexivity|].
  apply (check_looks_at_all_channels_unless_the_selection_begins_with_V
           Demo.date_from_product_name Demo.first_seen (Re.double "H"%char)
           "H"%char (py "20210101") w first_seen_is_set ltac:(discriminate)).
  - intros p Hp. vm_compute in Hp.
    destruct Hp as [<-|[<-|[]]]; vm_compute; discriminate.
  - vm_compute. reflexivity.
Defined.

Lemma finalizer_witness :
  let w := one_zone_beside_older_tiffs in
  exists w',
    cell_69 (py "/home/jovyan/flood") (vv_paths w) w = (Ok tt, w')
    /\ Py.get (disk w) (py "tiffs/S1A_20210101T000000_VV.tif")
       = Some (snd (Demo.file "" "EPSG" "32610" 9))
    /\ Py.get (disk w') (py "tiffs/S1A_20210101T000000_VV.tif")
       = Some (snd (Demo.file "" "EPSG" "32610" 1))
    /\ Py.get (disk w') (py "rtc_products/P1/S1A_20210101T000000_VV.tif") = None.
Proof.
  intro w.
  destruct (finalizer_moves_the_rasters_and_removes_rtc_products
              (py "/home/jovyan/flood") (Re.single (py "VV")) "V"%char w eq_refl)
    as (w' & Hrun & _ & Hget & Hsole).
  - vm_compute. constructor; [intros [E|[E|[]]]; discriminate E|].
    constructor; [intros [E|[]]; discriminate E|].
    constructor; [intros []|constructor].
  - reflexivity.
  - reflexivity.
  - exists w'. split; [exact Hrun|]. split; [reflexivity|]. split.
    + refine (Hsole (py "rtc_products/P1/S1A_20210101T000000_VV.tif") _ _).
      * vm_compute. now left.
      * intros q Hq E. vm_compute in Hq.
        destruct Hq as [<-|[<-|[]]]; [reflexivity|].
        vm_compute in E. discriminate E.
    + rewrite Hget. reflexivity.
Defined.

Lemma second_run_witness :
  let w := Demo.one_zone in
  let tiff_paths := [py "rtc_products/P1/S1A_20210101T000000_VV.tif";
                     py "rtc_products/P2/S1A_20210113T000000_VV.tif"] in
  let w' := snd (cell_69 (py "/home/jovyan/flood") tiff_paths w) in
  cell_69 (py "/home/jovyan/flood") tiff_paths w = (Ok tt, w')
  /\ cell_69 (py "/home/jovyan/flood") tiff_paths w' = (Raise OSError, w').
Proof.
  intros w tiff_paths w'.
  assert (Hrun : cell_69 (py "/home/jovyan/flood") tiff_paths w = (Ok tt, w')).
  { vm_compute. reflexivity. }
  split; [exact Hrun|].
  exact (proj2 (finalizer_cannot_be_run_twice (py "/home/jovyan/flood")
                  (py "rtc_products/P1/S1A_20210101T000000_VV.tif")
                  [py "rtc_products/P2/S1A_20210113T000000_VV.tif"] w w'
                  eq_refl Hrun)).
Defined.

Lemma strings_of_paths_witness :
  let w := Demo.two_frames_two_channels in
  exists dates filled batch,
    cell_61 Demo.date_from_product_name (py "VV and VH") true (tiff_pth_of "V"%char)
      (cell_59 (Demo.first_seen dates) dates true) w
    = (Ok ([py "VV"; py "VH"], filled), w)
    /\ nth_error filled 1 = Some batch
    /\ Py.get batch (py "20210101")
       = Some (py " rtc_products/P1/S1A_20210101T000000_VH.tif"
               ++ py " rtc_products/P2/S1A_20210101T000025_VH.tif").
Proof.
  intro w.
  destruct (cell_61_lists_the_rasters_of_every_candidate_date_by_channel
              Demo.date_from_product_name Demo.first_seen (Re.double "V"%char)
              (py "VV and VH") true (tiff_pth_of "V"%char) [py "VV"; py "VH"] w
              first_seen_in eq_refl)
    as (dates & filled & _ & Hrun & _ & Hnth).
  - intros p Hp _. vm_compute in Hp.
    destruct Hp as [<-|[<-|[<-|[<-|[]]]]]; vm_compute; discriminate.
  - destruct (Hnth 1 (py "VH") eq_refl) as (batch & Hbatch & Hget).
    exists dates, filled, batch. split; [exact Hrun|]. split; [exact Hbatch|].
    rewrite Hget. vm_compute. reflexivity.
Defined.

Lemma working_directory_witness :
  let here := folder_with_old_data in
  let flood := {| text := py "flood"; text_is_plain := eq_refl |} in
  let notes := {| text := py "notes.txt"; text_is_plain := eq_refl |} in
  let answers := [{| typed := flood; old_data := 3 |};
                  {| typed := notes; old_data := 1 |}] in
  cell_6 answers here = Some (notes, here)
  /\ cell_8 (py "/home/jovyan") notes here = Raise OSError.
Proof.
  intros here flood notes answers.
  destruct (cell_6_returns_a_name_that_is_there answers here here notes
              (py "/home/jovyan") eq_refl)
    as (skipped & a & rest & _ & _ & _ & _ & _ & _ & _ & _ & Hfile).
  split; [reflexivity|]. now destruct (Hfile eq_refl).
Defined.

Lemma dual_pattern_witness :
  exists regex,
    cell_38 (py "VV and VH") = Ok (regex, true)
    /\ Re.search regex (py "rtc_products/P1/S1A_20210101T000000_Vh.tif") = true.
Proof.
  destruct (dual_channel_pattern_looks_at_the_first_letter_only
              (py "VV and VH") "V"%char (py "V and VH") eq_refl)
    as (regex & H38 & Haccepts).
  - discriminate.
  - exists regex. split; [exact H38|]. apply Haccepts.
    exists (py "rtc_products/P1/S1A_2021"), "0"%char, (py "101T000000"), "_"%char,
      "h"%char, "."%char, (py "tif"), [].
    split; [reflexivity|]. split; [reflexivity|].
    split; [cbn; lia|]. split; [reflexivity|]. split; [now left|].
    split; [cbn; auto|]. unfold tif_ending. auto.
Defined.

Example split_slash :
Py.split "/"%char (py " rtc_products/p/a.tif rtc_products/q/b.tif")
= [py " rtc_products"; py "p"; py "a.tif rtc_products"; py "q"; py "b.tif"].
Proof. reflexivity. Qed.
Example split_id :
Py.split_str (py "ID") (py "xIDyIDIDz") = [py "x"; py "y"; py ""; py "z"].
Proof. reflexivity. Qed.
Example replace_v :
Py.replace (py "V*") (py "VH") (py "rtc_products/*/*V*.tif*") = py "rtc_products/*/*VH.tif*".
Proof. reflexivity. Qed.

Example single_vv :
map (Re.search (Re.single (py "VV")))
  [py "rtc_products/P/S1A_20210101T000000_VV.tif"; py "rtc_products/P/S1A_20210101T000000_VH.tif";
   py "rtc_products/P/S1A_20210101T000000-VV.tiff"; py "a_VV.tif"; py "abcdef_VVxtif"]
= [true; false; true; false; true].
Proof. vm_compute. reflexivity. Qed.
Example double_v :
map (Re.search (Re.double "V"%char))
  [py "rtc_products/P/S1A_20210101T000000_VV.tif"; py "rtc_products/P/S1A_20210101T000000_VH.tif";
   py "rtc_products/P/S1A_20210101T000000_HH.tif"; py "rtc_products/P/a b_VV.tif"]
= [true; true; false; false].
Proof. vm_compute. reflexivity. Qed.
Example polar_vv :
map (Re.search (Re.polar_regex (py "VV")))
  [py "rtc_products/P/S1A_20210101T000000_VV.tif"; py "rtc_products/P/S1A_20210101T000000_VH.tif";
   py "rtc_products/P/S1A_20210101T000000-VV.tif"; py "rtc_products/P/a b_VV.tif"]
= [true; false; false; true].
Proof. vm_compute. reflexivity. Qed.
Example glob_v :
map (Glob.matches (py "rtc_products/*/*V*.tif*"))
  [py "rtc_products/P/S1A_20210101T000000_VV.tif"; py "rtc_products/P/.S1A_VV.tif";
   py "rtc_products/S1A_VV.tif"; py "rtc_products/P/S1A_HH.tif"; py "rtc_products/P/S1A_VV.tif.aux.xml";
   py "other/P/S1A_VV.tif"]
= [true; false; false; false; true; false].
Proof. vm_compute. reflexivity. Qed.
